(** * org-cli: the scan -> dispatch -> move pipeline of the file organizer

    A shallow embedding of [internal/organizer/organizer.go] (the functions
    [DefaultCategoryMappings], [moveFile] and [OrganizeFiles]), of
    [cmd/organizer/main.go] (the configuration [main] builds from its
    flags, [loadCustomMappings], the progress collector) and of the first
    versions of the package (the scan-only [OrganizeFiles] and the
    [moveFile] without progress channel), together with the parts of the
    Go standard library they call ([strings], [path/filepath] on Unix,
    [time], [os]).

    Conventions.
    - Go strings are byte strings: [string].
    - [map[string]string] is [gmap string string].
    - The counters [totalScanned], [totalSkipped], [len(filesToMove)] are Go
      [int]s (64 bits).  Each is incremented at most once per directory
      entry, so it cannot wrap; they are kept in [nat].
    - Console output of the scan phase is not modelled; the output of
      [moveFile] is, because it is interleaved with the channel sends.
    - [moveFile] is a tree of the calls it makes; a call into [os] or
      [time] may panic, printing and sending on the progress channel do
      not (the channel is closed only after [OrganizeFiles] has returned).
    - The worker pool is a transition system over these trees: any
      interleaving of the goroutines, any answers of the file system.
    - A [range] loop over a map visits the entries in an order Go does not
      fix; the order is a parameter of the functions that range over a
      map. *)

From Stdlib Require Import Ascii String List ZArith Lia Bool.
From stdpp Require Import gmap strings list.

Import ListNotations.
Local Open Scope list_scope.

(** ** The Go standard library, as far as the program uses it *)

(** *** package strings *)
Module strings.

(** One byte of [strings.ToLower]: the upper-case ASCII letters move to
    lower case.  (Go also maps upper-case letters outside ASCII, which are
    several bytes each in UTF-8; the model leaves bytes above 127 alone.) *)
Definition lower_byte (c : ascii) : ascii :=
  let n := nat_of_ascii c in
  if (65 <=? n)%nat && (n <=? 90)%nat then ascii_of_nat (n + 32) else c.

Fixpoint ToLower (s : string) : string :=
  match s with
  | EmptyString => EmptyString
  | String c rest => String (lower_byte c) (ToLower rest)
  end.

(** [strings.HasPrefix(s, prefix)]: [s] starts with the bytes of [prefix]. *)
Fixpoint HasPrefix (s prefix : string) {struct prefix} : bool :=
  match prefix, s with
  | EmptyString, _ => true
  | String _ _, EmptyString => false
  | String p prefix', String c s' => Ascii.eqb c p && HasPrefix s' prefix'
  end.

(** [strings.HasSuffix(s, suffix)]:
    [len(s) >= len(suffix) && s[len(s)-len(suffix):] == suffix]. *)
Definition HasSuffix (s suffix : string) : bool :=
  (String.length suffix <=? String.length s)%nat
  && String.eqb
       (substring (String.length s - String.length suffix)
                  (String.length suffix) s)
       suffix.

(** [strings.TrimSuffix(s, suffix)]: [s[:len(s)-len(suffix)]] when [s] ends
    with [suffix], else [s]. *)
Definition TrimSuffix (s suffix : string) : string :=
  if HasSuffix s suffix
  then substring 0 (String.length s - String.length suffix) s
  else s.

(** [strings.Join(elems, sep)]. *)
Definition Join (elems : list string) (sep : string) : string :=
  String.concat sep elems.

(** [strings.Split(s, "/")]: the fields between the separators; never
    empty. *)
Fixpoint SplitSlash (s : string) : list string :=
  match s with
  | EmptyString => [EmptyString]
  | String c rest =>
      match SplitSlash rest with
      | [] => [String c EmptyString]
      | e :: es =>
          if Ascii.eqb c "/" then EmptyString :: e :: es
          else String c e :: es
      end
  end.

End strings.

(** *** package path/filepath (Unix: the separator is '/', no volume names) *)
Module filepath.

Definition IsPathSeparator (c : ascii) : bool := Ascii.eqb c "/".

(** One step of [Clean] on the next path element; [out] is the stack of
    elements written so far, the last one first.  Empty and "." elements
    are dropped; ".." removes the element before it, is dropped at the
    root, and is kept at the start of a relative path. *)
Definition clean_step (rooted : bool) (out : list string) (e : string)
  : list string :=
  if String.eqb e "" || String.eqb e "." then out
  else if String.eqb e ".." then
    match out with
    | [] => if rooted then [] else [".."]
    | top :: below => if String.eqb top ".." then ".." :: out else below
    end
  else e :: out.

Definition rooted (path : string) : bool :=
  match path with
  | String c _ => IsPathSeparator c
  | EmptyString => false
  end.

(** [filepath.Clean]: the shortest path name equivalent to [path] by purely
    lexical processing.  The empty string becomes ".". *)
Definition Clean (path : string) : string :=
  let out := fold_left (clean_step (rooted path)) (strings.SplitSlash path) [] in
  let body := strings.Join (rev out) "/" in
  if rooted path then "/" +:+ body
  else if String.eqb body "" then "." else body.

(** [filepath.Join]: the elements from the first non-empty one on, joined
    with the separator and cleaned; "" when all are empty. *)
Fixpoint Join (elem : list string) : string :=
  match elem with
  | [] => ""
  | e :: rest =>
      if String.eqb e "" then Join rest else Clean (strings.Join elem "/")
  end.

(** The loop of [filepath.Ext]: walk back from the end until a separator;
    at the first dot return the suffix from there on. [before] holds the
    bytes still to the left, the nearest first. *)
Fixpoint ext_loop (before : list ascii) (suffix : string) : string :=
  match before with
  | [] => ""
  | c :: before' =>
      if IsPathSeparator c then ""
      else if Ascii.eqb c "." then String c suffix
      else ext_loop before' (String c suffix)
  end.

Definition Ext (path : string) : string :=
  ext_loop (rev (list_ascii_of_string path)) "".

(** [filepath.Base]: the last element of [path], trailing separators
    removed first; "." for the empty path, "/" for a path of separators
    only. *)
Fixpoint strip_seps (before : list ascii) : list ascii :=
  match before with
  | c :: before' => if IsPathSeparator c then strip_seps before' else before
  | [] => []
  end.

Fixpoint last_elem (before : list ascii) (suffix : string) : string :=
  match before with
  | [] => suffix
  | c :: before' =>
      if IsPathSeparator c then suffix else last_elem before' (String c suffix)
  end.

Definition Base (path : string) : string :=
  if String.eqb path "" then "."
  else
    match strip_seps (rev (list_ascii_of_string path)) with
    | [] => "/"
    | stripped => last_elem stripped ""
    end.

(** [filepath.Dir]: everything up to and including the last separator,
    cleaned. *)
Fixpoint upto_last_sep (before : list ascii) : list ascii :=
  match before with
  | [] => []
  | c :: before' => if IsPathSeparator c then before else upto_last_sep before'
  end.

Definition Dir (path : string) : string :=
  Clean (string_of_list_ascii
           (rev (upto_last_sep (rev (list_ascii_of_string path))))).

End filepath.

(** *** errors *)

(** The causes the operating system reports, as far as the program tells
    them apart: [os.IsNotExist] singles out [ENOENT]. *)
Inductive Errno := ENOENT | EACCES | EEXIST | ENOTDIR | EIO | EXDEV.

(** Go [error] values: the two sentinels of [io/fs] that a walk callback may
    return, the [*fs.PathError] (or [*os.LinkError]) of a failed system
    call, and [fmt.Errorf("<context>: %w", cause)]. *)
Inductive error :=
| SkipDir
| SkipAll
| PathError (op path : string) (errno : Errno)
| Errorf (context : string) (cause : error).

Global Instance Errno_eq_dec : EqDecision Errno.
Proof. solve_decision. Defined.
Global Instance error_eq_dec : EqDecision error.
Proof. solve_decision. Defined.

Module os.

(** [os.IsNotExist(err)]; false for [nil] and for wrapped errors (it does
    not unwrap [%w]). *)
Definition IsNotExist (err : option error) : bool :=
  match err with
  | Some (PathError _ _ ENOENT) => true
  | _ => false
  end.

End os.

(** *** package time *)
Module time.

(** A wall-clock reading, as [time.Now()] returns it. *)
Record Time := mkTime
  { Year : nat; Month : nat; Day : nat;
    Hour : nat; Minute : nat; Second : nat }.

Definition digit (n : nat) : ascii := ascii_of_nat (48 + n mod 10).

(** The decimal digits of [n], the most significant first; [fuel] bounds
    their number. *)
Fixpoint digits (fuel n : nat) (acc : string) : string :=
  match fuel with
  | 0 => acc
  | S fuel' =>
      let acc' := String (digit n) acc in
      if (n / 10 =? 0)%nat then acc' else digits fuel' (n / 10) acc'
  end.

Fixpoint zeros (k : nat) (s : string) : string :=
  match k with
  | 0 => s
  | S k' => String "0" (zeros k' s)
  end.

(** [appendInt(b, x, width)] of package time: [x] in decimal, padded with
    zeros on the left to at least [width] digits. *)
Definition appendInt (x width : nat) : string :=
  let ds := digits (S x) x "" in
  zeros (width - String.length ds) ds.

(** [t.Format("20060102_150405")]. *)
Definition Format_20060102_150405 (t : Time) : string :=
  appendInt (Year t) 4 +:+ appendInt (Month t) 2 +:+ appendInt (Day t) 2
  +:+ "_"
  +:+ appendInt (Hour t) 2 +:+ appendInt (Minute t) 2 +:+ appendInt (Second t) 2.

End time.

(** *** the directory tree seen by [filepath.WalkDir] *)

(** What [os.Lstat] and [os.ReadDir] report during one walk.  [File] is any
    entry that is not a directory.  A directory carries the entries
    [os.ReadDir] returned for it (sorted by name; possibly only some of them
    when the read failed half-way) and the error of that read, if any. *)
#[local] Unset Elimination Schemes.
Inductive Node :=
| File
| Directory (entries : list (string * Node)) (readErr : option error).
#[local] Set Elimination Schemes.

(** Induction on a tree, with the hypothesis for every entry of a
    directory. *)
Section Node_induction.
Variable P : Node -> Prop.
Hypothesis P_File : P File.
Hypothesis P_Directory :
  forall entries readErr,
    Forall (fun e => P (snd e)) entries -> P (Directory entries readErr).

Fixpoint Node_nested_ind (n : Node) : P n :=
  match n with
  | File => P_File
  | Directory entries readErr =>
      P_Directory entries readErr
        ((fix all (l : list (string * Node)) : Forall (fun e => P (snd e)) l :=
            match l with
            | [] => List.Forall_nil _
            | e :: l' => List.Forall_cons _ e l' (Node_nested_ind (snd e)) (all l')
            end) entries)
  end.
End Node_induction.

(** [fs.DirEntry], as far as the callback looks at it. *)
Record DirEntry := mkDirEntry { Name : string; IsDir : bool }.

Definition is_dir (n : Node) : bool :=
  match n with File => false | Directory _ _ => true end.

Definition entry_of (name : string) (n : Node) : DirEntry :=
  mkDirEntry name (is_dir n).

Section WalkDir.

(** The callback threads a state of type [S] (the variables it closes over
    in Go) and returns an [error] or [nil]. *)
Context {S : Type}.
Definition WalkDirFunc : Type :=
  string -> option DirEntry -> option error -> S -> option error * S.

Variable fn : WalkDirFunc.

(** The loop [for _, d1 := range dirs] of [walkDir]; [walk1] is the
    recursive call on one entry.  A [SkipDir] from an entry ends the loop
    ([break]), any other error is returned. *)
Definition range_dirs (walk1 : string -> Node -> S -> option error * S)
  : list (string * Node) -> S -> option error * S :=
  fix loop (dirs : list (string * Node)) (s : S) : option error * S :=
    match dirs with
    | [] => (None, s)
    | (name1, n1) :: dirs' =>
        match walk1 name1 n1 s with
        | (None, s') => loop dirs' s'
        | (Some SkipDir, s') => (None, s')
        | (Some err, s') => (Some err, s')
        end
    end.

(** [walkDir] of path/filepath:
<<
  if err := walkDirFn(path, d, nil); err != nil || !d.IsDir() {
      if err == SkipDir && d.IsDir() { err = nil }
      return err
  }
  dirs, err := os.ReadDir(path)
  if err != nil {
      err = walkDirFn(path, d, err)
      if err != nil {
          if err == SkipDir && d.IsDir() { err = nil }
          return err
      }
  }
  for _, d1 := range dirs {
      path1 := Join(path, d1.Name())
      if err := walkDir(path1, d1, walkDirFn); err != nil {
          if err == SkipDir { break }
          return err
      }
  }
  return nil
>> *)
Fixpoint walkDir (path : string) (name : string) (n : Node) (s : S)
  : option error * S :=
  let d := entry_of name n in
  match n with
  | File => fn path (Some d) None s
  | Directory entries readErr =>
      let walk_entries :=
        range_dirs
          (fun name1 n1 => walkDir (filepath.Join [path; name1]) name1 n1) in
      match fn path (Some d) None s with
      | (Some SkipDir, s1) => (None, s1)
      | (Some err, s1) => (Some err, s1)
      | (None, s1) =>
          match readErr with
          | None => walk_entries entries s1
          | Some rerr =>
              match fn path (Some d) (Some rerr) s1 with
              | (Some SkipDir, s2) => (None, s2)
              | (Some err, s2) => (Some err, s2)
              | (None, s2) => walk_entries entries s2
              end
          end
      end
  end.

(** [filepath.WalkDir(root, fn)]:
<<
  info, err := os.Lstat(root)
  if err != nil { err = fn(root, nil, err) }
  else { err = walkDir(root, fs.FileInfoToDirEntry(info), fn) }
  if err == SkipDir || err == SkipAll { return nil }
  return err
>>
    [lstat] is the result of [os.Lstat(root)]. *)
Definition WalkDir (root : string) (lstat : error + Node) (s : S)
  : option error * S :=
  let '(err, s') :=
    match lstat with
    | inl e => fn root None (Some e) s
    | inr n => walkDir root (filepath.Base root) n s
    end in
  match err with
  | Some SkipDir | Some SkipAll => (None, s')
  | _ => (err, s')
  end.

End WalkDir.

(** The loop of [walkDir] for the directory [path]. *)
Definition walkEntries {S : Type} (fn : @WalkDirFunc S) (path : string)
  : list (string * Node) -> S -> option error * S :=
  range_dirs (fun name1 n1 => walkDir fn (filepath.Join [path; name1]) name1 n1).

(** ** internal/organizer/organizer.go: the data model *)

(** [Config] (lines 17-25). *)
Record Config := mkConfig
  { SourceDir : string;
    DestDir : string;
    DryRun : bool;
    Recursive : bool;
    Workers : Z;
    CategoryMappings : gmap string string;
    Quiet : bool }.

(** [FileMove] (lines 28-32): one planned move.  The field [DryRun] of the
    source is [FileMove_DryRun] here, [Config] has the name already. *)
Record FileMove := mkFileMove
  { SourcePath : string;
    DestPath : string;
    FileMove_DryRun : bool }.

(** [ProgressUpdate] (lines 35-38): what a worker sends per file. *)
Record ProgressUpdate := mkProgressUpdate { Moved : nat; Errored : nat }.

(** The two literals the source sends: [ProgressUpdate{Moved: 1}] and
    [ProgressUpdate{Errored: 1}]. *)
Definition moved1 : ProgressUpdate := mkProgressUpdate 1 0.
Definition errored1 : ProgressUpdate := mkProgressUpdate 0 1.

Global Instance FileMove_eq_dec : EqDecision FileMove.
Proof. solve_decision. Defined.
Global Instance ProgressUpdate_eq_dec : EqDecision ProgressUpdate.
Proof. solve_decision. Defined.

(** The entries of the map literal of [DefaultCategoryMappings]
    (lines 42-107), in source order. *)
Definition default_entries : list (string * string) :=
  [ (".jpg", "Images"); (".jpeg", "Images"); (".png", "Images");
    (".gif", "Images"); (".bmp", "Images"); (".tiff", "Images");
    (".webp", "Images"); (".heic", "Images");
    (".pdf", "Documents"); (".doc", "Documents"); (".docx", "Documents");
    (".ppt", "Documents"); (".pptx", "Documents"); (".xls", "Documents");
    (".xlsx", "Documents"); (".txt", "Documents"); (".rtf", "Documents");
    (".odt", "Documents");
    (".mp4", "Videos"); (".mov", "Videos"); (".avi", "Videos");
    (".mkv", "Videos"); (".webm", "Videos");
    (".mp3", "Audio"); (".wav", "Audio"); (".flac", "Audio"); (".aac", "Audio");
    (".zip", "Archives"); (".rar", "Archives"); (".7z", "Archives");
    (".tar", "Archives"); (".gz", "Archives");
    (".exe", "Executables"); (".dmg", "Executables"); (".app", "Executables");
    (".deb", "Executables"); (".rpm", "Executables");
    (".go", "Code"); (".js", "Code"); (".ts", "Code"); (".py", "Code");
    (".java", "Code"); (".c", "Code"); (".cpp", "Code"); (".h", "Code");
    (".hpp", "Code"); (".html", "Code"); (".css", "Code"); (".json", "Code");
    (".xml", "Code"); (".md", "Code") ].

(** [DefaultCategoryMappings()] (lines 41-108). *)
Definition DefaultCategoryMappings : gmap string string :=
  list_to_map default_entries.

(** ** OrganizeFiles, phase 1: the scan (lines 194-252) *)

(** The variables the walk callback closes over: the named results
    [totalScanned], [totalSkipped], [scanErr] and the slice [filesToMove]. *)
Record ScanState := mkScanState
  { totalScanned : nat;
    totalSkipped : nat;
    scanErr : option error;
    filesToMove : list FileMove }.

Definition scan_start : ScanState := mkScanState 0 0 None [].

(** Lines 217-220: [category, ok := cfg.CategoryMappings[ext]];
    [if !ok { category = "Others" }]. *)
Definition category (mappings : gmap string string) (ext : string) : string :=
  match mappings !! ext with
  | Some c => c
  | None => "Others"
  end.

(** The callback passed to [filepath.WalkDir] (lines 198-239).  [WalkDir]
    hands over a nil [d] only together with an error, so the case of a nil
    [d] without error does not arise; it leaves the state as it is. *)
Definition scanFn (cfg : Config) : @WalkDirFunc ScanState :=
  fun path d err s =>
    let s := mkScanState (S (totalScanned s)) (totalSkipped s)
                         (scanErr s) (filesToMove s) in
    match err with
    | Some e =>
        (None,
         mkScanState (totalScanned s) (totalSkipped s)
           (Some (Errorf "encountered error during scan" e)) (filesToMove s))
    | None =>
        match d with
        | None => (None, s)
        | Some d =>
            if IsDir d then
              if negb (Recursive cfg) && negb (String.eqb path (SourceDir cfg))
              then (Some SkipDir, s)
              else (None, s)
            else
              let ext := strings.ToLower (filepath.Ext path) in
              let fileName := filepath.Base path in
              let category := category (CategoryMappings cfg) ext in
              if strings.HasPrefix path (DestDir cfg) then
                (None,
                 mkScanState (totalScanned s) (S (totalSkipped s))
                   (scanErr s) (filesToMove s))
              else
                let targetCategoryDir := filepath.Join [DestDir cfg; category] in
                let targetFilePath := filepath.Join [targetCategoryDir; fileName] in
                (None,
                 mkScanState (totalScanned s) (totalSkipped s) (scanErr s)
                   (filesToMove s
                    ++ [mkFileMove path targetFilePath (DryRun cfg)]))
        end
    end.

(** Lines 198-239: the walk over [cfg.SourceDir]; [lstat] is what
    [os.Lstat(cfg.SourceDir)] reports. *)
Definition scan (cfg : Config) (lstat : error + Node) : option error * ScanState :=
  WalkDir (scanFn cfg) (SourceDir cfg) lstat scan_start.

(** What [OrganizeFiles] hands back: its four results and the planned moves
    it dispatched to the worker pool before returning (none when it returns
    before phase 2). *)
Record Outcome := mkOutcome
  { ret_totalScanned : nat;
    ret_totalToProcess : nat;
    ret_totalSkipped : nat;
    ret_scanErr : option error;
    dispatched : list FileMove }.

(** [OrganizeFiles] (lines 179-283), up to the run of the pool, which is
    modelled below.  The three [return] statements are those of lines 242,
    251 and 282. *)
Definition OrganizeFiles (cfg : Config) (lstat : error + Node) : Outcome :=
  let '(err, s) := scan cfg lstat in
  match err with
  | Some e =>
      mkOutcome (totalScanned s) 0 (totalSkipped s)
        (Some (Errorf ("error walking source directory '" +:+ SourceDir cfg +:+ "'") e))
        []
  | None =>
      let totalToProcess := length (filesToMove s) in
      if (totalToProcess =? 0)%nat then
        mkOutcome (totalScanned s) totalToProcess (totalSkipped s) None []
      else
        mkOutcome (totalScanned s) totalToProcess (totalSkipped s) None
          (filesToMove s)
  end.

(** ** moveFile: a program over the calls it makes (lines 112-175) *)

(** The lines [moveFile] prints, by the line of the source that prints
    them, with their arguments (colours left out). *)
Inductive Line :=
| RecoveredFromPanic                                (* line 116 *)
| WouldCreateDirectory (destDir : string)           (* line 131 *)
| CreatedDirectory (destDir : string)               (* line 138 *)
| CollisionRenaming (oldBase newBase : string)      (* line 150 *)
| WouldMove (sourcePath finalDestPath : string)     (* line 159 *)
| MovedLine (sourcePath finalDestPath : string).    (* line 169 *)

(** The calls that reach outside the function: the operating system, the
    clock, standard output and the progress channel. *)
Inductive Call :=
| Stat (name : string)                  (* os.Stat(name), the FileInfo dropped *)
| MkdirAll (path : string) (perm : N)   (* os.MkdirAll(path, perm) *)
| Rename (oldpath newpath : string)     (* os.Rename(oldpath, newpath) *)
| Now                                   (* time.Now() *)
| Printf (l : Line)                     (* fmt.Printf(...) *)
| Send (u : ProgressUpdate).            (* progressChan <- u *)

(** A call into the operating system or the clock returns, or it panics
    (a run-time fault inside the call); that is the fault the deferred
    [recover] of [moveFile] is there to trap. *)
Inductive Reply (A : Type) :=
| Returns (a : A)
| Panics.
Arguments Returns {A} a.
Arguments Panics {A}.

Definition Answer (c : Call) : Type :=
  match c with
  | Stat _ | MkdirAll _ _ | Rename _ _ => Reply (option error)
  | Now => Reply time.Time
  | Printf _ | Send _ => unit
  end.

(** A function body as the tree of its calls: it returns, it panics, or it
    makes a call and goes on with the answer. *)
Inductive Prog (A : Type) :=
| Ret (a : A)
| Panic
| Vis (c : Call) (k : Answer c -> Prog A).
Arguments Ret {A} a.
Arguments Panic {A}.
Arguments Vis {A} c k.

Fixpoint bind {A B : Type} (p : Prog A) (f : A -> Prog B) : Prog B :=
  match p with
  | Ret a => f a
  | Panic => Panic
  | Vis c k => Vis c (fun r => bind (k r) f)
  end.

Global Instance Prog_ret : MRet Prog := @Ret.
Global Instance Prog_bind : MBind Prog := fun A B f p => bind p f.

Definition unwrap {A : Type} (r : Reply A) : Prog A :=
  match r with
  | Returns a => Ret a
  | Panics => Panic
  end.

Definition os_Stat (name : string) : Prog (option error) :=
  Vis (Stat name) unwrap.
Definition os_MkdirAll (path : string) (perm : N) : Prog (option error) :=
  Vis (MkdirAll path perm) unwrap.
Definition os_Rename (oldpath newpath : string) : Prog (option error) :=
  Vis (Rename oldpath newpath) unwrap.
Definition time_Now : Prog time.Time := Vis Now unwrap.
Definition fmt_Printf (l : Line) : Prog unit := Vis (Printf l) Ret.
Definition send (u : ProgressUpdate) : Prog unit := Vis (Send u) Ret.

(** [defer func() { if r := recover(); r != nil { handler } }()]: a panic of
    the body runs the handler, after which the function returns normally;
    a normal return of the body is left alone. *)
Fixpoint defer_recover {A : Type} (handler : Prog A) (body : Prog A) : Prog A :=
  match body with
  | Ret a => Ret a
  | Panic => handler
  | Vis c k => Vis c (fun r => defer_recover handler (k r))
  end.

(** How a block of the body ends: it falls through to the next block with a
    value, or it executes [return err]. *)
Inductive Flow (A : Type) :=
| Next (a : A)
| Return (err : option error).
Arguments Next {A} a.
Arguments Return {A} err.

(** Lines 128-140: make sure the destination directory exists. *)
Definition ensureDestDir (fm : FileMove) (destDir : string) : Prog (Flow unit) :=
  err ← os_Stat destDir;
  if os.IsNotExist err then
    if FileMove_DryRun fm then
      fmt_Printf (WouldCreateDirectory destDir);;
      mret (Next tt)
    else
      err ← os_MkdirAll destDir 493 (* 0755 *);
      match err with
      | Some e =>
          send errored1;;
          mret (Return (Some (Errorf ("failed to create destination directory '"
                                       +:+ destDir +:+ "'") e)))
      | None =>
          fmt_Printf (CreatedDirectory destDir);;
          mret (Next tt)
      end
  else mret (Next tt).

(** Lines 146-149: the name used when the target exists already. *)
Definition timestamped (destPath destDir : string) (now : time.Time) : string :=
  let ext := filepath.Ext destPath in
  let name := strings.TrimSuffix (filepath.Base destPath) ext in
  let timestamp := time.Format_20060102_150405 now in
  filepath.Join [destDir; name +:+ "_" +:+ timestamp +:+ ext].

(** Lines 142-155: collision resolution; yields [finalDestPath]. *)
Definition resolveCollision (fm : FileMove) (destDir : string) : Prog (Flow string) :=
  let finalDestPath := DestPath fm in
  err ← os_Stat finalDestPath;
  match err with
  | None =>
      now ← time_Now;
      let finalDestPath := timestamped (DestPath fm) destDir now in
      fmt_Printf (CollisionRenaming (filepath.Base (DestPath fm))
                                    (filepath.Base finalDestPath));;
      mret (Next finalDestPath)
  | Some e =>
      if negb (os.IsNotExist err) then
        send errored1;;
        mret (Return (Some (Errorf ("error checking existence of '"
                                     +:+ finalDestPath +:+ "'") e)))
      else mret (Next finalDestPath)
  end.

(** Lines 157-174: the move itself, or its simulation. *)
Definition performMove (fm : FileMove) (quiet : bool) (finalDestPath : string)
  : Prog (option error) :=
  if FileMove_DryRun fm then
    (if negb quiet then fmt_Printf (WouldMove (SourcePath fm) finalDestPath)
     else mret tt);;
    send moved1;;
    mret None
  else
    err ← os_Rename (SourcePath fm) finalDestPath;
    match err with
    | Some e =>
        send errored1;;
        mret (Some (Errorf ("failed to move '" +:+ SourcePath fm +:+ "' to '"
                             +:+ finalDestPath +:+ "'") e))
    | None =>
        (if negb quiet then fmt_Printf (MovedLine (SourcePath fm) finalDestPath)
         else mret tt);;
        send moved1;;
        mret None
    end.

(** The body of [moveFile], lines 121-174. *)
Definition moveFile_body (fm : FileMove) (quiet : bool) : Prog (option error) :=
  let destDir := filepath.Dir (DestPath fm) in
  f ← ensureDestDir fm destDir;
  match f with
  | Return err => mret err
  | Next _ =>
      f ← resolveCollision fm destDir;
      match f with
      | Return err => mret err
      | Next finalDestPath => performMove fm quiet finalDestPath
      end
  end.

(** The deferred function of lines 113-119: on a panic it prints, sends
    [ProgressUpdate{Errored: 1}], and [moveFile] returns its zero result. *)
Definition recovered : Prog (option error) :=
  fmt_Printf RecoveredFromPanic;;
  send errored1;;
  mret None.

(** [moveFile(fm, progressChan, quiet)] (lines 112-175). *)
Definition moveFile (fm : FileMove) (quiet : bool) : Prog (option error) :=
  defer_recover recovered (moveFile_body fm quiet).

(** ** The runs of a program *)

(** The updates sent on the progress channel by a sequence of calls, and
    the calls that change the file system. *)
Definition sent (calls : list Call) : list ProgressUpdate :=
  flat_map (fun c => match c with Send u => [u] | _ => [] end) calls.

Definition mutates (c : Call) : bool :=
  match c with
  | MkdirAll _ _ | Rename _ _ => true
  | _ => false
  end.

Definition mutations (calls : list Call) : list Call :=
  List.filter mutates calls.

(** [runs p calls res]: [p] can make exactly the calls [calls], in this
    order, and end with [res], for some answers of its environment.  Every
    answer is allowed at every call, so the runs cover every behaviour of
    the file system, also one that other workers change in between. *)
Fixpoint runs {A : Type} (p : Prog A) (calls : list Call) (res : Reply A) : Prop :=
  match p with
  | Ret a => calls = [] /\ res = Returns a
  | Panic => calls = [] /\ res = Panics
  | Vis c k => exists (r : Answer c) (calls' : list Call),
      calls = c :: calls' /\ runs (k r) calls' res
  end.

(** An operating system as a deterministic machine: a state and the effect
    and answer of each system call on it.  [os.Stat] and [time.Now] only
    observe the state. *)
Record OS := mkOS
  { World : Type;
    sys_stat : World -> string -> Reply (option error);
    sys_mkdirall : World -> string -> N -> Reply (option error) * World;
    sys_rename : World -> string -> string -> Reply (option error) * World;
    sys_now : World -> Reply time.Time }.

Definition answer (sys : OS) (c : Call) (w : World sys) : Answer c * World sys :=
  match c return Answer c * World sys with
  | Stat name => (sys_stat sys w name, w)
  | MkdirAll path perm => sys_mkdirall sys w path perm
  | Rename oldpath newpath => sys_rename sys w oldpath newpath
  | Now => (sys_now sys w, w)
  | Printf _ => (tt, w)
  | Send _ => (tt, w)
  end.

(** The run of [p] on the system [sys] from the state [w]: the result, the
    final state and the calls made. *)
Fixpoint exec (sys : OS) {A : Type} (p : Prog A) (w : World sys)
  : Reply A * World sys * list Call :=
  match p with
  | Ret a => (Returns a, w, [])
  | Panic => (Panics, w, [])
  | Vis c k =>
      let '(r, w1) := answer sys c w in
      let '(res, w2, calls) := exec sys (k r) w1 in
      (res, w2, c :: calls)
  end.

(** ** OrganizeFiles, phase 2: the worker pool (lines 256-279) *)

(** Lines 190-192: [if cfg.Workers <= 0 { cfg.Workers = 1 }]. *)
Definition workerCount (cfg : Config) : nat :=
  Z.to_nat (if (Workers cfg <=? 0)%Z then 1%Z else Workers cfg).

(** A worker goroutine (lines 263-269): it waits at [range workQueue], runs
    [moveFile] on what it received, or has left the loop ([wg.Done]). *)
Inductive Worker :=
| Receiving
| Running (p : Prog (option error))
| Exited.

(** The state of phase 2: the part of [filesToMove] the dispatch loop has
    not sent yet, the buffer of [workQueue] and whether it is closed, the
    workers, and everything sent on [progressChan] so far, in order. *)
Record Pool := mkPool
  { todo : list FileMove;
    workQueue : list FileMove;
    closed : bool;
    workers : list Worker;
    progressChan : list ProgressUpdate }.

(** Line 257 and lines 261-270: [make(chan FileMove, cfg.Workers*2)] and
    [cfg.Workers] goroutines. *)
Definition capacity (cfg : Config) : nat := workerCount cfg * 2.

Definition pool_start (cfg : Config) (plan : list FileMove) : Pool :=
  mkPool plan [] false (repeat Receiving (workerCount cfg)) [].

(** One step of one goroutine, under any scheduling and any answers of the
    operating system.  A send on [progressChan] is never refused: the
    collector of main.go drains the channel until it is closed, which
    happens after [OrganizeFiles] has returned. *)
Inductive step (cfg : Config) : Pool -> Pool -> Prop :=
| step_dispatch fm rest q ws out :            (* line 274: workQueue <- fm *)
    length q < capacity cfg ->
    step cfg (mkPool (fm :: rest) q false ws out)
             (mkPool rest (q ++ [fm]) false ws out)
| step_close q ws out :                       (* line 276: close(workQueue) *)
    step cfg (mkPool [] q false ws out) (mkPool [] q true ws out)
| step_receive i fm rest q cl ws out :        (* line 265: fm := <-workQueue *)
    ws !! i = Some Receiving ->
    step cfg (mkPool rest (fm :: q) cl ws out)
             (mkPool rest q cl (<[i := Running (moveFile fm (Quiet cfg))]> ws) out)
| step_call i c k r rest q cl ws out :        (* a call made by moveFile *)
    ws !! i = Some (Running (Vis c k)) ->
    step cfg (mkPool rest q cl ws out)
             (mkPool rest q cl (<[i := Running (k r)]> ws) (out ++ sent [c]))
| step_return i err rest q cl ws out :        (* line 267: moveFile returns *)
    ws !! i = Some (Running (Ret err)) ->
    step cfg (mkPool rest q cl ws out)
             (mkPool rest q cl (<[i := Receiving]> ws) out)
| step_exit i rest ws out :                   (* the range loop ends *)
    ws !! i = Some Receiving ->
    step cfg (mkPool rest [] true ws out)
             (mkPool rest [] true (<[i := Exited]> ws) out).

(** Line 279: [wg.Wait()] returns when every worker has left its loop. *)
Definition finished (s : Pool) : Prop := Forall (fun w => w = Exited) (workers s).

(** main.go, the collector goroutine:
    [for update := range progressChan { totalProcessed += update.Moved;
    totalErrors += update.Errored; ... }]. *)
Definition collect (updates : list ProgressUpdate) : nat * nat :=
  fold_left (fun '(totalProcessed, totalErrors) update =>
               (totalProcessed + Moved update, totalErrors + Errored update))
            updates (0, 0).

(** ** Bookkeeping of a walk *)

(** One call of the callback: the path, the entry and the error it was
    handed. *)
Record Visit := mkVisit
  { visit_path : string;
    visit_entry : option DirEntry;
    visit_err : option error }.

(** A callback that also writes down each call it receives. *)
Definition logged {S : Type} (fn : @WalkDirFunc S) : @WalkDirFunc (S * list Visit) :=
  fun path d err '(s, log) =>
    let '(r, s') := fn path d err s in
    (r, (s', log ++ [mkVisit path d err])).

(** The calls the walk of the scan makes, in order. *)
Definition visits (cfg : Config) (lstat : error + Node) : list Visit :=
  snd (snd (WalkDir (logged (scanFn cfg)) (SourceDir cfg) lstat (scan_start, []))).

Definition is_directory_visit (v : Visit) : bool :=
  match visit_err v, visit_entry v with
  | None, Some d => IsDir d
  | _, _ => false
  end.

Definition is_file_visit (v : Visit) : bool :=
  match visit_err v, visit_entry v with
  | None, Some d => negb (IsDir d)
  | _, _ => false
  end.

Definition is_error_visit (v : Visit) : bool :=
  match visit_err v with
  | Some _ => true
  | None => false
  end.

(** The directories visited and the entries that produced a traversal
    error: the calls with a directory and no error, and the calls with an
    error. *)
Definition directoriesVisited (cfg : Config) (lstat : error + Node) : nat :=
  length (List.filter is_directory_visit (visits cfg lstat)).

Definition erroredEntries (cfg : Config) (lstat : error + Node) : nat :=
  length (List.filter is_error_visit (visits cfg lstat)).

(** The paths of the files the walk visits. *)
Definition filesVisited (cfg : Config) (lstat : error + Node) : list string :=
  map visit_path (List.filter is_file_visit (visits cfg lstat)).

(** The paths of all entries below [path] that are not directories, in the
    order of a full walk, and those directly in the directory [path]. *)
Fixpoint files_of (path : string) (n : Node) : list string :=
  match n with
  | File => [path]
  | Directory entries _ =>
      flat_map (fun e => files_of (filepath.Join [path; fst e]) (snd e)) entries
  end.

Definition top_files (path : string) (n : Node) : list string :=
  match n with
  | File => [path]
  | Directory entries _ =>
      flat_map (fun e => match snd e with
                         | File => [filepath.Join [path; fst e]]
                         | Directory _ _ => []
                         end) entries
  end.

(** A name as [os.ReadDir] returns it: not empty, no separator in it, and
    neither "." nor "..". *)
Fixpoint has_separator (s : string) : bool :=
  match s with
  | EmptyString => false
  | String c rest => filepath.IsPathSeparator c || has_separator rest
  end.

Definition entry_name (name : string) : bool :=
  negb (String.eqb name "") && negb (has_separator name)
  && negb (String.eqb name ".") && negb (String.eqb name "..").

Fixpoint entry_names (n : Node) : bool :=
  match n with
  | File => true
  | Directory entries _ =>
      forallb (fun e => entry_name (fst e) && entry_names (snd e)) entries
  end.

(** The planned source paths of a scan. *)
Definition planned (cfg : Config) (lstat : error + Node) : list string :=
  map SourcePath (filesToMove (snd (scan cfg lstat))).

(** A path lies in the tree of the directory [root]: it is [root] followed
    by a separator and more. *)
Definition inside (root path : string) : bool :=
  strings.HasPrefix path (root +:+ "/").

(** ** Example inputs *)

(** The source tree of the specification's example: [a.txt] and
    [sub/b.txt]. *)
Definition example_tree : Node :=
  Directory [("a.txt", File); ("sub", Directory [("b.txt", File)] None)] None.

Definition example_cfg (recursive : bool) : Config :=
  mkConfig "/source" "/dest" false recursive 2 DefaultCategoryMappings false.

(** [/data] with the destination [/data/org] in it, holding one organized
    file, and next to it [/data/organized-old] with one file. *)
Definition sibling_tree : Node :=
  Directory
    [ ("org", Directory [("Images", Directory [("a.jpg", File)] None)] None);
      ("organized-old", Directory [("x.txt", File)] None) ]
    None.

Definition sibling_cfg : Config :=
  mkConfig "/data" "/data/org" false true 5 DefaultCategoryMappings false.

(** [/src] with two directories that cannot be read and one file. *)
Definition denied_a : error := PathError "open" "/src/a" EACCES.
Definition denied_b : error := PathError "open" "/src/b" EIO.

Definition unreadable_tree : Node :=
  Directory
    [ ("a", Directory [] (Some denied_a));
      ("b", Directory [] (Some denied_b));
      ("c.txt", File) ]
    None.

Definition unreadable_cfg : Config :=
  mkConfig "/src" "/out" false true 5 DefaultCategoryMappings false.

(** ** A file system to run the examples on *)

(** A small file system for the worked examples: what lies at each path, the
    clock, and the paths on which every system call fails with [EACCES]. *)
Inductive Inode :=
| Dir
| Regular (content : string).

Record Disk := mkDisk
  { inodes : gmap string Inode;
    clock : time.Time;
    denied : list string }.

Definition is_denied (d : Disk) (path : string) : bool :=
  existsb (String.eqb path) (denied d).

Definition disk_stat (d : Disk) (name : string) : Reply (option error) :=
  if is_denied d name then Returns (Some (PathError "stat" name EACCES))
  else match inodes d !! name with
       | Some _ => Returns None
       | None => Returns (Some (PathError "stat" name ENOENT))
       end.

(** The directory [path] and its missing ancestors. *)
Fixpoint make_dirs (fuel : nat) (path : string) (m : gmap string Inode)
  : gmap string Inode :=
  match fuel with
  | 0 => m
  | S fuel' =>
      match m !! path with
      | Some _ => m
      | None => <[path := Dir]> (make_dirs fuel' (filepath.Dir path) m)
      end
  end.

Definition disk_mkdirall (d : Disk) (path : string) (perm : N)
  : Reply (option error) * Disk :=
  if is_denied d path then (Returns (Some (PathError "mkdir" path EACCES)), d)
  else (Returns None,
        mkDisk (make_dirs (S (String.length path)) path (inodes d))
               (clock d) (denied d)).

Definition disk_rename (d : Disk) (oldpath newpath : string)
  : Reply (option error) * Disk :=
  if is_denied d oldpath || is_denied d newpath
  then (Returns (Some (PathError "rename" oldpath EACCES)), d)
  else match inodes d !! oldpath with
       | None => (Returns (Some (PathError "rename" oldpath ENOENT)), d)
       | Some x =>
           (Returns None,
            mkDisk (<[newpath := x]> (delete oldpath (inodes d)))
                   (clock d) (denied d))
       end.

Definition disk : OS :=
  mkOS Disk disk_stat disk_mkdirall disk_rename (fun d => Returns (clock d)).

(** The example of the specification: [report.pdf] is moved into
    [Documents], where a [report.pdf] lies already. *)
Definition report_disk : Disk :=
  mkDisk (list_to_map
            [ ("/dest", Dir); ("/dest/Documents", Dir);
              ("/dest/Documents/report.pdf", Regular "the old report");
              ("/in", Dir);
              ("/in/report.pdf", Regular "the new report") ])
         (time.mkTime 2024 3 9 7 5 59) [].

Definition report_move (dryRun : bool) : FileMove :=
  mkFileMove "/in/report.pdf" "/dest/Documents/report.pdf" dryRun.

(** ** cmd/organizer/main.go: the configuration handed to OrganizeFiles *)

(** [filepath.IsAbs] and [filepath.Abs] on Unix:
<<
  if IsAbs(path) { return Clean(path), nil }
  wd, err := os.Getwd()
  if err != nil { return "", err }
  return Join(wd, path), nil
>>
    [getwd] is the result of [os.Getwd()]. *)
Definition IsAbs (path : string) : bool := strings.HasPrefix path "/".

Definition Abs (getwd : error + string) (path : string) : error + string :=
  if IsAbs path then inr (filepath.Clean path)
  else
    match getwd with
    | inl err => inl err
    | inr wd => inr (filepath.Join [wd; path])
    end.

Module main.

(** The command-line flags of [main] after [flag.Parse()]. *)
Record Flags := mkFlags
  { sourceDir : string;
    destDir : string;
    dryRun : bool;
    recursive : bool;
    workers : Z;
    configPath : string;
    quiet : bool }.

(** What [loadCustomMappings] gets from the file: [os.ReadFile] fails,
    [json.Unmarshal] fails, or the file holds a JSON object, decoded into
    the map [mappings]. *)
Inductive ConfigFile :=
| Unreadable (err : error)
| Malformed (err : error)
| Decoded (mappings : gmap string string).

(** The key written by the normalisation loop of [loadCustomMappings]:
    [if !strings.HasPrefix(ext, ".") { ext = "." + ext }], then
    [strings.ToLower(ext)]. *)
Definition normalizedKey (ext : string) : string :=
  let ext := if negb (strings.HasPrefix ext ".") then "." +:+ ext else ext in
  strings.ToLower ext.

(** The loop [for ext, category := range mappings] of [loadCustomMappings],
    over the entries in the order [visited] in which the loop meets them. *)
Definition normalizedMappings (visited : list (string * string))
  : gmap string string :=
  fold_left (fun normalized '(ext, category) =>
               <[normalizedKey ext := category]> normalized)
            visited ∅.

(** The loop [for ext, category := range customMappings] of [main], which
    writes into the default mappings. *)
Definition mergedMappings (categoryMappings : gmap string string)
    (visited : list (string * string)) : gmap string string :=
  fold_left (fun merged '(ext, category) => <[ext := category]> merged)
            visited categoryMappings.

(** The ways [main] leaves with [os.Exit(1)] before it calls
    [OrganizeFiles]. *)
Inductive Exit :=
| SourceRequired
| DestRequired
| SourceAbsError (err : error)
| DestAbsError (err : error)
| MappingsError (err : error).

Section Range.

(** The order in which a [range] loop visits the entries of a map.  Go does
    not fix it; every entry is visited once. *)
Variable range : gmap string string -> list (string * string).

(** [loadCustomMappings(filePath)]. *)
Definition loadCustomMappings (filePath : string) (file : ConfigFile)
  : error + gmap string string :=
  match file with
  | Unreadable err =>
      inl (Errorf ("failed to read config file '" +:+ filePath +:+ "'") err)
  | Malformed err =>
      inl (Errorf ("failed to parse JSON config file '" +:+ filePath +:+ "'") err)
  | Decoded mappings => inr (normalizedMappings (range mappings))
  end.

(** [main] up to the [Config] it builds: the validation of the flags, the
    absolute paths, the mappings.  [getwd] is what [os.Getwd()] reports
    (inside [filepath.Abs]), [file] what is found at [configPath]. *)
Definition config (flags : Flags) (getwd : error + string) (file : ConfigFile)
  : Exit + Config :=
  if String.eqb (sourceDir flags) "" then inl SourceRequired
  else if String.eqb (destDir flags) "" then inl DestRequired
  else
    match Abs getwd (sourceDir flags) with
    | inl err => inl (SourceAbsError err)
    | inr absSourceDir =>
        match Abs getwd (destDir flags) with
        | inl err => inl (DestAbsError err)
        | inr absDestDir =>
            let categoryMappings := DefaultCategoryMappings in
            let loaded :=
              if negb (String.eqb (configPath flags) "") then
                match loadCustomMappings (configPath flags) file with
                | inl err => inl (MappingsError err)
                | inr customMappings =>
                    inr (mergedMappings categoryMappings (range customMappings))
                end
              else inr categoryMappings in
            match loaded with
            | inl exit => inl exit
            | inr categoryMappings =>
                inr (mkConfig absSourceDir absDestDir (dryRun flags)
                       (recursive flags) (workers flags) categoryMappings
                       (quiet flags))
            end
        end
    end.

End Range.

End main.

(** A command line and a configuration file: a relative source, a
    destination with a trailing separator, two custom mappings. *)
Definition example_flags : main.Flags :=
  main.mkFlags "downloads" "/home/u/sorted/" true false 5 "mappings.json" false.

Definition example_file : main.ConfigFile :=
  main.Decoded {[ "JPG" := "Pictures"; ".log" := "Logs" ]}.

Definition example_config : Config :=
  match main.config map_to_list example_flags (inr "/home/u") example_file with
  | inr cfg => cfg
  | inl _ => example_cfg false
  end.

(** The two lines of [moveFile] that the [quiet] flag guards (lines 158-160
    and 168-170). *)
Definition per_file_line (c : Call) : bool :=
  match c with
  | Printf (WouldMove _ _) | Printf (MovedLine _ _) => true
  | _ => false
  end.

(** ** The earlier versions of the package (package [oragnizer]) *)


(** The two sentinels of [io/fs]; no call into the operating system
    returns them. *)
Definition is_sentinel (err : error) : bool :=
  match err with
  | SkipDir | SkipAll => true
  | _ => false
  end.

(** A tree, or a failed [os.Lstat], whose errors come from the operating
    system. *)
Fixpoint os_errors (n : Node) : bool :=
  match n with
  | File => true
  | Directory entries readErr =>
      match readErr with
      | Some err => negb (is_sentinel err)
      | None => true
      end
      && forallb (fun e => os_errors (snd e)) entries
  end.

Definition os_lstat (lstat : error + Node) : bool :=
  match lstat with
  | inl err => negb (is_sentinel err)
  | inr n => os_errors n
  end.

Module oragnizer.

(** [Config] of the first version: no mappings, no quiet flag. *)
Record Config := mkConfig
  { SourceDir : string;
    DestDir : string;
    DryRun : bool;
    Recursive : bool;
    Workers : Z }.

(** The package variable [defaultCategoryMapping]: the entries of
    [DefaultCategoryMappings] of the later version. *)
Definition defaultCategoryMapping : gmap string string :=
  list_to_map default_entries.

(** The lines the scan-only [OrganizeFiles] prints. *)
Inductive Output :=
| Starting (sourceDir destDir : string)
| DryRunMode
| ErrorAccessing (path : string) (err : error)
| FileCategory (fileName category : string)
| ProposedMove (path targetFilePath : string)
| Scanned (fileCount : nat)
| Completed.

(** What the callback of the scan-only version closes over: [fileCount],
    and standard output. *)
Record ScanState := mkScanState
  { fileCount : nat;
    stdout : list Output }.

(** The callback of the scan-only [OrganizeFiles]; unlike the later one it
    returns the error it is handed. *)
Definition scanFn (cfg : Config) : @WalkDirFunc ScanState :=
  fun path d err s =>
    match err with
    | Some e =>
        (Some e, mkScanState (fileCount s) (stdout s ++ [ErrorAccessing path e]))
    | None =>
        match d with
        | None => (None, s)
        | Some d =>
            if IsDir d then
              if negb (Recursive cfg) && negb (String.eqb path (SourceDir cfg))
              then (Some SkipDir, s)
              else (None, s)
            else
              let fileCount := S (fileCount s) in
              let ext := strings.ToLower (filepath.Ext path) in
              let fileName := filepath.Base path in
              let category :=
                match defaultCategoryMapping !! ext with
                | Some category => category
                | None => "Others"
                end in
              let targetCategoryDir := filepath.Join [DestDir cfg; category] in
              let targetFilePath := filepath.Join [targetCategoryDir; fileName] in
              (None,
               mkScanState fileCount
                 (stdout s ++ [FileCategory fileName category;
                               ProposedMove path targetFilePath]))
        end
    end.

(** The scan-only [OrganizeFiles(cfg)]: its result and what it printed. *)
Definition OrganizeFiles (cfg : Config) (lstat : error + Node)
  : option error * list Output :=
  let start :=
    mkScanState 0
      (Starting (SourceDir cfg) (DestDir cfg)
       :: (if DryRun cfg then [DryRunMode] else [])) in
  let '(err, s) := WalkDir (scanFn cfg) (SourceDir cfg) lstat start in
  match err with
  | Some e =>
      (Some (Errorf ("error walking directory '" +:+ SourceDir cfg +:+ "'") e),
       stdout s)
  | None => (None, stdout s ++ [Scanned (fileCount s); Completed])
  end.

(** [moveFile(fm)] of the first version with a worker pool: no progress
    channel, no [recover], no quiet flag.  It is cut into the same blocks
    as the later version; the lines it prints are named as there. *)
Definition ensureDestDir (fm : FileMove) (destDir : string) : Prog (Flow unit) :=
  err ← os_Stat destDir;
  if os.IsNotExist err then
    if FileMove_DryRun fm then
      fmt_Printf (WouldCreateDirectory destDir);;
      mret (Next tt)
    else
      err ← os_MkdirAll destDir 493 (* 0755 *);
      match err with
      | Some e =>
          mret (Return (Some (Errorf ("failed to create destination directory '"
                                       +:+ destDir +:+ "'") e)))
      | None =>
          fmt_Printf (CreatedDirectory destDir);;
          mret (Next tt)
      end
  else mret (Next tt).

Definition resolveCollision (fm : FileMove) (destDir : string) : Prog (Flow string) :=
  let finalDestPath := DestPath fm in
  err ← os_Stat finalDestPath;
  match err with
  | None =>
      now ← time_Now;
      let finalDestPath := timestamped (DestPath fm) destDir now in
      fmt_Printf (CollisionRenaming (filepath.Base (DestPath fm))
                                    (filepath.Base finalDestPath));;
      mret (Next finalDestPath)
  | Some e =>
      if negb (os.IsNotExist err) then
        mret (Return (Some (Errorf ("error checking existance of '"
                                     +:+ finalDestPath +:+ "'") e)))
      else mret (Next finalDestPath)
  end.

Definition performMove (fm : FileMove) (finalDestPath : string)
  : Prog (option error) :=
  if FileMove_DryRun fm then
    fmt_Printf (WouldMove (SourcePath fm) finalDestPath);;
    mret None
  else
    err ← os_Rename (SourcePath fm) finalDestPath;
    match err with
    | Some e =>
        mret (Some (Errorf ("failed to move '" +:+ SourcePath fm +:+ "' to '"
                             +:+ finalDestPath +:+ "'") e))
    | None =>
        fmt_Printf (MovedLine (SourcePath fm) finalDestPath);;
        mret None
    end.

Definition moveFile (fm : FileMove) : Prog (option error) :=
  let destDir := filepath.Dir (DestPath fm) in
  f ← ensureDestDir fm destDir;
  match f with
  | Return err => mret err
  | Next _ =>
      f ← resolveCollision fm destDir;
      match f with
      | Return err => mret err
      | Next finalDestPath => performMove fm finalDestPath
      end
  end.

End oragnizer.

(** The calls the later [moveFile] adds to report its outcome: the sends on
    the progress channel and the line of the trapped panic. *)
Definition reporting (c : Call) : bool :=
  match c with
  | Send _ | Printf RecoveredFromPanic => true
  | _ => false
  end.

(** The names of the entries of every directory differ, as in a file
    system. *)
Fixpoint distinct_names (n : Node) : bool :=
  match n with
  | File => true
  | Directory entries _ =>
      bool_decide (NoDup (map fst entries))
      && forallb (fun e => distinct_names (snd e)) entries
  end.

(** * Properties *)

(** ** The library functions and the scan on examples *)

Example Clean_examples :
  map filepath.Clean ["a//b/./c/.."; "/../a"; "../../a/.."; ""; "/"; "a/.."; "/a/b/"]
  = ["a/b"; "/a"; "../.."; "."; "/"; "."; "/a/b"].
Proof. reflexivity. Qed.

Example Join_examples :
  map filepath.Join [["/dest"; "Images"]; [""; "a.txt"]; ["/"; "x"]; ["."; "sub"]; ["a/"; "/b"]]
  = ["/dest/Images"; "a.txt"; "/x"; "sub"; "a/b"].
Proof. reflexivity. Qed.

Example Ext_examples :
  map filepath.Ext ["a.TXT"; "/x.d/readme"; "archive.tar.gz"; ".bashrc"; "dir/"; "a."]
  = [".TXT"; ""; ".gz"; ".bashrc"; ""; "."].
Proof. reflexivity. Qed.

Example Base_examples :
  map filepath.Base ["/a/b.txt"; "b.txt"; "/a/b/"; ""; "///"; "/"]
  = ["b.txt"; "b.txt"; "b"; "."; "/"; "/"].
Proof. reflexivity. Qed.

Example Dir_examples :
  map filepath.Dir ["/a/b.txt"; "b.txt"; "/a/b/"; ""; "/"; "/a"; "a/b/../c/x"]
  = ["/a"; "."; "/a/b"; "."; "/"; "/"; "a/c"].
Proof. reflexivity. Qed.

Example strings_examples :
  strings.ToLower ".JpEG" = ".jpeg"
  /\ strings.HasPrefix "/data/organized-old/x" "/data/org" = true
  /\ strings.HasPrefix "/data" "/data/org" = false
  /\ strings.TrimSuffix "report.pdf" ".pdf" = "report"
  /\ strings.TrimSuffix "report" "" = "report"
  /\ strings.TrimSuffix "a.b.b" ".b" = "a.b".
Proof. repeat split; reflexivity. Qed.

Example Format_example :
  time.Format_20060102_150405 (time.mkTime 2024 3 9 7 5 59) = "20240309_070559".
Proof. reflexivity. Qed.

Example scan_example_nonrecursive :
  scan (example_cfg false) (inr example_tree)
  = (None, mkScanState 3 0 None
             [mkFileMove "/source/a.txt" "/dest/Documents/a.txt" false]).
Proof. vm_compute. reflexivity. Qed.

Example scan_example_recursive :
  scan (example_cfg true) (inr example_tree)
  = (None, mkScanState 4 0 None
             [mkFileMove "/source/a.txt" "/dest/Documents/a.txt" false;
              mkFileMove "/source/sub/b.txt" "/dest/Documents/b.txt" false]).
Proof. vm_compute. reflexivity. Qed.


(** ** Strings *)

Lemma HasPrefix_spec (s prefix : string) :
  strings.HasPrefix s prefix = true <-> exists rest, s = prefix +:+ rest.
Proof.
  revert s. induction prefix as [|p prefix IH]; intros s; simpl.
  - split; [intros _; exists s; reflexivity | reflexivity].
  - destruct s as [|c s]; simpl.
    + split; [discriminate | intros [rest H]; discriminate].
    + rewrite andb_true_iff, Ascii.eqb_eq, IH. split.
      * intros [-> [rest ->]]. exists rest. reflexivity.
      * intros [rest H]. injection H as -> ->. split; [reflexivity | eauto].
Qed.

Lemma lower_byte_idemp (c : ascii) :
  strings.lower_byte (strings.lower_byte c) = strings.lower_byte c.
Proof.
  destruct c as [[] [] [] [] [] [] [] []]; reflexivity.
Qed.

Lemma ToLower_idemp (s : string) :
  strings.ToLower (strings.ToLower s) = strings.ToLower s.
Proof.
  induction s as [|c s IH]; simpl; [reflexivity|].
  rewrite lower_byte_idemp, IH. reflexivity.
Qed.

(** ** The category of a file *)

Lemma default_keys_distinct : NoDup (default_entries.*1).
Proof. apply (bool_decide_unpack (NoDup (default_entries.*1))). vm_compute. exact I. Qed.

Lemma default_keys_lower_case (k v : string) :
  (k, v) ∈ default_entries -> strings.ToLower k = k.
Proof.
  intros Hin.
  assert (H : forallb (fun kv => String.eqb (strings.ToLower kv.1) kv.1)
                      default_entries = true) by (vm_compute; reflexivity).
  rewrite forallb_forall in H.
  apply list_elem_of_In, H, String.eqb_eq in Hin. exact Hin.
Qed.

Lemma default_lookup (k v : string) :
  (k, v) ∈ default_entries -> DefaultCategoryMappings !! k = Some v.
Proof.
  intros Hin. unfold DefaultCategoryMappings.
  apply elem_of_list_to_map_1; [exact default_keys_distinct | exact Hin].
Qed.

Lemma default_lookup_inv (k v : string) :
  DefaultCategoryMappings !! k = Some v -> (k, v) ∈ default_entries.
Proof. unfold DefaultCategoryMappings. apply elem_of_list_to_map_2. Qed.

(** What the callback does with an entry that is not a directory
    (lines 213-238). *)
Lemma scanFn_file (cfg : Config) (path name : string) (s : ScanState) :
  scanFn cfg path (Some (mkDirEntry name false)) None s =
  if strings.HasPrefix path (DestDir cfg) then
    (None, mkScanState (S (totalScanned s)) (S (totalSkipped s))
             (scanErr s) (filesToMove s))
  else
    (None, mkScanState (S (totalScanned s)) (totalSkipped s) (scanErr s)
             (filesToMove s ++
              [mkFileMove path
                 (filepath.Join
                    [filepath.Join
                       [DestDir cfg;
                        category (CategoryMappings cfg)
                          (strings.ToLower (filepath.Ext path))];
                     filepath.Base path])
                 (DryRun cfg)])).
Proof. reflexivity. Qed.

(** C5. Category resolution is total and has no error path ([category] is a
    function into the category names).  A file that is planned gets the
    category of the lower-cased extension of its path, so two paths whose
    extensions differ in case only get the same one.  An extension found in
    the mapping gets its mapped category; one that is not found, the empty
    extension of a file without extension among them when the mapping has
    no entry for it, gets "Others".  For the default mapping: every
    spelling of a listed extension gets the listed category, and the empty
    extension gets "Others". *)
Theorem C5_category_resolution :
  (forall cfg path name s,
      strings.HasPrefix path (DestDir cfg) = false ->
      exists fm,
        snd (scanFn cfg path (Some (mkDirEntry name false)) None s)
        = mkScanState (S (totalScanned s)) (totalSkipped s) (scanErr s)
                      (filesToMove s ++ [fm])
        /\ DestPath fm
           = filepath.Join
               [filepath.Join
                  [DestDir cfg;
                   category (CategoryMappings cfg)
                     (strings.ToLower (filepath.Ext path))];
                filepath.Base path])
  /\ (forall (m : gmap string string) path1 path2,
        strings.ToLower (filepath.Ext path1) = strings.ToLower (filepath.Ext path2) ->
        category m (strings.ToLower (filepath.Ext path1))
        = category m (strings.ToLower (filepath.Ext path2)))
  /\ (forall (m : gmap string string) ext c,
        m !! strings.ToLower ext = Some c -> category m (strings.ToLower ext) = c)
  /\ (forall (m : gmap string string) ext,
        m !! strings.ToLower ext = None -> category m (strings.ToLower ext) = "Others")
  /\ (forall k v ext,
        (k, v) ∈ default_entries -> strings.ToLower ext = k ->
        category DefaultCategoryMappings (strings.ToLower ext) = v)
  /\ (forall ext,
        (forall v, (strings.ToLower ext, v) ∉ default_entries) ->
        category DefaultCategoryMappings (strings.ToLower ext) = "Others")
  /\ (forall path,
        filepath.Ext path = "" ->
        category DefaultCategoryMappings (strings.ToLower (filepath.Ext path))
        = "Others")
  /\ category DefaultCategoryMappings (strings.ToLower (filepath.Ext "/in/Photo.JPG"))
     = "Images"
  /\ category DefaultCategoryMappings (strings.ToLower (filepath.Ext "/in/Makefile"))
     = "Others".
Proof.
  repeat apply conj.
  - intros cfg path name s Hpre. rewrite scanFn_file, Hpre. simpl. eauto.
  - intros m path1 path2 ->. reflexivity.
  - intros m ext c H. unfold category. rewrite H. reflexivity.
  - intros m ext H. unfold category. rewrite H. reflexivity.
  - intros k v ext Hin Hk. unfold category.
    rewrite Hk, (default_lookup k v Hin). reflexivity.
  - intros ext Hno. unfold category.
    destruct (DefaultCategoryMappings !! strings.ToLower ext) as [v|] eqn:E;
      [|reflexivity].
    apply default_lookup_inv in E. destruct (Hno v E).
  - intros path ->. reflexivity.
  - vm_compute. reflexivity.
  - vm_compute. reflexivity.
Qed.

(** ** The walk *)

Arguments filepath.Join : simpl never.
Arguments filepath.Clean : simpl never.
Arguments filepath.Dir : simpl never.
Arguments filepath.Base : simpl never.
Arguments filepath.Ext : simpl never.

Lemma walkEntries_nil {S : Type} (fn : @WalkDirFunc S) path s :
  walkEntries fn path [] s = (None, s).
Proof. reflexivity. Qed.

Lemma walkEntries_cons {S : Type} (fn : @WalkDirFunc S) path name1 n1 dirs s :
  walkEntries fn path ((name1, n1) :: dirs) s =
  match walkDir fn (filepath.Join [path; name1]) name1 n1 s with
  | (None, s') => walkEntries fn path dirs s'
  | (Some SkipDir, s') => (None, s')
  | (Some err, s') => (Some err, s')
  end.
Proof. reflexivity. Qed.

Lemma walkDir_Directory {S : Type} (fn : @WalkDirFunc S) path name entries readErr s :
  walkDir fn path name (Directory entries readErr) s =
  match fn path (Some (mkDirEntry name true)) None s with
  | (Some SkipDir, s1) => (None, s1)
  | (Some err, s1) => (Some err, s1)
  | (None, s1) =>
      match readErr with
      | None => walkEntries fn path entries s1
      | Some rerr =>
          match fn path (Some (mkDirEntry name true)) (Some rerr) s1 with
          | (Some SkipDir, s2) => (None, s2)
          | (Some err, s2) => (Some err, s2)
          | (None, s2) => walkEntries fn path entries s2
          end
      end
  end.
Proof. reflexivity. Qed.

Lemma walkDir_File {S : Type} (fn : @WalkDirFunc S) path name s :
  walkDir fn path name File s = fn path (Some (mkDirEntry name false)) None s.
Proof. reflexivity. Qed.

(** A property of the state that every call of the callback keeps is kept
    by the walk.  The callback is only ever called with an entry, or with
    an error. *)
Section Walk_invariant.
Context {S : Type} (fn : @WalkDirFunc S) (I : S -> Prop).
Hypothesis fn_keeps :
  forall path d err s,
    (is_Some d \/ is_Some err) -> I s -> I (snd (fn path d err s)).

Lemma walkDir_keeps (n : Node) :
  forall path name s, I s -> I (snd (walkDir fn path name n s)).
Proof.
  induction n as [|entries readErr IH] using Node_nested_ind; intros path name s Hs.
  - rewrite walkDir_File. apply fn_keeps; [left; eauto | exact Hs].
  - rewrite walkDir_Directory.
    assert (Hloop : forall s0, I s0 -> I (snd (walkEntries fn path entries s0))).
    { clear Hs s. induction IH as [|[name1 n1] l Hn1 _ IHl]; intros s0 Hs0.
      - exact Hs0.
      - rewrite walkEntries_cons.
        specialize (Hn1 (filepath.Join [path; name1]) name1 s0 Hs0).
        simpl in Hn1.
        destruct (walkDir fn (filepath.Join [path; name1]) name1 n1 s0)
          as [[[]|] s']; cbn [fst snd] in *; auto. }
    pose proof (fn_keeps path (Some (mkDirEntry name true)) None s
                  (or_introl (mk_is_Some _ _ eq_refl)) Hs) as H1.
    destruct (fn path (Some (mkDirEntry name true)) None s) as [[[]|] s1];
      cbn [fst snd] in *; auto.
    destruct readErr as [rerr|]; [|auto].
    pose proof (fn_keeps path (Some (mkDirEntry name true)) (Some rerr) s1
                  (or_introl (mk_is_Some _ _ eq_refl)) H1) as H2.
    destruct (fn path (Some (mkDirEntry name true)) (Some rerr) s1) as [[[]|] s2];
      cbn [fst snd] in *; auto.
Qed.

Lemma WalkDir_keeps root lstat s : I s -> I (snd (WalkDir fn root lstat s)).
Proof.
  intros Hs. unfold WalkDir. destruct lstat as [e|n].
  - pose proof (fn_keeps root None (Some e) s
                  (or_intror (mk_is_Some _ _ eq_refl)) Hs) as H.
    destruct (fn root None (Some e) s) as [[[]|] s']; exact H.
  - pose proof (walkDir_keeps n root (filepath.Base root) s Hs) as H.
    destruct (walkDir fn root (filepath.Base root) n s) as [[[]|] s']; exact H.
Qed.
End Walk_invariant.

(** A walk fails only with an error its callback returned; a callback that
    returns nothing but [nil] and [SkipDir] on directories makes the walk
    return [nil]. *)
Section Walk_never_fails.
Context {S : Type} (fn : @WalkDirFunc S).
Hypothesis fn_nil_or_skip :
  forall path d err s,
    fst (fn path d err s) = None
    \/ (fst (fn path d err s) = Some SkipDir /\ err = None
        /\ exists e, d = Some e /\ IsDir e = true).

Lemma walkDir_nil (n : Node) :
  forall path name s, fst (walkDir fn path name n s) = None.
Proof.
  induction n as [|entries readErr IH] using Node_nested_ind; intros path name s.
  - rewrite walkDir_File.
    destruct (fn_nil_or_skip path (Some (mkDirEntry name false)) None s)
      as [H|(_ & _ & e & [= <-] & He)]; [exact H | discriminate He].
  - rewrite walkDir_Directory.
    assert (Hloop : forall s0, fst (walkEntries fn path entries s0) = None).
    { induction IH as [|[name1 n1] l Hn1 _ IHl]; intros s0; [reflexivity|].
      rewrite walkEntries_cons.
      specialize (Hn1 (filepath.Join [path; name1]) name1 s0). simpl in Hn1.
      destruct (walkDir fn (filepath.Join [path; name1]) name1 n1 s0)
        as [[e|] s']; simpl in *; [discriminate | apply IHl]. }
    destruct (fn_nil_or_skip path (Some (mkDirEntry name true)) None s)
      as [H|(H & _)];
      destruct (fn path (Some (mkDirEntry name true)) None s) as [r s1];
      simpl in H; subst r; [|reflexivity].
    destruct readErr as [rerr|]; [|apply Hloop].
    destruct (fn_nil_or_skip path (Some (mkDirEntry name true)) (Some rerr) s1)
      as [H|(_ & H & _)]; [|discriminate H].
    destruct (fn path (Some (mkDirEntry name true)) (Some rerr) s1) as [r s2].
    simpl in H; subst r. apply Hloop.
Qed.

Lemma WalkDir_nil root lstat s : fst (WalkDir fn root lstat s) = None.
Proof.
  unfold WalkDir. destruct lstat as [e|n].
  - destruct (fn_nil_or_skip root None (Some e) s) as [H|(_ & H & _)];
      [|discriminate H].
    destruct (fn root None (Some e) s) as [r s']. simpl in H; subst r.
    reflexivity.
  - pose proof (walkDir_nil n root (filepath.Base root) s) as H.
    destruct (walkDir fn root (filepath.Base root) n s) as [r s'].
    simpl in H; subst r. reflexivity.
Qed.
End Walk_never_fails.

(** The callback of the scan returns [nil], or [SkipDir] on a directory. *)
Lemma scanFn_nil_or_skip (cfg : Config) path d err s :
  fst (scanFn cfg path d err s) = None
  \/ (fst (scanFn cfg path d err s) = Some SkipDir /\ err = None
      /\ exists e, d = Some e /\ IsDir e = true).
Proof.
  unfold scanFn. destruct err as [e|]; [left; reflexivity|].
  destruct d as [d|]; [|left; reflexivity].
  destruct (IsDir d) eqn:Hd.
  - destruct (negb (Recursive cfg) && negb (String.eqb path (SourceDir cfg))).
    + right. simpl. eauto.
    + left. reflexivity.
  - left. destruct (strings.HasPrefix path (DestDir cfg)); reflexivity.
Qed.

(** So the walk of the scan never returns an error: the branch of line 241
    is never taken. *)
Lemma scan_walk_nil (cfg : Config) lstat : fst (scan cfg lstat) = None.
Proof. apply WalkDir_nil, scanFn_nil_or_skip. Qed.

Lemma OrganizeFiles_unfold (cfg : Config) lstat :
  OrganizeFiles cfg lstat =
  let s := snd (scan cfg lstat) in
  mkOutcome (totalScanned s) (length (filesToMove s)) (totalSkipped s) None
            (filesToMove s).
Proof.
  unfold OrganizeFiles. pose proof (scan_walk_nil cfg lstat) as H.
  destruct (scan cfg lstat) as [r s]. simpl in *. subst r.
  destruct (filesToMove s) as [|fm l] eqn:E; simpl; rewrite ?E; reflexivity.
Qed.

(** [OrganizeFiles] returns a nil error, whatever the scan met. *)
Lemma OrganizeFiles_returns_nil (cfg : Config) lstat :
  ret_scanErr (OrganizeFiles cfg lstat) = None.
Proof. rewrite OrganizeFiles_unfold. reflexivity. Qed.

(** ** The scan and its bookkeeping *)

(** Writing the calls down does not change the walk. *)
Lemma logged_walkDir {S : Type} (fn : @WalkDirFunc S) (n : Node) :
  forall path name s log,
    exists log',
      walkDir (logged fn) path name n (s, log)
      = (fst (walkDir fn path name n s), (snd (walkDir fn path name n s), log')).
Proof.
  induction n as [|entries readErr IH] using Node_nested_ind;
    intros path name s log.
  - rewrite !walkDir_File. unfold logged.
    destruct (fn path (Some (mkDirEntry name false)) None s) as [r s'].
    eexists. reflexivity.
  - rewrite !walkDir_Directory.
    assert (Hloop : forall s0 log0, exists log',
               walkEntries (logged fn) path entries (s0, log0)
               = (fst (walkEntries fn path entries s0),
                  (snd (walkEntries fn path entries s0), log'))).
    { induction IH as [|[name1 n1] l Hn1 _ IHl]; intros s0 log0.
      - eexists. reflexivity.
      - rewrite !walkEntries_cons. cbn [snd] in Hn1.
        destruct (Hn1 (filepath.Join [path; name1]) name1 s0 log0) as [log1 ->].
        cbn [fst snd].
        destruct (walkDir fn (filepath.Join [path; name1]) name1 n1 s0)
          as [[[]|] s']; cbn [fst snd]; try (eexists; reflexivity).
        apply IHl. }
    unfold logged at 1.
    destruct (fn path (Some (mkDirEntry name true)) None s) as [[[]|] s1];
      cbn [fst snd]; try (eexists; reflexivity).
    destruct readErr as [rerr|]; [|apply Hloop].
    unfold logged at 1.
    destruct (fn path (Some (mkDirEntry name true)) (Some rerr) s1) as [[[]|] s2];
      cbn [fst snd]; try (eexists; reflexivity).
    apply Hloop.
Qed.

Lemma logged_WalkDir {S : Type} (fn : @WalkDirFunc S) root lstat s log :
  exists log',
    WalkDir (logged fn) root lstat (s, log)
    = (fst (WalkDir fn root lstat s), (snd (WalkDir fn root lstat s), log')).
Proof.
  unfold WalkDir. destruct lstat as [e|n].
  - unfold logged. destruct (fn root None (Some e) s) as [[[]|] s'];
      eexists; reflexivity.
  - destruct (logged_walkDir fn n root (filepath.Base root) s log) as [log' ->].
    destruct (walkDir fn root (filepath.Base root) n s) as [[[]|] s'];
      eexists; reflexivity.
Qed.

(** The state of the scan is the one of the walk that is written down. *)
Lemma scan_logged (cfg : Config) lstat :
  WalkDir (logged (scanFn cfg)) (SourceDir cfg) lstat (scan_start, [])
  = (None, (snd (scan cfg lstat), visits cfg lstat)).
Proof.
  unfold visits.
  destruct (logged_WalkDir (scanFn cfg) (SourceDir cfg) lstat scan_start [])
    as [log' E].
  rewrite E. cbn [fst snd]. fold (scan cfg lstat).
  rewrite scan_walk_nil. reflexivity.
Qed.

(** What the counters and the plan are, in terms of the calls made. *)
Definition scan_inv (cfg : Config) (st : ScanState * list Visit) : Prop :=
  let '(s, log) := st in
  let files := map visit_path (List.filter is_file_visit log) in
  totalScanned s = length log
  /\ totalSkipped s
     = length (List.filter (fun p => strings.HasPrefix p (DestDir cfg)) files)
  /\ map SourcePath (filesToMove s)
     = List.filter (fun p => negb (strings.HasPrefix p (DestDir cfg))) files
  /\ length log
     = length (List.filter is_file_visit log)
       + length (List.filter is_directory_visit log)
       + length (List.filter is_error_visit log).

Lemma scan_inv_step (cfg : Config) path d err st :
  is_Some d \/ is_Some err ->
  scan_inv cfg st -> scan_inv cfg (snd (logged (scanFn cfg) path d err st)).
Proof.
  intros Hcall. destruct st as [s log]. unfold scan_inv, logged.
  intros (Hn & Hskip & Hplan & Hkinds).
  destruct err as [e|].
  - cbn [scanFn snd totalScanned totalSkipped filesToMove].
    rewrite !List.filter_app, !length_app. cbn.
    rewrite !app_nil_r. repeat split; try assumption; lia.
  - destruct Hcall as [[d' ->]|[e He]]; [|discriminate He].
    destruct d' as [name [|]].
    + assert (E : exists r, scanFn cfg path (Some (mkDirEntry name true)) None s
                 = (r, mkScanState (S (totalScanned s)) (totalSkipped s)
                         (scanErr s) (filesToMove s))).
      { unfold scanFn. cbn [IsDir].
        destruct (negb (Recursive cfg) && negb (String.eqb path (SourceDir cfg)));
          eexists; reflexivity. }
      destruct E as [r ->].
      cbn [snd totalScanned totalSkipped filesToMove].
      rewrite !List.filter_app, !length_app. cbn.
      rewrite !app_nil_r. repeat split; try assumption; lia.
    + rewrite scanFn_file.
      destruct (strings.HasPrefix path (DestDir cfg)) eqn:Hpre;
        cbn [snd totalScanned totalSkipped filesToMove];
        rewrite !List.filter_app, !map_app, !List.filter_app, !length_app; cbn;
        rewrite Hpre; cbn; rewrite ?app_nil_r, ?map_app, ?length_app; cbn;
        repeat split; try assumption; try lia.
      rewrite Hplan. reflexivity.
Qed.

Lemma scan_inv_holds (cfg : Config) lstat :
  scan_inv cfg (snd (scan cfg lstat), visits cfg lstat).
Proof.
  pose proof (WalkDir_keeps (logged (scanFn cfg)) (scan_inv cfg)
                (fun path d err s => scan_inv_step cfg path d err s)
                (SourceDir cfg) lstat (scan_start, [])) as H.
  rewrite scan_logged in H. apply H.
  cbn. repeat split; reflexivity.
Qed.

Lemma filter_split_length {A : Type} (f : A -> bool) (l : list A) :
  length (List.filter f l) + length (List.filter (fun x => negb (f x)) l)
  = length l.
Proof.
  induction l as [|x l IH]; simpl; [reflexivity|].
  destruct (f x); simpl; lia.
Qed.

(** C9. For every scan the counters add up: the planned moves, the skipped
    files, the directories visited and the entries that produced a
    traversal error are together the entries visited; [totalScanned] counts
    every call of the walk callback, [totalSkipped] the visited files whose
    path starts with the destination root, and [totalToProcess] is the
    length of the list of planned moves. *)
Theorem C9_scan_accounting (cfg : Config) (lstat : error + Node) :
  let out := OrganizeFiles cfg lstat in
  ret_totalToProcess out + ret_totalSkipped out
  + directoriesVisited cfg lstat + erroredEntries cfg lstat
  = ret_totalScanned out
  /\ ret_totalScanned out = length (visits cfg lstat)
  /\ ret_totalToProcess out = length (filesToMove (snd (scan cfg lstat)))
  /\ ret_totalSkipped out
     = length (List.filter (fun p => strings.HasPrefix p (DestDir cfg))
                           (filesVisited cfg lstat)).
Proof.
  rewrite OrganizeFiles_unfold. cbn zeta.
  cbn [ret_totalToProcess ret_totalSkipped ret_totalScanned].
  destruct (scan_inv_holds cfg lstat) as (Hn & Hskip & Hplan & Hkinds).
  unfold directoriesVisited, erroredEntries, filesVisited.
  repeat split; try assumption.
  rewrite Hn, Hkinds, Hskip.
  rewrite <- (length_map SourcePath), Hplan.
  pose proof (filter_split_length
                (fun p => strings.HasPrefix p (DestDir cfg))
                (map visit_path (List.filter is_file_visit (visits cfg lstat)))) as H.
  rewrite length_map in H. lia.
Qed.

Lemma planned_filesVisited (cfg : Config) lstat :
  planned cfg lstat
  = List.filter (fun p => negb (strings.HasPrefix p (DestDir cfg)))
                (filesVisited cfg lstat).
Proof.
  destruct (scan_inv_holds cfg lstat) as (_ & _ & Hplan & _). exact Hplan.
Qed.

Lemma HasPrefix_app (s a b : string) :
  strings.HasPrefix s (a +:+ b) = true -> strings.HasPrefix s a = true.
Proof.
  rewrite !HasPrefix_spec. intros [rest ->]. exists (b +:+ rest).
  unfold String.app. induction a as [|c a IH]; simpl; [reflexivity|].
  rewrite IH. reflexivity.
Qed.

(** A file in the tree of the destination root is never planned. *)
Lemma inside_not_planned (cfg : Config) lstat (path : string) :
  inside (DestDir cfg) path = true -> path ∉ planned cfg lstat.
Proof.
  intros Hin Hp. rewrite planned_filesVisited in Hp.
  apply list_elem_of_In, List.filter_In in Hp. destruct Hp as [_ Hp].
  apply HasPrefix_app in Hin. rewrite Hin in Hp. discriminate Hp.
Qed.

(** C10. The test for "already in the destination" is the comparison of
    the path string with the string of the destination root: a file whose
    path begins with it is skipped and counted, and nothing else is; this
    includes a file of a directory next to the destination whose name
    continues the name of the destination (here [/data/organized-old] next
    to [/data/org]), which is not in the destination tree. *)
Theorem C10_skip_is_string_prefix :
  (forall cfg path name s rest,
      path = DestDir cfg +:+ rest ->
      scanFn cfg path (Some (mkDirEntry name false)) None s
      = (None, mkScanState (S (totalScanned s)) (S (totalSkipped s))
                 (scanErr s) (filesToMove s)))
  /\ (forall cfg lstat,
        totalSkipped (snd (scan cfg lstat))
        = length (List.filter (fun p => strings.HasPrefix p (DestDir cfg))
                              (filesVisited cfg lstat))
        /\ planned cfg lstat
           = List.filter (fun p => negb (strings.HasPrefix p (DestDir cfg)))
                         (filesVisited cfg lstat))
  /\ (forall s prefix,
        strings.HasPrefix s prefix = true <-> exists rest, s = prefix +:+ rest)
  /\ (inside "/data/org" "/data/organized-old/x.txt" = false
      /\ filesVisited sibling_cfg (inr sibling_tree)
         = ["/data/org/Images/a.jpg"; "/data/organized-old/x.txt"]
      /\ scan sibling_cfg (inr sibling_tree) = (None, mkScanState 6 2 None [])).
Proof.
  split; [|split; [|split; [|split; [|split]]]].
  - intros cfg path name s rest ->. rewrite scanFn_file.
    assert (H : strings.HasPrefix (DestDir cfg +:+ rest) (DestDir cfg) = true)
      by (apply HasPrefix_spec; eauto).
    rewrite H. reflexivity.
  - intros cfg lstat. split; [|apply planned_filesVisited].
    destruct (scan_inv_holds cfg lstat) as (_ & Hskip & _ & _). exact Hskip.
  - intros s prefix. apply HasPrefix_spec.
  - reflexivity.
  - vm_compute. reflexivity.
  - vm_compute. reflexivity.
Qed.

(** C6, evaluated where it fails.  A file in the destination tree is never
    planned and is counted as skipped ([inside_not_planned], C10); but
    [totalSkipped] is not the number of files found under the destination
    root: with the destination [/data/org] and the directory
    [/data/organized-old] next to it, the scan finds one file under the
    destination root and skips two. *)
Theorem C6_skipped_exceeds_files_under_destination :
  let out := OrganizeFiles sibling_cfg (inr sibling_tree) in
  filesVisited sibling_cfg (inr sibling_tree)
  = ["/data/org/Images/a.jpg"; "/data/organized-old/x.txt"]
  /\ List.filter (inside (DestDir sibling_cfg))
                 (filesVisited sibling_cfg (inr sibling_tree))
     = ["/data/org/Images/a.jpg"]
  /\ ret_totalSkipped out = 2
  /\ ret_totalToProcess out = 0
  /\ dispatched out = [].
Proof. vm_compute. repeat split; reflexivity. Qed.

(** C3, evaluated where it fails.  When [os.Lstat] of the source root fails
    the walk hands the error to the callback, which stores it in [scanErr]
    and returns nil; the walk returns nil, nothing is planned or
    dispatched, and [OrganizeFiles] returns a nil error.  The same happens
    when the root is a directory that cannot be read. *)
Theorem C3_root_failure_returns_nil (cfg : Config) (e : error) :
  scan cfg (inl e)
  = (None, mkScanState 1 0 (Some (Errorf "encountered error during scan" e)) [])
  /\ OrganizeFiles cfg (inl e) = mkOutcome 1 0 0 None []
  /\ OrganizeFiles cfg (inr (Directory [] (Some e))) = mkOutcome 2 0 0 None [].
Proof.
  split; [reflexivity|]. split; [reflexivity|].
  unfold OrganizeFiles, scan, WalkDir. rewrite walkDir_Directory.
  unfold scanFn. cbn [IsDir]. rewrite String.eqb_refl, andb_false_r.
  reflexivity.
Qed.

(** C2, evaluated where it fails.  With two unreadable directories the
    error kept in [scanErr] after the walk is the one of the second, and
    [OrganizeFiles] returns nil in place of it: both return statements
    after the walk name [nil], so no scan ever returns an error.  The walk
    itself goes on after each error: the file after the two directories
    is visited and planned. *)
Theorem C2_scan_error_overwritten_and_dropped :
  visits unreadable_cfg (inr unreadable_tree)
  = [ mkVisit "/src" (Some (mkDirEntry "src" true)) None;
      mkVisit "/src/a" (Some (mkDirEntry "a" true)) None;
      mkVisit "/src/a" (Some (mkDirEntry "a" true)) (Some denied_a);
      mkVisit "/src/b" (Some (mkDirEntry "b" true)) None;
      mkVisit "/src/b" (Some (mkDirEntry "b" true)) (Some denied_b);
      mkVisit "/src/c.txt" (Some (mkDirEntry "c.txt" false)) None ]
  /\ scanErr (snd (scan unreadable_cfg (inr unreadable_tree)))
     = Some (Errorf "encountered error during scan" denied_b)
  /\ OrganizeFiles unreadable_cfg (inr unreadable_tree)
     = mkOutcome 6 1 0 None [mkFileMove "/src/c.txt" "/out/Documents/c.txt" false]
  /\ (forall cfg lstat, ret_scanErr (OrganizeFiles cfg lstat) = None).
Proof.
  split; [vm_compute; reflexivity|].
  split; [vm_compute; reflexivity|].
  split; [vm_compute; reflexivity|].
  apply OrganizeFiles_returns_nil.
Qed.

(** ** Paths: [filepath.Clean] and [filepath.Join] *)

Lemma SplitSlash_nonempty (s : string) : strings.SplitSlash s <> [].
Proof.
  destruct s as [|c s]; simpl; [discriminate|].
  destruct (strings.SplitSlash s); [discriminate|].
  destruct (Ascii.eqb c "/"); discriminate.
Qed.

Lemma SplitSlash_sep (a b : string) :
  strings.SplitSlash (a +:+ String "/" b)
  = strings.SplitSlash a ++ strings.SplitSlash b.
Proof.
  induction a as [|c a IH].
  - change (strings.SplitSlash (String "/" b)
            = [EmptyString] ++ strings.SplitSlash b).
    simpl. destruct (strings.SplitSlash b) eqn:E; [|reflexivity].
    destruct (SplitSlash_nonempty b E).
  - change (strings.SplitSlash (String c (a +:+ String "/" b))
            = strings.SplitSlash (String c a) ++ strings.SplitSlash b).
    simpl. rewrite IH.
    destruct (strings.SplitSlash a) as [|e es] eqn:E;
      [destruct (SplitSlash_nonempty a E)|].
    simpl. destruct (Ascii.eqb c "/"); reflexivity.
Qed.

Lemma SplitSlash_name (s : string) :
  has_separator s = false -> strings.SplitSlash s = [s].
Proof.
  induction s as [|c s IH]; simpl; [reflexivity|].
  unfold filepath.IsPathSeparator. intros H.
  apply orb_false_iff in H as [Hc Hs]. rewrite (IH Hs), Hc. reflexivity.
Qed.

Lemma SplitSlash_names (s : string) :
  Forall (fun e => has_separator e = false) (strings.SplitSlash s).
Proof.
  induction s as [|c s IH]; simpl; [repeat constructor|].
  destruct (strings.SplitSlash s) as [|e es] eqn:E;
    [destruct (SplitSlash_nonempty s E)|].
  inversion IH as [|? ? He Hes]; subst.
  destruct (Ascii.eqb c "/") eqn:Ec.
  - repeat constructor; assumption.
  - constructor; [|assumption]. simpl.
    unfold filepath.IsPathSeparator. rewrite Ec, He. reflexivity.
Qed.

Lemma concat_cons2 (x y : string) (l : list string) :
  String.concat "/" (x :: y :: l) = x +:+ String "/" (String.concat "/" (y :: l)).
Proof. reflexivity. Qed.

Lemma SplitSlash_concat (l : list string) :
  l <> [] -> Forall (fun e => has_separator e = false) l ->
  strings.SplitSlash (String.concat "/" l) = l.
Proof.
  induction l as [|x [|y l] IH]; intros Hne Hall.
  - destruct (Hne eq_refl).
  - inversion Hall; subst. simpl. apply SplitSlash_name. assumption.
  - inversion Hall as [|? ? Hx Hyl]; subst.
    rewrite concat_cons2, SplitSlash_sep, (SplitSlash_name x Hx).
    rewrite IH; [reflexivity | discriminate | assumption].
Qed.

(** The stack of elements [Clean] has written: no element is empty or ".",
    none has a separator, and ".." stands only below other ".." at the
    start of a relative path. *)
Fixpoint clean_out (rooted : bool) (out : list string) : Prop :=
  match out with
  | [] => True
  | e :: below =>
      e <> "" /\ e <> "." /\ has_separator e = false
      /\ (e = ".." ->
          rooted = false
          /\ match below with [] => True | top :: _ => top = ".." end)
      /\ clean_out rooted below
  end.

Lemma clean_step_out (r : bool) (out : list string) (e : string) :
  clean_out r out -> has_separator e = false -> clean_out r (filepath.clean_step r out e).
Proof.
  intros Hout He. unfold filepath.clean_step.
  destruct (String.eqb_spec e ""); [assumption|].
  destruct (String.eqb_spec e "."); [assumption|]. simpl.
  destruct (String.eqb_spec e "..") as [->|Hdd].
  - destruct out as [|top below].
    + destruct r; simpl; [exact I|].
      refine (conj _ (conj _ (conj _ (conj _ I)))); try discriminate; auto.
    + destruct (String.eqb_spec top "..") as [->|Htop].
      * pose proof Hout as Hout'.
        simpl in Hout. destruct Hout as (_ & _ & _ & Hr & Hbelow).
        destruct (Hr eq_refl) as [-> Hb].
        refine (conj _ (conj _ (conj _ (conj _ Hout'))));
          try discriminate; auto.
      * simpl in Hout. tauto.
  - refine (conj _ (conj _ (conj _ (conj _ Hout)))); try assumption.
    intros ->. destruct (Hdd eq_refl).
Qed.

Lemma fold_clean_out (r : bool) (l : list string) :
  forall out,
    clean_out r out -> Forall (fun e => has_separator e = false) l ->
    clean_out r (fold_left (filepath.clean_step r) l out).
Proof.
  induction l as [|e l IH]; intros out Hout Hl; simpl; [assumption|].
  inversion Hl; subst. apply IH; [apply clean_step_out|]; assumption.
Qed.

Lemma clean_step_push (r : bool) (e : string) (below : list string) :
  clean_out r (e :: below) -> filepath.clean_step r below e = e :: below.
Proof.
  simpl. intros (He & Hdot & _ & Hdd & _). unfold filepath.clean_step.
  destruct (String.eqb_spec e ""); [contradiction|].
  destruct (String.eqb_spec e "."); [contradiction|]. simpl.
  destruct (String.eqb_spec e "..") as [->|]; [|reflexivity].
  destruct (Hdd eq_refl) as [-> Hb].
  destruct below as [|top below']; [reflexivity|]. subst top. reflexivity.
Qed.

Lemma fold_clean_rev (r : bool) (out : list string) :
  clean_out r out -> fold_left (filepath.clean_step r) (rev out) [] = out.
Proof.
  induction out as [|e below IH]; intros Hout; [reflexivity|].
  simpl rev. rewrite fold_left_app. simpl.
  rewrite IH; [apply clean_step_push; assumption|].
  simpl in Hout. tauto.
Qed.

(** The string [Clean] returns for a stack. *)
Definition render (r : bool) (out : list string) : string :=
  let body := strings.Join (rev out) "/" in
  if r then "/" +:+ body else if String.eqb body "" then "." else body.

Lemma Clean_render (path : string) :
  filepath.Clean path
  = render (filepath.rooted path)
      (fold_left (filepath.clean_step (filepath.rooted path))
                 (strings.SplitSlash path) []).
Proof. reflexivity. Qed.

Lemma clean_out_names (r : bool) (out : list string) :
  clean_out r out ->
  Forall (fun e => e <> "" /\ has_separator e = false) out.
Proof.
  induction out as [|e below IH]; simpl; [constructor|].
  intros (He & _ & Hs & _ & Hbelow). constructor; auto.
Qed.

Lemma concat_head (x : string) (l : list string) :
  x <> "" -> has_separator x = false ->
  String.concat "/" (x :: l) <> ""
  /\ filepath.rooted (String.concat "/" (x :: l)) = false.
Proof.
  intros Hx Hs. destruct x as [|c x]; [destruct (Hx eq_refl)|].
  simpl in Hs. apply orb_false_iff in Hs as [Hc _].
  destruct l as [|y l]; [simpl; split; [discriminate | exact Hc]|].
  rewrite concat_cons2.
  change (String c x +:+ String "/" (String.concat "/" (y :: l)))
    with (String c (x +:+ String "/" (String.concat "/" (y :: l)))).
  split; [discriminate | exact Hc].
Qed.

(** Cleaning what [Clean] returned gives back the same stack. *)
Lemma render_clean (r : bool) (out : list string) :
  clean_out r out ->
  filepath.rooted (render r out) = r
  /\ fold_left (filepath.clean_step r) (strings.SplitSlash (render r out)) [] = out.
Proof.
  intros Hout. pose proof (fold_clean_rev r out Hout) as Hrev.
  pose proof (clean_out_names r out Hout) as Hnames.
  apply List.Forall_rev in Hnames.
  unfold render, strings.Join.
  destruct (rev out) as [|x l] eqn:E.
  - assert (out = []) as ->.
    { apply (f_equal (@rev string)) in E. rewrite rev_involutive in E. exact E. }
    destruct r; split; reflexivity.
  - apply Forall_cons in Hnames as [[Hx Hs] Hl].
    destruct (concat_head x l Hx Hs) as [Hne Hroot].
    assert (Hsplit : strings.SplitSlash (String.concat "/" (x :: l)) = x :: l).
    { apply SplitSlash_concat; [discriminate|].
      constructor; [exact Hs|]. eapply Forall_impl; [exact Hl|].
      intros e [_ He]. exact He. }
    destruct r.
    + change ("/" +:+ String.concat "/" (x :: l))
        with ("" +:+ String "/" (String.concat "/" (x :: l))).
      split; [reflexivity|].
      rewrite SplitSlash_sep, Hsplit. exact Hrev.
    + destruct (String.eqb_spec (String.concat "/" (x :: l)) "") as [H0|_];
        [destruct (Hne H0)|].
      split; [exact Hroot|]. rewrite Hsplit. exact Hrev.
Qed.

Lemma Clean_out (path : string) :
  clean_out (filepath.rooted path)
    (fold_left (filepath.clean_step (filepath.rooted path))
               (strings.SplitSlash path) []).
Proof. apply fold_clean_out; [exact I | apply SplitSlash_names]. Qed.

(** [Clean] is idempotent. *)
Lemma Clean_idemp (path : string) :
  filepath.Clean (filepath.Clean path) = filepath.Clean path.
Proof.
  rewrite (Clean_render path).
  destruct (render_clean _ _ (Clean_out path)) as [Hr Hout].
  rewrite Clean_render, Hr, Hout. reflexivity.
Qed.

Lemma entry_name_spec (name : string) :
  entry_name name = true ->
  name <> "" /\ has_separator name = false /\ name <> "." /\ name <> "..".
Proof.
  unfold entry_name. rewrite !andb_true_iff, !negb_true_iff.
  intros [[[H1 H2] H3] H4].
  repeat split; try assumption; intros ->; discriminate.
Qed.

(** Joining a directory and the name of one of its entries: the cleaned
    directory with the name as one more element. *)
Lemma Join_entry (dir name : string) :
  entry_name name = true -> dir <> "" ->
  filepath.Join [dir; name]
  = render (filepath.rooted dir)
      (name :: fold_left (filepath.clean_step (filepath.rooted dir))
                         (strings.SplitSlash dir) []).
Proof.
  intros Hname Hdir.
  destruct (entry_name_spec name Hname) as (Hn & Hs & Hdot & Hdd).
  unfold filepath.Join.
  destruct (String.eqb_spec dir "") as [->|_]; [destruct (Hdir eq_refl)|].
  unfold strings.Join. rewrite concat_cons2.
  change (String.concat "/" [name]) with name.
  rewrite Clean_render.
  assert (Hr : filepath.rooted (dir +:+ String "/" name) = filepath.rooted dir).
  { destruct dir; [destruct (Hdir eq_refl) | reflexivity]. }
  rewrite Hr, SplitSlash_sep, (SplitSlash_name name Hs), fold_left_app.
  simpl fold_left at 1. f_equal.
  unfold filepath.clean_step.
  destruct (String.eqb_spec name ""); [contradiction|].
  destruct (String.eqb_spec name "."); [contradiction|].
  destruct (String.eqb_spec name ".."); [contradiction|].
  reflexivity.
Qed.

Lemma Join_entry_empty (name : string) :
  entry_name name = true -> filepath.Join [""; name] = name.
Proof.
  intros Hname.
  destruct (entry_name_spec name Hname) as (Hn & Hs & Hdot & Hdd).
  unfold filepath.Join. simpl String.eqb. cbv iota.
  destruct (String.eqb_spec name "") as [->|_]; [destruct (Hn eq_refl)|].
  unfold strings.Join. change (String.concat "/" [name]) with name.
  rewrite Clean_render, (SplitSlash_name name Hs). simpl fold_left.
  unfold filepath.clean_step.
  destruct (String.eqb_spec name ""); [contradiction|].
  destruct (String.eqb_spec name "."); [contradiction|].
  destruct (String.eqb_spec name ".."); [contradiction|].
  simpl. unfold render, strings.Join. simpl.
  destruct name as [|c name']; [destruct (Hn eq_refl)|].
  simpl in Hs. apply orb_false_iff in Hs as [Hc _].
  simpl. rewrite Hc. reflexivity.
Qed.

(** The path of an entry of a directory is never the path of the directory
    itself. *)
Lemma Join_entry_ne (dir name : string) :
  entry_name name = true -> filepath.Join [dir; name] <> dir.
Proof.
  intros Hname Heq.
  destruct (String.eqb_spec dir "") as [->|Hdir].
  - rewrite (Join_entry_empty name Hname) in Heq.
    apply entry_name_spec in Hname. tauto.
  - rewrite (Join_entry dir name Hname Hdir) in Heq.
    set (r := filepath.rooted dir) in *.
    set (out := fold_left (filepath.clean_step r) (strings.SplitSlash dir) []) in *.
    assert (Hout : clean_out r (name :: out)).
    { destruct (entry_name_spec name Hname) as (Hn & Hs & Hdot & Hdd).
      simpl. repeat split; try assumption; try contradiction.
      apply Clean_out. }
    destruct (render_clean r (name :: out) Hout) as [_ Hfold].
    rewrite Heq in Hfold. fold out in Hfold.
    apply (f_equal (@length string)) in Hfold. simpl in Hfold. lia.
Qed.

(** ** Recursive and non-recursive scans *)

(** The state after the callback has only counted an entry. *)
Definition counted (s : ScanState) : ScanState :=
  mkScanState (S (totalScanned s)) (totalSkipped s) (scanErr s) (filesToMove s).

Lemma scan_inr (cfg : Config) (n : Node) :
  snd (scan cfg (inr n))
  = snd (walkDir (scanFn cfg) (SourceDir cfg) (filepath.Base (SourceDir cfg))
                 n scan_start).
Proof.
  unfold scan, WalkDir.
  destruct (walkDir (scanFn cfg) (SourceDir cfg) (filepath.Base (SourceDir cfg))
                    n scan_start) as [[[]|] s']; reflexivity.
Qed.

(** Without [Recursive], a directory other than the source root is one
    call of the callback and nothing more: [SkipDir]. *)
Lemma nonrecursive_directory (cfg : Config) path name entries readErr s :
  Recursive cfg = false -> path <> SourceDir cfg ->
  walkDir (scanFn cfg) path name (Directory entries readErr) s = (None, counted s).
Proof.
  intros Hrec Hpath. rewrite walkDir_Directory. unfold scanFn. cbn [IsDir].
  rewrite Hrec. destruct (String.eqb_spec path (SourceDir cfg)); [contradiction|].
  reflexivity.
Qed.

Lemma walkDir_scanFn_nil (cfg : Config) n path name s :
  fst (walkDir (scanFn cfg) path name n s) = None.
Proof. apply walkDir_nil, scanFn_nil_or_skip. Qed.

Definition not_in_dest (cfg : Config) (p : string) : bool :=
  negb (strings.HasPrefix p (DestDir cfg)).

Lemma scanFn_file_sources (cfg : Config) path name s :
  map SourcePath
      (filesToMove (snd (scanFn cfg path (Some (mkDirEntry name false)) None s)))
  = map SourcePath (filesToMove s) ++ List.filter (not_in_dest cfg) [path].
Proof.
  rewrite scanFn_file. unfold not_in_dest. simpl.
  destruct (strings.HasPrefix path (DestDir cfg)); simpl.
  - rewrite app_nil_r. reflexivity.
  - rewrite map_app. reflexivity.
Qed.

(** With [Recursive], the walk plans the files of the whole tree. *)
Lemma walkDir_recursive (cfg : Config) (n : Node) :
  Recursive cfg = true ->
  forall path name s,
    map SourcePath (filesToMove (snd (walkDir (scanFn cfg) path name n s)))
    = map SourcePath (filesToMove s)
      ++ List.filter (not_in_dest cfg) (files_of path n).
Proof.
  intros Hrec.
  induction n as [|entries readErr IH] using Node_nested_ind; intros path name s.
  - rewrite walkDir_File. apply scanFn_file_sources.
  - rewrite walkDir_Directory.
    assert (Hloop : forall s0,
      map SourcePath (filesToMove (snd (walkEntries (scanFn cfg) path entries s0)))
      = map SourcePath (filesToMove s0)
        ++ List.filter (not_in_dest cfg)
             (flat_map (fun e => files_of (filepath.Join [path; fst e]) (snd e))
                       entries)).
    { induction IH as [|[name1 n1] l Hn1 _ IHl]; intros s0.
      - simpl. rewrite app_nil_r. reflexivity.
      - rewrite walkEntries_cons. cbn [fst snd] in Hn1.
        specialize (Hn1 (filepath.Join [path; name1]) name1 s0).
        pose proof (walkDir_scanFn_nil cfg n1 (filepath.Join [path; name1])
                      name1 s0) as Hnil.
        destruct (walkDir (scanFn cfg) (filepath.Join [path; name1]) name1 n1 s0)
          as [r s']. cbn [fst snd] in *. subst r.
        rewrite IHl, Hn1. cbn [flat_map fst snd].
        rewrite List.filter_app, app_assoc. reflexivity. }
    unfold scanFn at 1. cbn [IsDir]. rewrite Hrec. cbn [negb andb].
    destruct readErr as [rerr|]; [unfold scanFn at 1|];
      rewrite Hloop; reflexivity.
Qed.

(** Without [Recursive], it plans the files directly in the source root. *)
Lemma walkDir_nonrecursive (cfg : Config) (n : Node) name :
  Recursive cfg = false -> entry_names n = true ->
  map SourcePath
      (filesToMove (snd (walkDir (scanFn cfg) (SourceDir cfg) name n scan_start)))
  = List.filter (not_in_dest cfg) (top_files (SourceDir cfg) n).
Proof.
  intros Hrec Hnames. destruct n as [|entries readErr].
  - rewrite walkDir_File. apply scanFn_file_sources.
  - rewrite walkDir_Directory.
    assert (Hloop : forall s0,
      map SourcePath
          (filesToMove (snd (walkEntries (scanFn cfg) (SourceDir cfg) entries s0)))
      = map SourcePath (filesToMove s0)
        ++ List.filter (not_in_dest cfg)
             (top_files (SourceDir cfg) (Directory entries None))).
    { simpl in Hnames. clear readErr.
      induction entries as [|[name1 n1] l IHl]; intros s0.
      - simpl. rewrite app_nil_r. reflexivity.
      - simpl in Hnames. apply andb_true_iff in Hnames as [Hn1 Hl].
        apply andb_true_iff in Hn1 as [Hname1 _].
        rewrite walkEntries_cons. cbn [top_files flat_map fst snd].
        destruct n1 as [|entries1 readErr1].
        + rewrite walkDir_File.
          pose proof (scanFn_file_sources cfg (filepath.Join [SourceDir cfg; name1])
                        name1 s0) as Hfile.
          rewrite scanFn_file in *.
          destruct (strings.HasPrefix (filepath.Join [SourceDir cfg; name1])
                                      (DestDir cfg));
            cbn [fst snd] in *; rewrite (IHl Hl), Hfile;
            cbn [top_files]; rewrite List.filter_app, app_assoc; reflexivity.
        + rewrite (nonrecursive_directory cfg _ name1 entries1 readErr1 s0 Hrec
                     (Join_entry_ne _ _ Hname1)).
          rewrite (IHl Hl). reflexivity. }
    unfold scanFn at 1. cbn [IsDir]. rewrite Hrec, String.eqb_refl. cbn [negb andb].
    destruct readErr as [rerr|]; [unfold scanFn at 1|];
      rewrite Hloop; reflexivity.
Qed.

(** C7. Without [Recursive], a directory other than the source root is
    visited as one entry and not descended into, so the files planned are
    those directly in the source root; with [Recursive] the directories are
    descended and the files of the whole tree are planned (in both cases
    those whose path does not start with the destination root).  For a
    source with [a.txt] and [sub/b.txt], a scan without [Recursive] plans
    exactly [a.txt], one with [Recursive] exactly [a.txt] and [sub/b.txt]. *)
Theorem C7_recursive_flag :
  (forall cfg path name entries readErr s,
      Recursive cfg = false -> path <> SourceDir cfg ->
      walkDir (scanFn cfg) path name (Directory entries readErr) s
      = (None, counted s))
  /\ (forall cfg n,
        Recursive cfg = false -> entry_names n = true ->
        planned cfg (inr n)
        = List.filter (not_in_dest cfg) (top_files (SourceDir cfg) n))
  /\ (forall cfg n,
        Recursive cfg = true ->
        planned cfg (inr n)
        = List.filter (not_in_dest cfg) (files_of (SourceDir cfg) n))
  /\ (forall source dest dry workers mappings quiet,
        let cfg r := mkConfig source dest dry r workers mappings quiet in
        strings.HasPrefix (filepath.Join [source; "a.txt"]) dest = false ->
        strings.HasPrefix (filepath.Join [filepath.Join [source; "sub"]; "b.txt"])
                          dest = false ->
        planned (cfg false) (inr example_tree) = [filepath.Join [source; "a.txt"]]
        /\ planned (cfg true) (inr example_tree)
           = [filepath.Join [source; "a.txt"];
              filepath.Join [filepath.Join [source; "sub"]; "b.txt"]])
  /\ (planned (example_cfg false) (inr example_tree) = ["/source/a.txt"]
      /\ planned (example_cfg true) (inr example_tree)
         = ["/source/a.txt"; "/source/sub/b.txt"]).
Proof.
  split; [|split; [|split; [|split]]].
  - intros. apply nonrecursive_directory; assumption.
  - intros cfg n Hrec Hnames. unfold planned. rewrite scan_inr.
    apply walkDir_nonrecursive; assumption.
  - intros cfg n Hrec. unfold planned. rewrite scan_inr.
    rewrite (walkDir_recursive cfg n Hrec). reflexivity.
  - intros source dest dry workers mappings quiet cfg Ha Hb. split.
    + unfold planned. rewrite scan_inr.
      rewrite (walkDir_nonrecursive (cfg false) example_tree _ eq_refl eq_refl).
      subst cfg. unfold not_in_dest, example_tree. simpl.
      rewrite Ha. reflexivity.
    + unfold planned. rewrite scan_inr.
      rewrite (walkDir_recursive (cfg true) example_tree eq_refl).
      subst cfg. unfold not_in_dest, example_tree. simpl.
      rewrite Ha, Hb. reflexivity.
  - split; vm_compute; reflexivity.
Qed.

(** ** The runs of [moveFile] *)

Arguments timestamped : simpl never.

Lemma runs_bind {A B : Type} (p : Prog A) (f : A -> Prog B) calls res :
  runs (p ≫= f) calls res ->
  (exists calls1 a calls2,
      runs p calls1 (Returns a) /\ runs (f a) calls2 res
      /\ calls = calls1 ++ calls2)
  \/ (runs p calls Panics /\ res = Panics).
Proof.
  revert calls. induction p as [a| |c k IH]; intros calls H.
  - left. exists [], a, calls. repeat split; assumption.
  - right. destruct H as [-> ->]. repeat split.
  - destruct H as (r & calls' & -> & H).
    destruct (IH r calls' H) as [(c1 & a & c2 & H1 & H2 & ->)|[H1 ->]].
    + left. exists (c :: c1), a, c2. repeat split; [|assumption].
      exists r, c1. split; [reflexivity | assumption].
    + right. split; [|reflexivity]. exists r, calls'. split; [reflexivity | assumption].
Qed.

Lemma runs_defer_recover {A : Type} (handler body : Prog A) calls res :
  runs (defer_recover handler body) calls res ->
  (exists a, runs body calls (Returns a) /\ res = Returns a)
  \/ (exists calls1 calls2,
        runs body calls1 Panics /\ runs handler calls2 res
        /\ calls = calls1 ++ calls2).
Proof.
  revert calls. induction body as [a| |c k IH]; intros calls H.
  - left. destruct H as [-> ->]. exists a. repeat split.
  - right. exists [], calls. repeat split. assumption.
  - destruct H as (r & calls' & -> & H).
    destruct (IH r calls' H) as [(a & H1 & ->)|(c1 & c2 & H1 & H2 & ->)].
    + left. exists a. split; [|reflexivity]. exists r, calls'. split; [reflexivity | assumption].
    + right. exists (c :: c1), c2. repeat split; [|assumption].
      exists r, c1. split; [reflexivity | assumption].
Qed.

Lemma sent_app (a b : list Call) : sent (a ++ b) = sent a ++ sent b.
Proof. apply flat_map_app. Qed.

Lemma mutations_app (a b : list Call) : mutations (a ++ b) = mutations a ++ mutations b.
Proof. apply List.filter_app. Qed.

(** Case analysis on the answers along a run. *)
Ltac run_cases :=
  repeat (match goal with
          | H : _ /\ _ |- _ => destruct H
          | H : exists _, _ |- _ => destruct H
          | r : Reply _ |- _ => destruct r
          | H : runs (if ?b then _ else _) _ _ |- _ => destruct b eqn:?
          | H : runs (match ?e with _ => _ end) _ _ |- _ => destruct e eqn:?
          | H : runs _ _ _ |- _ => progress (cbn in H)
          end; simplify_eq).

(** What a block that may [return] early leaves behind: nothing sent when
    it falls through or panics, [Errored: 1] sent and a non-nil error when
    it returns; no change of the file system in a dry run. *)
Definition block_spec {A : Type} (fm : FileMove) (calls : list Call)
    (res : Reply (Flow A)) : Prop :=
  (FileMove_DryRun fm = true -> mutations calls = [])
  /\ match res with
     | Returns (Return err) => sent calls = [errored1] /\ is_Some err
     | _ => sent calls = []
     end.

Definition move_spec (fm : FileMove) (calls : list Call)
    (res : Reply (option error)) : Prop :=
  (FileMove_DryRun fm = true -> mutations calls = [])
  /\ match res with
     | Panics => sent calls = []
     | Returns None => sent calls = [moved1]
     | Returns (Some _) => sent calls = [errored1]
     end.

Lemma ensureDestDir_spec fm destDir calls res :
  runs (ensureDestDir fm destDir) calls res -> block_spec fm calls res.
Proof.
  unfold ensureDestDir, block_spec, os_Stat, os_MkdirAll, fmt_Printf, send,
    mbind, mret, Prog_bind, Prog_ret.
  intros H. run_cases; cbn; split; try reflexivity; try discriminate; eauto.
Qed.

Lemma resolveCollision_spec fm destDir calls res :
  runs (resolveCollision fm destDir) calls res -> block_spec fm calls res.
Proof.
  unfold resolveCollision, block_spec, os_Stat, time_Now, fmt_Printf, send,
    mbind, mret, Prog_bind, Prog_ret.
  intros H. run_cases; cbn; split; try reflexivity; try discriminate; eauto.
Qed.

Lemma performMove_spec fm quiet final calls res :
  runs (performMove fm quiet final) calls res -> move_spec fm calls res.
Proof.
  unfold performMove, move_spec, os_Rename, fmt_Printf, send,
    mbind, mret, Prog_bind, Prog_ret.
  intros H. destruct quiet; run_cases; cbn; split; try reflexivity; try discriminate; eauto.
Qed.

Lemma moveFile_body_spec fm quiet calls res :
  runs (moveFile_body fm quiet) calls res -> move_spec fm calls res.
Proof.
  unfold moveFile_body. intros H.
  apply runs_bind in H as [(c1 & f1 & c2 & H1 & H2 & ->)|[H1 ->]];
    apply ensureDestDir_spec in H1 as [Hm1 Hs1].
  2: { split; assumption. }
  destruct f1 as [[]|err1].
  2: { destruct H2 as [-> ->]. rewrite app_nil_r. destruct Hs1 as [Hs1 [e ->]].
       split; assumption. }
  apply runs_bind in H2 as [(c3 & f2 & c4 & H3 & H4 & ->)|[H3 ->]];
    apply resolveCollision_spec in H3 as [Hm3 Hs3].
  2: { split; [intros Hd|]; rewrite ?mutations_app, ?sent_app, ?Hs1, ?Hs3;
         [rewrite Hm1, Hm3 by assumption|]; reflexivity. }
  destruct f2 as [final|err2].
  - apply performMove_spec in H4 as [Hm4 Hs4].
    split; [intros Hd|]; rewrite !mutations_app || rewrite !sent_app.
    + rewrite Hm1, Hm3, Hm4 by assumption. reflexivity.
    + rewrite Hs1, Hs3. exact Hs4.
  - destruct H4 as [-> ->]. rewrite app_nil_r. destruct Hs3 as [Hs3 [e ->]].
    split; [intros Hd|]; rewrite ?mutations_app, ?sent_app, ?Hs1, ?Hs3;
      [rewrite Hm1, Hm3 by assumption|]; reflexivity.
Qed.

(** Every run of [moveFile] returns (a panic of the body is trapped), sends
    exactly one update, [Moved: 1] or [Errored: 1], and the latter whenever
    it returns an error; in a dry run it makes no call that changes the
    file system. *)
Lemma moveFile_spec fm quiet calls res :
  runs (moveFile fm quiet) calls res ->
  (exists err, res = Returns err
               /\ (is_Some err -> sent calls = [errored1]))
  /\ (sent calls = [moved1] \/ sent calls = [errored1])
  /\ (FileMove_DryRun fm = true -> mutations calls = []).
Proof.
  unfold moveFile. intros H.
  apply runs_defer_recover in H as [(err & H & ->)|(c1 & c2 & H & Hh & ->)];
    apply moveFile_body_spec in H as [Hm Hs].
  - split; [exists err; split; [reflexivity|]|split; [|exact Hm]].
    + intros [e ->]. exact Hs.
    + destruct err; auto.
  - unfold recovered, fmt_Printf, send, mbind, mret, Prog_bind, Prog_ret in Hh.
    run_cases.
    rewrite sent_app, mutations_app, Hs. cbn.
    split; [exists None; split; [reflexivity|intros [e He]; discriminate He]|].
    split; [right; reflexivity|].
    intros Hd. rewrite (Hm Hd). reflexivity.
Qed.

(** Every program can run: each call has an answer. *)
Lemma runs_exist {A : Type} (p : Prog A) : exists calls res, runs p calls res.
Proof.
  induction p as [a| |c k IH].
  - exists [], (Returns a). split; reflexivity.
  - exists [], Panics. split; reflexivity.
  - assert (r : Answer c) by (destruct c; first [exact tt | exact Panics]).
    destruct (IH r) as (calls & res & H).
    exists (c :: calls), res, r, calls. split; [reflexivity | exact H].
Qed.

(** ** The worker pool *)

Definition one_outcome (u : ProgressUpdate) : Prop := u = moved1 \/ u = errored1.

(** [owes p k]: whatever the answers, [p] does not panic and still sends
    exactly [k] updates, each [Moved: 1] or [Errored: 1]. *)
Fixpoint owes {A : Type} (p : Prog A) (k : nat) : Prop :=
  match p with
  | Ret _ => k = 0
  | Panic => False
  | Vis c cont =>
      exists k', k = length (sent [c]) + k'
                 /\ Forall one_outcome (sent [c])
                 /\ forall r, owes (cont r) k'
  end.

Lemma owes_of_runs {A : Type} (p : Prog A) (k : nat) :
  (forall calls res,
      runs p calls res ->
      res <> Panics /\ length (sent calls) = k /\ Forall one_outcome (sent calls)) ->
  owes p k.
Proof.
  revert k. induction p as [a| |c cont IH]; intros k Hruns.
  - destruct (Hruns [] (Returns a)) as (_ & <- & _); [split|]; reflexivity.
  - destruct (Hruns [] Panics) as (H & _); [split; reflexivity|].
    destruct (H eq_refl).
  - assert (Hsub : forall r calls res,
               runs (cont r) calls res ->
               res <> Panics
               /\ length (sent [c]) + length (sent calls) = k
               /\ Forall one_outcome (sent [c])
               /\ Forall one_outcome (sent calls)).
    { intros r calls res H.
      destruct (Hruns (c :: calls) res) as (Hres & Hlen & Hall).
      { exists r, calls. split; [reflexivity | exact H]. }
      change (c :: calls) with ([c] ++ calls) in Hlen, Hall.
      rewrite sent_app in Hlen, Hall. rewrite length_app in Hlen.
      apply Forall_app in Hall as [H1 H2]. auto. }
    destruct (runs_exist (Vis c cont)) as (calls0 & res0 & r0 & calls0' & -> & H0).
    destruct (Hsub r0 calls0' res0 H0) as (_ & Hk & Hc & _).
    exists (length (sent calls0')). split; [lia|]. split; [exact Hc|].
    intros r. apply IH. intros calls res H.
    destruct (Hsub r calls res H) as (Hres & Hlen & _ & Hall).
    repeat split; [exact Hres | lia | exact Hall].
Qed.

Lemma moveFile_owes (fm : FileMove) (quiet : bool) : owes (moveFile fm quiet) 1.
Proof.
  apply owes_of_runs. intros calls res H.
  destruct (moveFile_spec fm quiet calls res H) as ((err & -> & _) & Hs & _).
  split; [discriminate|].
  destruct Hs as [-> | ->];
    (split; [reflexivity | constructor; [unfold one_outcome; auto | constructor]]).
Qed.

Definition worker_owes (w : Worker) (k : nat) : Prop :=
  match w with
  | Running p => owes p k
  | Receiving | Exited => k = 0
  end.

(** The updates the workers together still have to send. *)
Inductive owed : list Worker -> nat -> Prop :=
| owed_nil : owed [] 0
| owed_cons w ws d k : worker_owes w d -> owed ws k -> owed (w :: ws) (d + k).

Lemma owed_insert (ws : list Worker) (k i : nat) (w : Worker) :
  owed ws k -> ws !! i = Some w ->
  exists d rest,
    worker_owes w d /\ k = d + rest
    /\ forall w' d', worker_owes w' d' -> owed (<[i:=w']> ws) (d' + rest).
Proof.
  intros H. revert i. induction H as [|w0 ws d k Hw Hws IH]; intros i Hi.
  - discriminate Hi.
  - destruct i as [|i]; simpl in Hi.
    + injection Hi as ->. exists d, k. repeat split; [exact Hw|].
      intros w' d' Hw'. simpl. constructor; assumption.
    + destruct (IH i Hi) as (d1 & rest & Hd1 & -> & Hupd).
      exists d1, (d + rest). repeat split; [exact Hd1 | lia |].
      intros w' d' Hw'. simpl.
      replace (d' + (d + rest)) with (d + (d' + rest)) by lia.
      constructor; [exact Hw | apply Hupd; exact Hw'].
Qed.

Lemma owed_finished (ws : list Worker) (k : nat) :
  owed ws k -> Forall (fun w => w = Exited) ws -> k = 0.
Proof.
  induction 1 as [|w ws d k Hw Hws IH]; intros Hall; [reflexivity|].
  apply Forall_cons in Hall as [-> Hall]. simpl in Hw. rewrite Hw, IH; auto.
Qed.

Lemma workerCount_pos (cfg : Config) : 1 <= workerCount cfg.
Proof. unfold workerCount. destruct (Z.leb_spec (Workers cfg) 0); lia. Qed.

(** What holds of the pool all along, [n] being the number of planned moves
    handed to it. *)
Record pool_inv (cfg : Config) (n : nat) (s : Pool) : Prop := mk_pool_inv
  { inv_count :
      exists k, owed (workers s) k
                /\ length (todo s) + length (workQueue s) + k
                   + length (progressChan s) = n;
    inv_outcomes : Forall one_outcome (progressChan s);
    inv_closed : closed s = true -> todo s = [];
    inv_exited : Exited ∈ workers s -> closed s = true /\ workQueue s = [];
    inv_workers : length (workers s) = workerCount cfg }.

Lemma owed_repeat_Receiving (k : nat) : owed (repeat Receiving k) 0.
Proof.
  induction k as [|k IH]; simpl; [constructor|].
  change 0 with (0 + 0). constructor; [reflexivity | exact IH].
Qed.

Lemma pool_inv_start (cfg : Config) (plan : list FileMove) :
  pool_inv cfg (length plan) (pool_start cfg plan).
Proof.
  split; simpl.
  - exists 0. split; [apply owed_repeat_Receiving | lia].
  - constructor.
  - discriminate.
  - intros H. apply list_elem_of_In, repeat_spec in H. discriminate H.
  - apply repeat_length.
Qed.

Lemma Exited_insert (ws : list Worker) (i : nat) (w : Worker) :
  w <> Exited -> Exited ∈ <[i:=w]> ws -> Exited ∈ ws.
Proof.
  intros Hw H. apply list_elem_of_lookup in H as [j Hj].
  apply list_lookup_insert_Some in Hj as [(-> & -> & _)|[_ Hj]].
  - destruct (Hw eq_refl).
  - apply list_elem_of_lookup. eauto.
Qed.

Lemma pool_inv_step (cfg : Config) (n : nat) (s s' : Pool) :
  pool_inv cfg n s -> step cfg s s' -> pool_inv cfg n s'.
Proof.
  intros [(k & Hk & Hn) Hout Hcl Hex Hws] Hstep.
  destruct Hstep as [fm rest q ws out Hcap | q ws out | i fm rest q cl ws out Hi
                    | i c cont r rest q cl ws out Hi | i err rest q cl ws out Hi
                    | i rest ws out Hi]; simpl in *.
  - split; simpl; [|exact Hout|discriminate| |exact Hws].
    + exists k. split; [exact Hk|]. rewrite length_app. simpl. lia.
    + intros H. destruct (Hex H) as [H' _]. discriminate H'.
  - split; simpl; [|exact Hout|reflexivity| |exact Hws].
    + exists k. split; [exact Hk | exact Hn].
    + intros H. destruct (Hex H) as [H' _]. discriminate H'.
  - destruct (owed_insert ws k i Receiving Hk Hi) as (d & rest' & Hd & -> & Hupd).
    simpl in Hd. subst d.
    split; simpl; [|exact Hout|exact Hcl| |rewrite length_insert; exact Hws].
    + exists (1 + rest'). split; [apply Hupd, moveFile_owes | lia].
    + intros H. apply Exited_insert in H; [|discriminate].
      destruct (Hex H) as [_ H']. discriminate H'.
  - destruct (owed_insert ws k i _ Hk Hi) as (d & rest' & Hd & -> & Hupd).
    simpl in Hd. destruct Hd as (k' & -> & Hc & Hcont).
    split; simpl; [| |exact Hcl| |rewrite length_insert; exact Hws].
    + exists (k' + rest'). split; [apply Hupd, Hcont|].
      rewrite length_app. lia.
    + apply Forall_app. split; assumption.
    + intros H. apply Exited_insert in H; [auto | discriminate].
  - destruct (owed_insert ws k i _ Hk Hi) as (d & rest' & Hd & -> & Hupd).
    simpl in Hd. subst d.
    split; simpl; [|exact Hout|exact Hcl| |rewrite length_insert; exact Hws].
    + exists (0 + rest'). split; [apply Hupd; reflexivity | lia].
    + intros H. apply Exited_insert in H; [auto | discriminate].
  - destruct (owed_insert ws k i _ Hk Hi) as (d & rest' & Hd & -> & Hupd).
    simpl in Hd. subst d.
    split; simpl; [|exact Hout|exact Hcl| |rewrite length_insert; exact Hws].
    + exists (0 + rest'). split; [apply Hupd; reflexivity | lia].
    + intros _. split; reflexivity.
Qed.

Lemma pool_inv_reachable (cfg : Config) (plan : list FileMove) (s : Pool) :
  rtc (step cfg) (pool_start cfg plan) s -> pool_inv cfg (length plan) s.
Proof.
  intros H. revert s H.
  apply (rtc_ind_r (R := step cfg) (pool_inv cfg (length plan))
                   (pool_start cfg plan)).
  - apply pool_inv_start.
  - intros s1 s2 _ Hstep IH. eapply pool_inv_step; eassumption.
Qed.

Lemma collect_total (updates : list ProgressUpdate) :
  Forall one_outcome updates ->
  fst (collect updates) + snd (collect updates) = length updates.
Proof.
  unfold collect.
  assert (H : forall acc : nat * nat,
             Forall one_outcome updates ->
             let r := fold_left
                        (fun '(totalProcessed, totalErrors) update =>
                           (totalProcessed + Moved update,
                            totalErrors + Errored update)) updates acc in
             fst r + snd r = fst acc + snd acc + length updates).
  { induction updates as [|u l IH]; intros [m e] Hall; simpl; [lia|].
    apply Forall_cons in Hall as [Hu Hl].
    specialize (IH (m + Moved u, e + Errored u) Hl). simpl in IH.
    rewrite IH. destruct Hu as [-> | ->]; simpl; lia. }
  intros Hall. apply (H (0, 0) Hall).
Qed.

(** When the pool has finished, every planned move has been taken from the
    queue and has sent its update. *)
Lemma pool_finished (cfg : Config) (plan : list FileMove) (s : Pool) :
  rtc (step cfg) (pool_start cfg plan) s -> finished s ->
  todo s = [] /\ workQueue s = []
  /\ length (progressChan s) = length plan
  /\ Forall one_outcome (progressChan s).
Proof.
  intros Hreach Hfin.
  destruct (pool_inv_reachable cfg plan s Hreach)
    as [(k & Hk & Hn) Hout Hcl Hex Hws].
  pose proof (owed_finished _ _ Hk Hfin) as ->.
  assert (Hin : Exited ∈ workers s).
  { pose proof (workerCount_pos cfg) as Hpos. unfold finished in Hfin.
    destruct (workers s) as [|w ws]; [simpl in Hws; lia|].
    apply Forall_cons in Hfin as [-> _]. left. }
  destruct (Hex Hin) as [Hc Hq]. pose proof (Hcl Hc) as Ht.
  rewrite Ht, Hq in Hn. simpl in Hn. repeat split; auto.
Qed.

(** *** The pool always gets on, and it ends *)

(** The height of a program: the largest number of calls of a run. *)
Fixpoint height_le {A : Type} (p : Prog A) (h : nat) : Prop :=
  match p with
  | Ret _ | Panic => True
  | Vis c cont => exists h', h = S h' /\ forall r, height_le (cont r) h'
  end.

Lemma height_of_runs {A : Type} (p : Prog A) (h : nat) :
  (forall calls res, runs p calls res -> length calls <= h) -> height_le p h.
Proof.
  revert h. induction p as [a| |c cont IH]; intros h Hruns; simpl; [exact I..|].
  destruct (runs_exist (Vis c cont)) as (calls0 & res0 & H0).
  pose proof (Hruns calls0 res0 H0) as Hlen.
  destruct H0 as (r0 & calls0' & -> & _). simpl in Hlen.
  destruct h as [|h']; [lia|]. exists h'. split; [reflexivity|].
  intros r. apply IH. intros calls res H.
  assert (Hc : runs (Vis c cont) (c :: calls) res)
    by (exists r, calls; split; [reflexivity | exact H]).
  apply Hruns in Hc. simpl in Hc. lia.
Qed.

Lemma ensureDestDir_length fm destDir calls res :
  runs (ensureDestDir fm destDir) calls res -> length calls <= 3.
Proof.
  unfold ensureDestDir, os_Stat, os_MkdirAll, fmt_Printf, send,
    mbind, mret, Prog_bind, Prog_ret.
  intros H. run_cases; cbn; lia.
Qed.

Lemma resolveCollision_length fm destDir calls res :
  runs (resolveCollision fm destDir) calls res -> length calls <= 3.
Proof.
  unfold resolveCollision, os_Stat, time_Now, fmt_Printf, send,
    mbind, mret, Prog_bind, Prog_ret.
  intros H. run_cases; cbn; lia.
Qed.

Lemma performMove_length fm quiet final calls res :
  runs (performMove fm quiet final) calls res -> length calls <= 3.
Proof.
  unfold performMove, os_Rename, fmt_Printf, send,
    mbind, mret, Prog_bind, Prog_ret.
  intros H. destruct quiet; run_cases; cbn; lia.
Qed.

Lemma moveFile_body_length fm quiet calls res :
  runs (moveFile_body fm quiet) calls res -> length calls <= 9.
Proof.
  unfold moveFile_body. intros H.
  apply runs_bind in H as [(c1 & f1 & c2 & H1 & H2 & ->)|[H1 ->]];
    apply ensureDestDir_length in H1; [|lia].
  rewrite length_app. destruct f1 as [[]|err1]; [|destruct H2 as [-> _]; simpl; lia].
  apply runs_bind in H2 as [(c3 & f2 & c4 & H3 & H4 & ->)|[H3 ->]];
    apply resolveCollision_length in H3; [|lia].
  rewrite length_app. destruct f2 as [final|err2].
  - apply performMove_length in H4. lia.
  - destruct H4 as [-> _]. simpl. lia.
Qed.

(** [moveFile] makes at most eleven calls. *)
Lemma moveFile_height (fm : FileMove) (quiet : bool) :
  height_le (moveFile fm quiet) 11.
Proof.
  apply height_of_runs. intros calls res H. unfold moveFile in H.
  apply runs_defer_recover in H as [(err & H & ->)|(c1 & c2 & H & Hh & ->)];
    apply moveFile_body_length in H; [lia|].
  unfold recovered, fmt_Printf, send, mbind, mret, Prog_bind, Prog_ret in Hh.
  run_cases. rewrite length_app. simpl. lia.
Qed.

Global Instance Exited_dec (w : Worker) : Decision (w = Exited).
Proof. destruct w; [right | right | left]; congruence. Defined.

(** As long as a worker has not left its loop, some goroutine can take a
    step: the pool does not get stuck. *)
Lemma pool_progress (cfg : Config) (n : nat) (s : Pool) :
  pool_inv cfg n s -> ~ finished s -> exists s', step cfg s s'.
Proof.
  intros [(k & Hk & Hn) Hout Hcl Hex Hws] Hnot.
  apply not_Forall_Exists in Hnot; [|intros w; apply Exited_dec].
  apply Exists_exists in Hnot as (w & Hin & Hw). simpl in Hw.
  apply list_elem_of_lookup in Hin as [i Hi].
  destruct s as [rest q cl ws out]. simpl in *.
  destruct w as [|p|]; [| |destruct (Hw eq_refl)].
  - destruct q as [|fm q].
    + destruct cl.
      * eexists. apply (step_exit cfg i rest ws out Hi).
      * destruct rest as [|fm rest].
        -- eexists. apply step_close.
        -- eexists. apply step_dispatch. simpl.
           pose proof (workerCount_pos cfg). unfold capacity. lia.
    + eexists. apply (step_receive cfg i fm rest q cl ws out Hi).
  - destruct (owed_insert ws k i _ Hk Hi) as (d & rest' & Hd & _ & _).
    destruct p as [err| |c cont]; simpl in Hd; [| destruct Hd |].
    + eexists. apply (step_return cfg i err rest q cl ws out Hi).
    + assert (r : Answer c) by (destruct c; first [exact tt | exact Panics]).
      eexists. apply (step_call cfg i c cont r rest q cl ws out Hi).
Qed.

(** The steps a worker can still take by itself. *)
Definition worker_weight (w : Worker) (d : nat) : Prop :=
  match w with
  | Running p => exists h, height_le p h /\ d = 2 + h
  | Receiving => d = 1
  | Exited => d = 0
  end.

Inductive weighs : list Worker -> nat -> Prop :=
| weighs_nil : weighs [] 0
| weighs_cons w ws d k : worker_weight w d -> weighs ws k -> weighs (w :: ws) (d + k).

Lemma weighs_insert (ws : list Worker) (k i : nat) (w : Worker) :
  weighs ws k -> ws !! i = Some w ->
  exists d rest,
    worker_weight w d /\ k = d + rest
    /\ forall w' d', worker_weight w' d' -> weighs (<[i:=w']> ws) (d' + rest).
Proof.
  intros H. revert i. induction H as [|w0 ws d k Hw Hws IH]; intros i Hi.
  - discriminate Hi.
  - destruct i as [|i]; simpl in Hi.
    + injection Hi as ->. exists d, k. repeat split; [exact Hw|].
      intros w' d' Hw'. simpl. constructor; assumption.
    + destruct (IH i Hi) as (d1 & rest & Hd1 & -> & Hupd).
      exists d1, (d + rest). repeat split; [exact Hd1 | lia |].
      intros w' d' Hw'. simpl.
      replace (d' + (d + rest)) with (d + (d' + rest)) by lia.
      constructor; [exact Hw | apply Hupd; exact Hw'].
Qed.

(** A bound on the steps the pool can still take. *)
Definition steps_left (s : Pool) (m : nat) : Prop :=
  exists k, weighs (workers s) k
            /\ m = 14 * (length (todo s) + length (workQueue s))
                   + length (todo s) + k + (if closed s then 0 else 1).

Lemma steps_left_step (cfg : Config) (s s' : Pool) (m : nat) :
  steps_left s m -> step cfg s s' -> exists m', steps_left s' m' /\ m' < m.
Proof.
  intros (k & Hk & ->) Hstep.
  destruct Hstep as [fm rest q ws out Hcap | q ws out | i fm rest q cl ws out Hi
                    | i c cont r rest q cl ws out Hi | i err rest q cl ws out Hi
                    | i rest ws out Hi]; unfold steps_left; simpl in *.
  - eexists. split; [exists k; split; [exact Hk | reflexivity]|].
    rewrite length_app. simpl. lia.
  - eexists. split; [exists k; split; [exact Hk | reflexivity]|]. lia.
  - destruct (weighs_insert ws k i _ Hk Hi) as (d & rest' & Hd & -> & Hupd).
    simpl in Hd. subst d.
    eexists. split.
    + eexists. split; [|reflexivity].
      apply (Hupd _ (2 + 11)). exists 11. split; [apply moveFile_height | reflexivity].
    + lia.
  - destruct (weighs_insert ws k i _ Hk Hi) as (d & rest' & Hd & -> & Hupd).
    simpl in Hd. destruct Hd as (h & (h' & -> & Hcont) & ->).
    eexists. split.
    + eexists. split; [|reflexivity].
      apply (Hupd _ (2 + h')). exists h'. split; [apply Hcont | reflexivity].
    + lia.
  - destruct (weighs_insert ws k i _ Hk Hi) as (d & rest' & Hd & -> & Hupd).
    simpl in Hd. destruct Hd as (h & _ & ->).
    eexists. split.
    + eexists. split; [|reflexivity]. apply (Hupd Receiving 1). reflexivity.
    + lia.
  - destruct (weighs_insert ws k i _ Hk Hi) as (d & rest' & Hd & -> & Hupd).
    simpl in Hd. subst d.
    eexists. split.
    + eexists. split; [|reflexivity]. apply (Hupd Exited 0). reflexivity.
    + lia.
Qed.

Lemma weighs_repeat_Receiving (k : nat) : weighs (repeat Receiving k) k.
Proof.
  induction k as [|k IH]; simpl; [constructor|].
  change (S k) with (1 + k). constructor; [reflexivity | exact IH].
Qed.

(** No run of the pool is longer than this. *)
Definition pool_bound (cfg : Config) (plan : list FileMove) : nat :=
  15 * length plan + workerCount cfg + 1.

Lemma pool_terminates (cfg : Config) (plan : list FileMove) (k : nat) (s : Pool) :
  nsteps (step cfg) k (pool_start cfg plan) s -> k <= pool_bound cfg plan.
Proof.
  assert (H : forall k s0 s1 m,
             nsteps (step cfg) k s0 s1 -> steps_left s0 m -> k <= m).
  { clear. intros k s0 s1 m Hn. revert m.
    induction Hn as [|k s0 s1 s2 Hstep _ IH]; intros m Hm; [lia|].
    destruct (steps_left_step cfg s0 s1 m Hm Hstep) as (m' & Hm' & Hlt).
    specialize (IH m' Hm'). lia. }
  intros Hn. apply (H k _ _ _ Hn).
  exists (workerCount cfg). split; [apply weighs_repeat_Receiving|].
  unfold pool_bound. simpl. lia.
Qed.

(** ** [moveFile] on an operating system *)

Lemma exec_runs (sys : OS) {A : Type} (p : Prog A) (w : World sys) :
  runs p (snd (exec sys p w)) (fst (fst (exec sys p w))).
Proof.
  revert w. induction p as [a| |c k IH]; intros w; simpl; [split; reflexivity..|].
  destruct (answer sys c w) as [r w1]. specialize (IH r w1).
  destruct (exec sys (k r) w1) as [[res w2] calls]. simpl in *.
  exists r, calls. split; [reflexivity | exact IH].
Qed.

(** A run that makes no call that changes the file system leaves the
    world as it was. *)
Lemma exec_readonly (sys : OS) {A : Type} (p : Prog A) (w : World sys) :
  mutations (snd (exec sys p w)) = [] -> snd (fst (exec sys p w)) = w.
Proof.
  revert w. induction p as [a| |c k IH]; intros w; simpl; [reflexivity..|].
  destruct (answer sys c w) as [r w1] eqn:Ea. specialize (IH r w1).
  destruct (exec sys (k r) w1) as [[res w2] calls]. simpl in *.
  destruct c; simpl in *; try discriminate;
    injection Ea as <- <-; exact IH.
Qed.

Lemma exec_bind (sys : OS) {A B : Type} (p : Prog A) (f : A -> Prog B)
    (w : World sys) :
  exec sys (p ≫= f) w =
  match exec sys p w with
  | (Returns a, w1, calls1) =>
      let '(res, w2, calls2) := exec sys (f a) w1 in (res, w2, calls1 ++ calls2)
  | (Panics, w1, calls1) => (Panics, w1, calls1)
  end.
Proof.
  revert w. induction p as [a| |c k IH]; intros w.
  - change (exec sys (f a) w
            = let '(res, w2, calls2) := exec sys (f a) w in (res, w2, [] ++ calls2)).
    destruct (exec sys (f a) w) as [[res w2] calls2]. reflexivity.
  - reflexivity.
  - change (exec sys (Vis c (fun r => k r ≫= f)) w
            = match exec sys (Vis c k) w with
              | (Returns a, w1, calls1) =>
                  let '(res, w2, calls2) := exec sys (f a) w1 in
                  (res, w2, calls1 ++ calls2)
              | (Panics, w1, calls1) => (Panics, w1, calls1)
              end).
    simpl. destruct (answer sys c w) as [r w1]. rewrite IH.
    destruct (exec sys (k r) w1) as [[[a|] w2] calls1]; [|reflexivity].
    destruct (exec sys (f a) w2) as [[res w3] calls2]. reflexivity.
Qed.

Lemma exec_defer_recover (sys : OS) {A : Type} (handler body : Prog A)
    (w : World sys) :
  exec sys (defer_recover handler body) w =
  match exec sys body w with
  | (Returns a, w1, calls1) => (Returns a, w1, calls1)
  | (Panics, w1, calls1) =>
      let '(res, w2, calls2) := exec sys handler w1 in (res, w2, calls1 ++ calls2)
  end.
Proof.
  revert w. induction body as [a| |c k IH]; intros w; simpl.
  - reflexivity.
  - destruct (exec sys handler w) as [[res w2] calls2]. reflexivity.
  - destruct (answer sys c w) as [r w1]. rewrite IH.
    destruct (exec sys (k r) w1) as [[[a|] w2] calls1]; [reflexivity|].
    destruct (exec sys handler w2) as [[res w3] calls2]. reflexivity.
Qed.

(** The three blocks of [moveFile] on an operating system. *)
Lemma ensureDestDir_exec (sys : OS) (w : World sys) fm destDir :
  exec sys (ensureDestDir fm destDir) w =
  match sys_stat sys w destDir with
  | Panics => (Panics, w, [Stat destDir])
  | Returns err =>
      if os.IsNotExist err then
        if FileMove_DryRun fm then
          (Returns (Next tt), w,
           [Stat destDir; Printf (WouldCreateDirectory destDir)])
        else
          match sys_mkdirall sys w destDir 493 with
          | (Panics, w1) => (Panics, w1, [Stat destDir; MkdirAll destDir 493])
          | (Returns (Some e), w1) =>
              (Returns (Return (Some (Errorf ("failed to create destination directory '"
                                               +:+ destDir +:+ "'") e))),
               w1, [Stat destDir; MkdirAll destDir 493; Send errored1])
          | (Returns None, w1) =>
              (Returns (Next tt), w1,
               [Stat destDir; MkdirAll destDir 493;
                Printf (CreatedDirectory destDir)])
          end
      else (Returns (Next tt), w, [Stat destDir])
  end.
Proof.
  unfold ensureDestDir, os_Stat, os_MkdirAll, fmt_Printf, send,
    mbind, mret, Prog_bind, Prog_ret.
  cbn [bind exec answer unwrap].
  destruct (sys_stat sys w destDir) as [err|]; [|reflexivity].
  cbn [bind exec answer unwrap].
  destruct (os.IsNotExist err); [|reflexivity].
  destruct (FileMove_DryRun fm); [reflexivity|].
  cbn [bind exec answer unwrap].
  destruct (sys_mkdirall sys w destDir 493) as [[[e|]|] w1]; reflexivity.
Qed.

Lemma resolveCollision_exec (sys : OS) (w : World sys) fm destDir :
  exec sys (resolveCollision fm destDir) w =
  match sys_stat sys w (DestPath fm) with
  | Panics => (Panics, w, [Stat (DestPath fm)])
  | Returns None =>
      match sys_now sys w with
      | Panics => (Panics, w, [Stat (DestPath fm); Now])
      | Returns now =>
          let finalDestPath := timestamped (DestPath fm) destDir now in
          (Returns (Next finalDestPath), w,
           [Stat (DestPath fm); Now;
            Printf (CollisionRenaming (filepath.Base (DestPath fm))
                                      (filepath.Base finalDestPath))])
      end
  | Returns (Some e) =>
      if os.IsNotExist (Some e) then (Returns (Next (DestPath fm)), w, [Stat (DestPath fm)])
      else
        (Returns (Return (Some (Errorf ("error checking existence of '"
                                         +:+ DestPath fm +:+ "'") e))),
         w, [Stat (DestPath fm); Send errored1])
  end.
Proof.
  unfold resolveCollision, os_Stat, time_Now, fmt_Printf, send,
    mbind, mret, Prog_bind, Prog_ret.
  cbn [bind exec answer unwrap].
  destruct (sys_stat sys w (DestPath fm)) as [[e|]|]; [| |reflexivity].
  - cbn [bind exec answer unwrap].
    destruct (os.IsNotExist (Some e)); reflexivity.
  - cbn [bind exec answer unwrap].
    destruct (sys_now sys w) as [now|]; reflexivity.
Qed.

Lemma performMove_exec (sys : OS) (w : World sys) fm quiet finalDestPath :
  exec sys (performMove fm quiet finalDestPath) w =
  if FileMove_DryRun fm then
    (Returns None, w,
     (if quiet then [] else [Printf (WouldMove (SourcePath fm) finalDestPath)])
     ++ [Send moved1])
  else
    match sys_rename sys w (SourcePath fm) finalDestPath with
    | (Panics, w1) => (Panics, w1, [Rename (SourcePath fm) finalDestPath])
    | (Returns (Some e), w1) =>
        (Returns (Some (Errorf ("failed to move '" +:+ SourcePath fm +:+ "' to '"
                                 +:+ finalDestPath +:+ "'") e)),
         w1, [Rename (SourcePath fm) finalDestPath; Send errored1])
    | (Returns None, w1) =>
        (Returns None, w1,
         Rename (SourcePath fm) finalDestPath
         :: (if quiet then [] else [Printf (MovedLine (SourcePath fm) finalDestPath)])
         ++ [Send moved1])
    end.
Proof.
  unfold performMove, os_Rename, fmt_Printf, send,
    mbind, mret, Prog_bind, Prog_ret.
  destruct (FileMove_DryRun fm).
  - destruct quiet; reflexivity.
  - cbn [bind exec answer unwrap].
    destruct (sys_rename sys w (SourcePath fm) finalDestPath) as [[[e|]|] w1];
      try reflexivity.
    destruct quiet; reflexivity.
Qed.

(** [moveFile] on an operating system, block by block. *)
Lemma moveFile_exec (sys : OS) (w : World sys) fm quiet :
  exec sys (moveFile fm quiet) w =
  let destDir := filepath.Dir (DestPath fm) in
  let trapped := [Printf RecoveredFromPanic; Send errored1] in
  match exec sys (ensureDestDir fm destDir) w with
  | (Panics, w1, c1) => (Returns None, w1, c1 ++ trapped)
  | (Returns (Return err), w1, c1) => (Returns err, w1, c1)
  | (Returns (Next _), w1, c1) =>
      match exec sys (resolveCollision fm destDir) w1 with
      | (Panics, w2, c2) => (Returns None, w2, c1 ++ c2 ++ trapped)
      | (Returns (Return err), w2, c2) => (Returns err, w2, c1 ++ c2)
      | (Returns (Next finalDestPath), w2, c2) =>
          match exec sys (performMove fm quiet finalDestPath) w2 with
          | (Panics, w3, c3) => (Returns None, w3, c1 ++ c2 ++ c3 ++ trapped)
          | (Returns err, w3, c3) => (Returns err, w3, c1 ++ c2 ++ c3)
          end
      end
  end.
Proof.
  unfold moveFile, moveFile_body. rewrite exec_defer_recover, exec_bind.
  cbv zeta.
  destruct (exec sys (ensureDestDir fm (filepath.Dir (DestPath fm))) w)
    as [[[[[]|err1]|] w1] c1];
    [|cbn; rewrite ?app_nil_r; reflexivity..].
  rewrite exec_bind.
  destruct (exec sys (resolveCollision fm (filepath.Dir (DestPath fm))) w1)
    as [[[[final|err2]|] w2] c2];
    [|cbn; rewrite <- ?app_assoc, ?app_nil_r; reflexivity..].
  destruct (exec sys (performMove fm quiet final) w2) as [[[err3|] w3] c3];
    cbn; rewrite <- ?app_assoc; reflexivity.
Qed.

(** The paths through [moveFile], each with the update it sends. *)
Lemma moveFile_mkdir_failure (sys : OS) (w w1 : World sys) fm quiet err e :
  let destDir := filepath.Dir (DestPath fm) in
  FileMove_DryRun fm = false ->
  sys_stat sys w destDir = Returns err -> os.IsNotExist err = true ->
  sys_mkdirall sys w destDir 493 = (Returns (Some e), w1) ->
  exec sys (moveFile fm quiet) w
  = (Returns (Some (Errorf ("failed to create destination directory '"
                             +:+ destDir +:+ "'") e)),
     w1, [Stat destDir; MkdirAll destDir 493; Send errored1]).
Proof.
  intros destDir Hdry Hstat Hne Hmk.
  rewrite moveFile_exec. cbv zeta. rewrite ensureDestDir_exec. fold destDir.
  rewrite Hstat, Hne, Hdry, Hmk. reflexivity.
Qed.

Lemma moveFile_stat_failure (sys : OS) (w w1 : World sys) fm quiet calls1 e :
  let destDir := filepath.Dir (DestPath fm) in
  exec sys (ensureDestDir fm destDir) w = (Returns (Next tt), w1, calls1) ->
  sys_stat sys w1 (DestPath fm) = Returns (Some e) ->
  os.IsNotExist (Some e) = false ->
  exec sys (moveFile fm quiet) w
  = (Returns (Some (Errorf ("error checking existence of '"
                             +:+ DestPath fm +:+ "'") e)),
     w1, calls1 ++ [Stat (DestPath fm); Send errored1]).
Proof.
  intros destDir Hens Hstat Hne.
  rewrite moveFile_exec. cbv zeta. fold destDir.
  rewrite Hens, resolveCollision_exec, Hstat, Hne. reflexivity.
Qed.

Lemma moveFile_rename_failure (sys : OS) (w w1 w2 w3 : World sys) fm quiet
    calls1 calls2 final e :
  let destDir := filepath.Dir (DestPath fm) in
  exec sys (ensureDestDir fm destDir) w = (Returns (Next tt), w1, calls1) ->
  exec sys (resolveCollision fm destDir) w1 = (Returns (Next final), w2, calls2) ->
  FileMove_DryRun fm = false ->
  sys_rename sys w2 (SourcePath fm) final = (Returns (Some e), w3) ->
  exec sys (moveFile fm quiet) w
  = (Returns (Some (Errorf ("failed to move '" +:+ SourcePath fm +:+ "' to '"
                             +:+ final +:+ "'") e)),
     w3, calls1 ++ calls2 ++ [Rename (SourcePath fm) final; Send errored1]).
Proof.
  intros destDir Hens Hres Hdry Hren.
  rewrite moveFile_exec. cbv zeta. fold destDir.
  rewrite Hens, Hres, performMove_exec, Hdry, Hren. reflexivity.
Qed.

Lemma moveFile_renamed (sys : OS) (w w1 w2 w3 : World sys) fm quiet
    calls1 calls2 final :
  let destDir := filepath.Dir (DestPath fm) in
  exec sys (ensureDestDir fm destDir) w = (Returns (Next tt), w1, calls1) ->
  exec sys (resolveCollision fm destDir) w1 = (Returns (Next final), w2, calls2) ->
  FileMove_DryRun fm = false ->
  sys_rename sys w2 (SourcePath fm) final = (Returns None, w3) ->
  exec sys (moveFile fm quiet) w
  = (Returns None, w3,
     calls1 ++ calls2
     ++ Rename (SourcePath fm) final
        :: (if quiet then [] else [Printf (MovedLine (SourcePath fm) final)])
        ++ [Send moved1]).
Proof.
  intros destDir Hens Hres Hdry Hren.
  rewrite moveFile_exec. cbv zeta. fold destDir.
  rewrite Hens, Hres, performMove_exec, Hdry, Hren. reflexivity.
Qed.

Lemma moveFile_simulated (sys : OS) (w w1 w2 : World sys) fm quiet
    calls1 calls2 final :
  let destDir := filepath.Dir (DestPath fm) in
  exec sys (ensureDestDir fm destDir) w = (Returns (Next tt), w1, calls1) ->
  exec sys (resolveCollision fm destDir) w1 = (Returns (Next final), w2, calls2) ->
  FileMove_DryRun fm = true ->
  exec sys (moveFile fm quiet) w
  = (Returns None, w2,
     calls1 ++ calls2
     ++ (if quiet then [] else [Printf (WouldMove (SourcePath fm) final)])
     ++ [Send moved1]).
Proof.
  intros destDir Hens Hres Hdry.
  rewrite moveFile_exec. cbv zeta. fold destDir.
  rewrite Hens, Hres, performMove_exec, Hdry. reflexivity.
Qed.

Lemma moveFile_trapped_panic (sys : OS) (w w1 : World sys) fm quiet calls1 :
  exec sys (moveFile_body fm quiet) w = (Panics, w1, calls1) ->
  exec sys (moveFile fm quiet) w
  = (Returns None, w1, calls1 ++ [Printf RecoveredFromPanic; Send errored1])
  /\ sent calls1 = [].
Proof.
  intros Hbody. unfold moveFile. rewrite exec_defer_recover, Hbody.
  split; [reflexivity|].
  pose proof (exec_runs sys (moveFile_body fm quiet) w) as Hruns.
  rewrite Hbody in Hruns. apply moveFile_body_spec in Hruns as [_ Hs]. exact Hs.
Qed.

(** C1. [moveFile] sends exactly one update per planned move, [Moved: 1] or
    [Errored: 1], on every path.  This holds of every run, whatever the
    file system answers and wherever a call panics: the run returns, and it
    has sent one update, [Errored: 1] when it returns an error.  On an
    operating system the paths are: a failed creation of the directory, a
    failed check of the target and a failed rename send [Errored: 1]; the
    simulation of a dry run and a rename that succeeded send [Moved: 1]; a
    trapped panic sends [Errored: 1].  So when the pool has finished
    ([wg.Wait()] returns), the totals of the collector add up to the number
    of planned moves dispatched; the pool cannot get stuck before, and it
    finishes within [pool_bound] steps. *)
Theorem C1_one_outcome_per_move :
  (forall fm quiet calls res,
      runs (moveFile fm quiet) calls res ->
      (exists err, res = Returns err /\ (is_Some err -> sent calls = [errored1]))
      /\ (sent calls = [moved1] \/ sent calls = [errored1]))
  /\ (forall (sys : OS) (w : World sys) fm quiet,
        let '(res, _, calls) := exec sys (moveFile fm quiet) w in
        (exists err, res = Returns err)
        /\ (sent calls = [moved1] \/ sent calls = [errored1]))
  /\ (forall (sys : OS) (w w1 : World sys) fm quiet err e,
        FileMove_DryRun fm = false ->
        sys_stat sys w (filepath.Dir (DestPath fm)) = Returns err ->
        os.IsNotExist err = true ->
        sys_mkdirall sys w (filepath.Dir (DestPath fm)) 493 = (Returns (Some e), w1) ->
        sent (snd (exec sys (moveFile fm quiet) w)) = [errored1])
  /\ (forall (sys : OS) (w w1 : World sys) fm quiet calls1 e,
        exec sys (ensureDestDir fm (filepath.Dir (DestPath fm))) w
        = (Returns (Next tt), w1, calls1) ->
        sys_stat sys w1 (DestPath fm) = Returns (Some e) ->
        os.IsNotExist (Some e) = false ->
        sent (snd (exec sys (moveFile fm quiet) w)) = [errored1])
  /\ (forall (sys : OS) (w w1 w2 w3 : World sys) fm quiet calls1 calls2 final e,
        exec sys (ensureDestDir fm (filepath.Dir (DestPath fm))) w
        = (Returns (Next tt), w1, calls1) ->
        exec sys (resolveCollision fm (filepath.Dir (DestPath fm))) w1
        = (Returns (Next final), w2, calls2) ->
        FileMove_DryRun fm = false ->
        sys_rename sys w2 (SourcePath fm) final = (Returns (Some e), w3) ->
        sent (snd (exec sys (moveFile fm quiet) w)) = [errored1])
  /\ (forall (sys : OS) (w w1 w2 : World sys) fm quiet calls1 calls2 final,
        exec sys (ensureDestDir fm (filepath.Dir (DestPath fm))) w
        = (Returns (Next tt), w1, calls1) ->
        exec sys (resolveCollision fm (filepath.Dir (DestPath fm))) w1
        = (Returns (Next final), w2, calls2) ->
        FileMove_DryRun fm = true ->
        sent (snd (exec sys (moveFile fm quiet) w)) = [moved1])
  /\ (forall (sys : OS) (w w1 w2 w3 : World sys) fm quiet calls1 calls2 final,
        exec sys (ensureDestDir fm (filepath.Dir (DestPath fm))) w
        = (Returns (Next tt), w1, calls1) ->
        exec sys (resolveCollision fm (filepath.Dir (DestPath fm))) w1
        = (Returns (Next final), w2, calls2) ->
        FileMove_DryRun fm = false ->
        sys_rename sys w2 (SourcePath fm) final = (Returns None, w3) ->
        sent (snd (exec sys (moveFile fm quiet) w)) = [moved1])
  /\ (forall (sys : OS) (w w1 : World sys) fm quiet calls1,
        exec sys (moveFile_body fm quiet) w = (Panics, w1, calls1) ->
        sent (snd (exec sys (moveFile fm quiet) w)) = [errored1])
  /\ (forall cfg plan s,
        rtc (step cfg) (pool_start cfg plan) s -> finished s ->
        let '(totalMoved, totalErrored) := collect (progressChan s) in
        totalMoved + totalErrored = length plan)
  /\ (forall cfg plan s,
        rtc (step cfg) (pool_start cfg plan) s -> ~ finished s ->
        exists s', step cfg s s')
  /\ (forall cfg plan k s,
        nsteps (step cfg) k (pool_start cfg plan) s -> k <= pool_bound cfg plan).
Proof.
  assert (Hsent : forall c1 c2 x,
             sent c1 = [] -> sent c2 = [] -> sent (c1 ++ c2 ++ x) = sent x).
  { intros c1 c2 x H1 H2. rewrite !sent_app, H1, H2. reflexivity. }
  assert (Hblock1 : forall (sys : OS) (w w1 : World sys) fm d c1 (a : unit),
             exec sys (ensureDestDir fm d) w = (Returns (Next a), w1, c1) ->
             sent c1 = []).
  { intros sys w w1 fm d c1 a H.
    pose proof (exec_runs sys (ensureDestDir fm d) w) as Hr. rewrite H in Hr.
    apply ensureDestDir_spec in Hr as [_ Hs]. exact Hs. }
  assert (Hblock2 : forall (sys : OS) (w w1 : World sys) fm d c1 final,
             exec sys (resolveCollision fm d) w = (Returns (Next final), w1, c1) ->
             sent c1 = []).
  { intros sys w w1 fm d c1 final H.
    pose proof (exec_runs sys (resolveCollision fm d) w) as Hr. rewrite H in Hr.
    apply resolveCollision_spec in Hr as [_ Hs]. exact Hs. }
  repeat lazymatch goal with |- _ /\ _ => split end.
  - intros fm quiet calls res H.
    destruct (moveFile_spec fm quiet calls res H) as (H1 & H2 & _). auto.
  - intros sys w fm quiet.
    pose proof (exec_runs sys (moveFile fm quiet) w) as H.
    destruct (exec sys (moveFile fm quiet) w) as [[res w'] calls]. simpl in H.
    destruct (moveFile_spec fm quiet calls res H) as ((err & -> & _) & H2 & _).
    eauto.
  - intros sys w w1 fm quiet err e Hdry Hstat Hne Hmk.
    rewrite (moveFile_mkdir_failure sys w w1 fm quiet err e Hdry Hstat Hne Hmk).
    reflexivity.
  - intros sys w w1 fm quiet calls1 e Hens Hstat Hne.
    rewrite (moveFile_stat_failure sys w w1 fm quiet calls1 e Hens Hstat Hne).
    cbn [snd]. rewrite sent_app, (Hblock1 _ _ _ _ _ _ _ Hens). reflexivity.
  - intros sys w w1 w2 w3 fm quiet calls1 calls2 final e Hens Hres Hdry Hren.
    rewrite (moveFile_rename_failure sys w w1 w2 w3 fm quiet calls1 calls2 final e
               Hens Hres Hdry Hren).
    cbn [snd]. rewrite Hsent; eauto.
  - intros sys w w1 w2 fm quiet calls1 calls2 final Hens Hres Hdry.
    rewrite (moveFile_simulated sys w w1 w2 fm quiet calls1 calls2 final
               Hens Hres Hdry).
    cbn [snd]. rewrite Hsent; eauto. destruct quiet; reflexivity.
  - intros sys w w1 w2 w3 fm quiet calls1 calls2 final Hens Hres Hdry Hren.
    rewrite (moveFile_renamed sys w w1 w2 w3 fm quiet calls1 calls2 final
               Hens Hres Hdry Hren).
    cbn [snd]. rewrite Hsent; eauto. destruct quiet; reflexivity.
  - intros sys w w1 fm quiet calls1 Hbody.
    destruct (moveFile_trapped_panic sys w w1 fm quiet calls1 Hbody) as [-> Hs].
    cbn [snd]. rewrite sent_app, Hs. reflexivity.
  - intros cfg plan s Hreach Hfin.
    destruct (pool_finished cfg plan s Hreach Hfin) as (_ & _ & Hlen & Hall).
    pose proof (collect_total _ Hall) as Htot.
    destruct (collect (progressChan s)) as [m e]. simpl in Htot. lia.
  - intros cfg plan s Hreach Hnot.
    eapply pool_progress; [apply pool_inv_reachable; exact Hreach | exact Hnot].
  - intros cfg plan k s. apply pool_terminates.
Qed.

(** ** Paths: [Base] and [Dir] of a joined path, and the time-stamped name *)

Lemma app_cons (c : ascii) (a b : string) :
  String c a +:+ b = String c (a +:+ b).
Proof. reflexivity. Qed.

Lemma app_length_string (a b : string) :
  String.length (a +:+ b) = String.length a + String.length b.
Proof.
  induction a as [|c a IH]; [reflexivity|].
  rewrite app_cons. simpl. f_equal. exact IH.
Qed.

Lemma app_assoc_string (a b c : string) : (a +:+ b) +:+ c = a +:+ (b +:+ c).
Proof.
  induction a as [|x a IH]; [reflexivity|].
  rewrite !app_cons. f_equal. exact IH.
Qed.

Lemma app_empty_r (a : string) : a +:+ "" = a.
Proof.
  induction a as [|x a IH]; [reflexivity|].
  rewrite app_cons. f_equal. exact IH.
Qed.

Lemma chars_app (a b : string) :
  list_ascii_of_string (a +:+ b)
  = list_ascii_of_string a ++ list_ascii_of_string b.
Proof.
  induction a as [|c a IH]; [reflexivity|].
  rewrite app_cons. simpl. f_equal. exact IH.
Qed.

Lemma has_separator_app (a b : string) :
  has_separator (a +:+ b) = has_separator a || has_separator b.
Proof.
  induction a as [|c a IH]; [reflexivity|].
  rewrite app_cons. simpl. rewrite IH, orb_assoc. reflexivity.
Qed.

Lemma has_separator_chars (s : string) :
  has_separator s = false
  <-> Forall (fun c => filepath.IsPathSeparator c = false) (list_ascii_of_string s).
Proof.
  induction s as [|c s IH]; simpl.
  - split; [constructor | reflexivity].
  - rewrite orb_false_iff, IH, Forall_cons. reflexivity.
Qed.

Lemma has_separator_of_chars (l : list ascii) :
  Forall (fun c => filepath.IsPathSeparator c = false) l ->
  has_separator (string_of_list_ascii l) = false.
Proof.
  intros H. apply has_separator_chars.
  rewrite list_ascii_of_string_of_list_ascii. exact H.
Qed.

Lemma string_of_chars_app (a b : list ascii) :
  string_of_list_ascii (a ++ b)
  = string_of_list_ascii a +:+ string_of_list_ascii b.
Proof.
  induction a as [|c a IH]; [reflexivity|].
  simpl. rewrite app_cons. f_equal. exact IH.
Qed.

(** The last element is read off a suffix without separator. *)
Lemma last_elem_name (l rest : list ascii) (acc : string) :
  Forall (fun c => filepath.IsPathSeparator c = false) l ->
  filepath.last_elem (l ++ rest) acc
  = filepath.last_elem rest (string_of_list_ascii (rev l) +:+ acc).
Proof.
  revert acc. induction l as [|c l IH]; intros acc Hl; simpl; [reflexivity|].
  apply Forall_cons in Hl as [Hc Hl]. rewrite Hc, (IH _ Hl).
  f_equal. rewrite string_of_chars_app, app_assoc_string. reflexivity.
Qed.

Lemma upto_last_sep_name (l rest : list ascii) :
  Forall (fun c => filepath.IsPathSeparator c = false) l ->
  filepath.upto_last_sep (l ++ rest) = filepath.upto_last_sep rest.
Proof.
  induction l as [|c l IH]; intros Hl; simpl; [reflexivity|].
  apply Forall_cons in Hl as [Hc Hl]. rewrite Hc. apply IH, Hl.
Qed.

(** A directory prefix: empty, or ending in a separator. *)
Definition dir_prefix (p : string) : Prop := p = "" \/ exists q, p = q +:+ "/".

Lemma dir_prefix_chars (p : string) :
  dir_prefix p ->
  rev (list_ascii_of_string p) = []
  \/ exists l, rev (list_ascii_of_string p) = "/"%char :: l.
Proof.
  intros [->|[q ->]]; [left; reflexivity|right].
  rewrite chars_app, rev_app_distr. simpl. eauto.
Qed.

Lemma Base_prefix_name (p e : string) :
  dir_prefix p -> e <> "" -> has_separator e = false ->
  filepath.Base (p +:+ e) = e.
Proof.
  intros Hp He Hs. unfold filepath.Base.
  destruct (String.eqb_spec (p +:+ e) "") as [H0|_].
  { apply (f_equal String.length) in H0. rewrite app_length_string in H0.
    destruct e; [destruct (He eq_refl) | simpl in H0; lia]. }
  rewrite chars_app, rev_app_distr.
  pose proof (proj1 (has_separator_chars e) Hs) as Hall.
  apply List.Forall_rev in Hall.
  destruct (rev (list_ascii_of_string e)) as [|c l] eqn:E.
  { apply (f_equal (@rev ascii)) in E. rewrite rev_involutive in E.
    destruct e; [destruct (He eq_refl) | discriminate E]. }
  pose proof Hall as Hall'. apply Forall_cons in Hall' as [Hc _].
  simpl filepath.strip_seps. rewrite Hc.
  change ((c :: l) ++ rev (list_ascii_of_string p))
    with (c :: (l ++ rev (list_ascii_of_string p))).
  change (c :: (l ++ rev (list_ascii_of_string p)))
    with ((c :: l) ++ rev (list_ascii_of_string p)).
  rewrite (last_elem_name (c :: l) _ "" Hall), <- E, rev_involutive.
  rewrite string_of_list_ascii_of_string, app_empty_r.
  destruct (dir_prefix_chars p Hp) as [-> | [l' ->]]; reflexivity.
Qed.

Lemma Dir_prefix_name (p e : string) :
  dir_prefix p -> has_separator e = false ->
  filepath.Dir (p +:+ e) = filepath.Clean p.
Proof.
  intros Hp Hs. unfold filepath.Dir.
  rewrite chars_app, rev_app_distr.
  pose proof (proj1 (has_separator_chars e) Hs) as Hall.
  apply List.Forall_rev in Hall.
  rewrite (upto_last_sep_name _ _ Hall).
  assert (H : filepath.upto_last_sep (rev (list_ascii_of_string p))
              = rev (list_ascii_of_string p)).
  { destruct (dir_prefix_chars p Hp) as [-> | [l' ->]]; reflexivity. }
  rewrite H, rev_involutive, string_of_list_ascii_of_string. reflexivity.
Qed.

Lemma concat_snoc (l : list string) (e : string) :
  String.concat "/" (l ++ [e])
  = match l with
    | [] => e
    | _ => String.concat "/" l +:+ String "/" e
    end.
Proof.
  induction l as [|x [|y l] IH]; [reflexivity..|].
  change ((x :: y :: l) ++ [e]) with (x :: y :: (l ++ [e])).
  rewrite !concat_cons2. change (y :: l ++ [e]) with ((y :: l) ++ [e]).
  rewrite IH, app_assoc_string. reflexivity.
Qed.

(** What stands before the last element in the string for a stack. *)
Definition before_last (r : bool) (out : list string) : string :=
  match out with
  | [] => if r then "/" else ""
  | _ => render r out +:+ "/"
  end.

Lemma render_nonempty (r : bool) (out : list string) : render r out <> "".
Proof.
  unfold render. destruct r; [discriminate|].
  destruct (String.eqb_spec (strings.Join (rev out) "/") ""); [discriminate|].
  assumption.
Qed.

Lemma before_last_prefix (r : bool) (out : list string) :
  dir_prefix (before_last r out).
Proof.
  destruct out as [|e out]; simpl.
  - destruct r; [right; exists ""; reflexivity | left; reflexivity].
  - right. eauto.
Qed.

Lemma render_cons (r : bool) (e : string) (out : list string) :
  clean_out r (e :: out) -> render r (e :: out) = before_last r out +:+ e.
Proof.
  intros Hout. pose proof Hout as (He & _ & _ & _ & Hbelow).
  unfold render, strings.Join. simpl rev. rewrite concat_snoc.
  destruct out as [|e' out'].
  - simpl. destruct r; [reflexivity|].
    destruct (String.eqb_spec e ""); [contradiction | reflexivity].
  - assert (Hne : rev (e' :: out') <> []).
    { intros H. apply (f_equal (@length string)) in H.
      rewrite length_rev in H. discriminate H. }
    destruct (rev (e' :: out')) as [|x l] eqn:E; [destruct (Hne eq_refl)|].
    pose proof (clean_out_names r _ Hbelow) as Hnames.
    apply List.Forall_rev in Hnames. rewrite E in Hnames.
    apply Forall_cons in Hnames as [[Hx Hs] _].
    destruct (concat_head x l Hx Hs) as [Hbody _].
    unfold before_last, render, strings.Join. rewrite E.
    destruct r.
    + change ("/" +:+ String.concat "/" (x :: l) +:+ String "/" e)
        with (String "/" (String.concat "/" (x :: l) +:+ String "/" e)).
      change ("/" +:+ String.concat "/" (x :: l))
        with (String "/" (String.concat "/" (x :: l))).
      rewrite !app_cons, app_assoc_string. reflexivity.
    + destruct (String.eqb_spec (String.concat "/" (x :: l)) "");
        [contradiction|].
      destruct (String.eqb_spec (String.concat "/" (x :: l) +:+ String "/" e) "")
        as [H0|_].
      { apply (f_equal String.length) in H0.
        rewrite app_length_string in H0. simpl in H0. lia. }
      rewrite app_assoc_string. reflexivity.
Qed.

Lemma Clean_trailing_separator (x : string) :
  x <> "" -> filepath.Clean (x +:+ "/") = filepath.Clean x.
Proof.
  intros Hx. rewrite !Clean_render.
  assert (Hr : filepath.rooted (x +:+ "/") = filepath.rooted x)
    by (destruct x; [destruct (Hx eq_refl) | reflexivity]).
  rewrite Hr, SplitSlash_sep, fold_left_app. reflexivity.
Qed.

Lemma Clean_before_last (r : bool) (out : list string) :
  clean_out r out -> filepath.Clean (before_last r out) = render r out.
Proof.
  intros Hout. destruct out as [|e out].
  - destruct r; reflexivity.
  - unfold before_last.
    rewrite Clean_trailing_separator by apply render_nonempty.
    rewrite Clean_render.
    destruct (render_clean r (e :: out) Hout) as [-> ->]. reflexivity.
Qed.

(** The base name and the directory of the path of an entry. *)
Lemma Join_entry_parts (dir name : string) :
  entry_name name = true -> dir <> "" ->
  filepath.Base (filepath.Join [dir; name]) = name
  /\ filepath.Dir (filepath.Join [dir; name]) = filepath.Clean dir.
Proof.
  intros Hname Hdir. rewrite (Join_entry dir name Hname Hdir).
  destruct (entry_name_spec name Hname) as (Hn & Hs & Hdot & Hdd).
  set (r := filepath.rooted dir).
  set (out := fold_left (filepath.clean_step r) (strings.SplitSlash dir) []).
  assert (Hout : clean_out r out) by apply Clean_out.
  assert (Hout' : clean_out r (name :: out)).
  { simpl. repeat split; try assumption; contradiction. }
  rewrite (render_cons r name out Hout'). split.
  - apply Base_prefix_name; [apply before_last_prefix | assumption..].
  - rewrite Dir_prefix_name; [|apply before_last_prefix | assumption].
    rewrite (Clean_before_last r out Hout). symmetry. apply Clean_render.
Qed.

(** *** The time-stamped name *)

Lemma digit_no_separator (n : nat) :
  filepath.IsPathSeparator (time.digit n) = false.
Proof.
  unfold time.digit.
  assert (Hlt : n mod 10 < 10) by (apply Nat.mod_upper_bound; discriminate).
  generalize dependent (n mod 10). intros m Hlt.
  do 10 (destruct m as [|m]; [reflexivity|]). lia.
Qed.

Lemma digits_no_separator (fuel n : nat) (acc : string) :
  has_separator acc = false -> has_separator (time.digits fuel n acc) = false.
Proof.
  revert n acc. induction fuel as [|fuel IH]; intros n acc Hacc;
    cbn [time.digits]; [exact Hacc|].
  assert (Hd : has_separator (String (time.digit n) acc) = false).
  { cbn [has_separator]. rewrite Hacc, digit_no_separator. reflexivity. }
  destruct (n / 10 =? 0)%nat; [exact Hd | apply IH, Hd].
Qed.

Lemma zeros_spec (k : nat) (s : string) :
  has_separator (time.zeros k s) = has_separator s
  /\ String.length (time.zeros k s) = k + String.length s.
Proof.
  induction k as [|k [IH1 IH2]]; simpl; [split; reflexivity|].
  rewrite IH1, IH2. split; reflexivity.
Qed.

Lemma appendInt_spec (x width : nat) :
  has_separator (time.appendInt x width) = false
  /\ width <= String.length (time.appendInt x width).
Proof.
  unfold time.appendInt.
  destruct (zeros_spec (width - String.length (time.digits (S x) x ""))
                       (time.digits (S x) x "")) as [-> ->].
  split; [apply digits_no_separator; reflexivity | lia].
Qed.

Lemma Format_spec (t : time.Time) :
  has_separator (time.Format_20060102_150405 t) = false
  /\ 15 <= String.length (time.Format_20060102_150405 t).
Proof.
  unfold time.Format_20060102_150405.
  rewrite !has_separator_app, !app_length_string.
  destruct (appendInt_spec (time.Year t) 4) as [-> ?].
  destruct (appendInt_spec (time.Month t) 2) as [-> ?].
  destruct (appendInt_spec (time.Day t) 2) as [-> ?].
  destruct (appendInt_spec (time.Hour t) 2) as [-> ?].
  destruct (appendInt_spec (time.Minute t) 2) as [-> ?].
  destruct (appendInt_spec (time.Second t) 2) as [-> ?].
  split; [reflexivity | simpl; lia].
Qed.

(** A time of the calendar is printed with exactly fourteen digits. *)
Lemma Format_length (t : time.Time) :
  time.Year t < 100 * 100 -> time.Month t < 100 -> time.Day t < 100 ->
  time.Hour t < 100 -> time.Minute t < 100 -> time.Second t < 100 ->
  String.length (time.Format_20060102_150405 t) = 15.
Proof.
  assert (H4 : forall n, n < 100 * 100 -> String.length (time.appendInt n 4) = 4).
  { assert (H : forallb (fun n => String.length (time.appendInt n 4) =? 4)
                        (seq 0 (100 * 100)) = true) by (vm_compute; reflexivity).
    rewrite forallb_forall in H. intros n Hn.
    apply Nat.eqb_eq, H, in_seq. lia. }
  assert (H2 : forall n, n < 100 -> String.length (time.appendInt n 2) = 2).
  { assert (H : forallb (fun n => String.length (time.appendInt n 2) =? 2)
                        (seq 0 100) = true) by (vm_compute; reflexivity).
    rewrite forallb_forall in H. intros n Hn.
    apply Nat.eqb_eq, H, in_seq. lia. }
  intros. unfold time.Format_20060102_150405.
  rewrite !app_length_string, H4, !H2 by assumption. reflexivity.
Qed.

Lemma substring_spec (s : string) :
  forall n m,
    (has_separator s = false -> has_separator (substring n m s) = false)
    /\ (n = 0 -> m <= String.length s -> String.length (substring n m s) = m).
Proof.
  induction s as [|c s IH]; intros n m.
  - destruct n, m; simpl; split; auto; intros; lia.
  - destruct n as [|n].
    + destruct m as [|m]; simpl; [split; auto|].
      destruct (IH 0 m) as [IH1 IH2]. split.
      * intros H. apply orb_false_iff in H as [Hc Hs]. rewrite Hc, (IH1 Hs).
        reflexivity.
      * intros _ Hm. rewrite IH2; [reflexivity | reflexivity | lia].
    + simpl. destruct (IH n m) as [IH1 _]. split; [|discriminate].
      intros H. apply orb_false_iff in H as [_ Hs]. exact (IH1 Hs).
Qed.

Lemma TrimSuffix_spec (s suffix : string) :
  (has_separator s = false -> has_separator (strings.TrimSuffix s suffix) = false)
  /\ String.length s
     <= String.length (strings.TrimSuffix s suffix) + String.length suffix.
Proof.
  unfold strings.TrimSuffix, strings.HasSuffix.
  destruct (String.length suffix <=? String.length s)%nat eqn:Hle; simpl;
    [|split; [auto | lia]].
  apply Nat.leb_le in Hle.
  destruct (String.eqb _ suffix); [|split; [auto | lia]].
  destruct (substring_spec s 0 (String.length s - String.length suffix))
    as [H1 H2].
  split; [exact H1|]. rewrite H2; [lia | reflexivity | lia].
Qed.

Lemma ext_loop_no_separator (before : list ascii) (suffix : string) :
  has_separator suffix = false ->
  has_separator (filepath.ext_loop before suffix) = false.
Proof.
  revert suffix. induction before as [|c before IH]; intros suffix Hs; simpl;
    [reflexivity|].
  destruct (filepath.IsPathSeparator c) eqn:Hc; [reflexivity|].
  destruct (Ascii.eqb c "."); [simpl; rewrite Hc; exact Hs|].
  apply IH. simpl. rewrite Hc. exact Hs.
Qed.

Lemma Ext_no_separator (path : string) : has_separator (filepath.Ext path) = false.
Proof. apply ext_loop_no_separator. reflexivity. Qed.

Lemma last_elem_no_separator (before : list ascii) (suffix : string) :
  has_separator suffix = false ->
  has_separator (filepath.last_elem before suffix) = false.
Proof.
  revert suffix. induction before as [|c before IH]; intros suffix Hs; simpl;
    [exact Hs|].
  destruct (filepath.IsPathSeparator c) eqn:Hc; [exact Hs|].
  apply IH. simpl. rewrite Hc. exact Hs.
Qed.

(** The base name of a path has no separator, unless the path consists of
    separators only. *)
Lemma Base_no_separator (path : string) :
  filepath.Base path <> "/" -> has_separator (filepath.Base path) = false.
Proof.
  unfold filepath.Base. destruct (String.eqb path ""); [reflexivity|].
  destruct (filepath.strip_seps (rev (list_ascii_of_string path)));
    [intros H; destruct (H eq_refl)|].
  intros _. apply last_elem_no_separator. reflexivity.
Qed.

(** Lines 146-149: the new name, by itself. *)
Definition stamped_name (destPath : string) (now : time.Time) : string :=
  strings.TrimSuffix (filepath.Base destPath) (filepath.Ext destPath)
  +:+ "_" +:+ time.Format_20060102_150405 now +:+ filepath.Ext destPath.

Lemma stamped_name_entry (destPath : string) (now : time.Time) :
  filepath.Base destPath <> "/" ->
  entry_name (stamped_name destPath now) = true
  /\ String.length (filepath.Base destPath)
     < String.length (stamped_name destPath now).
Proof.
  intros Hbase. apply Base_no_separator in Hbase.
  destruct (TrimSuffix_spec (filepath.Base destPath) (filepath.Ext destPath))
    as [Hsep Hlen].
  destruct (Format_spec now) as [Hfs Hfl].
  assert (Hl : String.length (stamped_name destPath now)
               = String.length (strings.TrimSuffix (filepath.Base destPath)
                                                   (filepath.Ext destPath))
                 + 1 + String.length (time.Format_20060102_150405 now)
                 + String.length (filepath.Ext destPath)).
  { unfold stamped_name. rewrite !app_length_string. simpl. lia. }
  split; [|lia].
  unfold entry_name. rewrite !andb_true_iff, !negb_true_iff.
  repeat split.
  - apply String.eqb_neq. intros H. rewrite H in Hl. simpl in Hl. lia.
  - unfold stamped_name.
    rewrite !has_separator_app, (Hsep Hbase), Hfs, Ext_no_separator. reflexivity.
  - apply String.eqb_neq. intros H. rewrite H in Hl. simpl in Hl. lia.
  - apply String.eqb_neq. intros H. rewrite H in Hl. simpl in Hl. lia.
Qed.

Lemma Clean_nonempty (path : string) : filepath.Clean path <> "".
Proof. rewrite Clean_render. apply render_nonempty. Qed.

(** The time-stamped path lies in the directory of the target, under the
    new name, and is not the target. *)
Lemma timestamped_parts (destPath : string) (now : time.Time) :
  filepath.Base destPath <> "/" ->
  let final := timestamped destPath (filepath.Dir destPath) now in
  filepath.Dir final = filepath.Dir destPath
  /\ filepath.Base final = stamped_name destPath now
  /\ final <> destPath.
Proof.
  intros Hbase final.
  destruct (stamped_name_entry destPath now Hbase) as [Hname Hlen].
  assert (Hdir : filepath.Dir destPath <> "") by apply Clean_nonempty.
  destruct (Join_entry_parts (filepath.Dir destPath) (stamped_name destPath now)
              Hname Hdir) as [HB HD].
  change (filepath.Join [filepath.Dir destPath; stamped_name destPath now])
    with final in HB, HD.
  split; [|split].
  - rewrite HD. unfold filepath.Dir. apply Clean_idemp.
  - exact HB.
  - intros Heq. rewrite Heq in HB. rewrite <- HB in Hlen. lia.
Qed.

(** ** The target that was there before *)

(** On a file system whose calls obey three laws, [moveFile] leaves what
    lies at the target untouched: [look] reads what lies at a path;
    [MkdirAll] keeps what is there, [Rename] touches only its two paths, and
    [Stat] does not report a path that holds something as missing. *)
Section Target_untouched.
Context (sys : OS) {X : Type} (look : World sys -> string -> option X).
Hypothesis mkdirall_keeps :
  forall w p q perm x,
    look w p = Some x -> look (snd (sys_mkdirall sys w q perm)) p = Some x.
Hypothesis rename_frame :
  forall w a b p x,
    a <> p -> b <> p -> look w p = Some x ->
    look (snd (sys_rename sys w a b)) p = Some x.
Hypothesis stat_sees :
  forall w p x e,
    look w p = Some x -> sys_stat sys w p = Returns e -> os.IsNotExist e = false.

Lemma target_untouched (w : World sys) (fm : FileMove) (quiet : bool) (x : X) :
  look w (DestPath fm) = Some x ->
  SourcePath fm <> DestPath fm ->
  filepath.Base (DestPath fm) <> "/" ->
  look (snd (fst (exec sys (moveFile fm quiet) w))) (DestPath fm) = Some x.
Proof.
  intros Hx Hsrc Hbase.
  assert (Hens : forall d,
             look (snd (fst (exec sys (ensureDestDir fm d) w))) (DestPath fm)
             = Some x).
  { intros d. rewrite ensureDestDir_exec.
    destruct (sys_stat sys w d) as [err|]; [|exact Hx].
    destruct (os.IsNotExist err); [|exact Hx].
    destruct (FileMove_DryRun fm); [exact Hx|].
    pose proof (mkdirall_keeps w (DestPath fm) d 493 x Hx) as Hk.
    destruct (sys_mkdirall sys w d 493) as [[[e|]|] w1]; exact Hk. }
  assert (Hres : forall w1 d,
             look w1 (DestPath fm) = Some x ->
             snd (fst (exec sys (resolveCollision fm d) w1)) = w1
             /\ forall final,
                 fst (fst (exec sys (resolveCollision fm d) w1))
                 = Returns (Next final) ->
                 d = filepath.Dir (DestPath fm) -> final <> DestPath fm).
  { intros w1 d Hx1. rewrite resolveCollision_exec.
    pose proof (stat_sees w1 (DestPath fm) x) as Hsee.
    destruct (sys_stat sys w1 (DestPath fm)) as [[e|]|].
    - rewrite (Hsee (Some e) Hx1 eq_refl). split; [reflexivity|].
      intros final H. discriminate H.
    - destruct (sys_now sys w1) as [t|]; (split; [reflexivity|]);
        intros final H Hd; [|discriminate H].
      injection H as <-. subst d. apply timestamped_parts. exact Hbase.
    - split; [reflexivity|]. intros final H. discriminate H. }
  assert (Hmove : forall w1 final,
             look w1 (DestPath fm) = Some x -> final <> DestPath fm ->
             look (snd (fst (exec sys (performMove fm quiet final) w1)))
                  (DestPath fm) = Some x).
  { intros w1 final Hx1 Hfinal. rewrite performMove_exec.
    destruct (FileMove_DryRun fm); [exact Hx1|].
    pose proof (rename_frame w1 (SourcePath fm) final (DestPath fm) x
                  Hsrc Hfinal Hx1) as Hk.
    destruct (sys_rename sys w1 (SourcePath fm) final) as [[[e|]|] w2]; exact Hk. }
  rewrite moveFile_exec. cbv zeta.
  specialize (Hens (filepath.Dir (DestPath fm))).
  destruct (exec sys (ensureDestDir fm (filepath.Dir (DestPath fm))) w)
    as [[[[[]|err1]|] w1] c1]; cbn [fst snd] in *; try exact Hens.
  destruct (Hres w1 (filepath.Dir (DestPath fm)) Hens) as [Hw2 Hfinal].
  destruct (exec sys (resolveCollision fm (filepath.Dir (DestPath fm))) w1)
    as [[[[final|err2]|] w2] c2]; cbn [fst snd] in *; subst w2; try exact Hens.
  specialize (Hmove w1 final Hens (Hfinal final eq_refl eq_refl)).
  destruct (exec sys (performMove fm quiet final) w1) as [[[err3|] w3] c3];
    exact Hmove.
Qed.
End Target_untouched.

(** The example file system obeys the three laws. *)
Lemma make_dirs_keeps (fuel : nat) (q p : string) (m : gmap string Inode) (x : Inode) :
  m !! p = Some x -> make_dirs fuel q m !! p = Some x.
Proof.
  revert q. induction fuel as [|fuel IH]; intros q Hp; simpl; [exact Hp|].
  destruct (m !! q) eqn:Hq; [exact Hp|].
  rewrite lookup_insert_ne; [apply IH, Hp | congruence].
Qed.

Lemma disk_target_untouched (d : Disk) (fm : FileMove) (quiet : bool) (x : Inode) :
  inodes d !! DestPath fm = Some x ->
  SourcePath fm <> DestPath fm ->
  filepath.Base (DestPath fm) <> "/" ->
  inodes (snd (fst (exec disk (moveFile fm quiet) d))) !! DestPath fm = Some x.
Proof.
  apply (target_untouched disk (fun w p => inodes w !! p)).
  - intros w p q perm y Hy. simpl. unfold disk_mkdirall.
    destruct (is_denied w q); [exact Hy|].
    exact (make_dirs_keeps (S (String.length q)) q p (inodes w) y Hy).
  - intros w a b p y Ha Hb Hy. simpl. unfold disk_rename.
    destruct (is_denied w a || is_denied w b); [exact Hy|].
    destruct (inodes w !! a); [|exact Hy]. simpl.
    rewrite lookup_insert_ne, lookup_delete_ne by assumption. exact Hy.
  - intros w p y e Hy. simpl. unfold disk_stat.
    destruct (is_denied w p); [intros [= <-]; reflexivity|].
    rewrite Hy. intros [= <-]. reflexivity.
Qed.

(** C8. A planned move with the dry-run flag makes no call that changes the
    file system, neither [MkdirAll] nor [Rename]: on no run, whatever the
    answers; and on an operating system the state after [moveFile] is the
    state before.  The checks still run: the directory and the target are
    looked up, a target that exists gets its time-stamped name, and the
    update sent on a simulation that went through is [Moved: 1]. *)
Theorem C8_dry_run_changes_nothing (fm : FileMove) (quiet : bool) :
  FileMove_DryRun fm = true ->
  let destDir := filepath.Dir (DestPath fm) in
  (forall calls res, runs (moveFile fm quiet) calls res -> mutations calls = [])
  /\ (forall (sys : OS) (w : World sys),
        let '(res, w', calls) := exec sys (moveFile fm quiet) w in
        w' = w /\ mutations calls = [])
  /\ (forall (sys : OS) (w : World sys) err t,
        sys_stat sys w destDir = Returns err ->
        sys_stat sys w (DestPath fm) = Returns None ->
        sys_now sys w = Returns t ->
        let finalDestPath := timestamped (DestPath fm) destDir t in
        exec sys (moveFile fm quiet) w
        = (Returns None, w,
           Stat destDir
           :: (if os.IsNotExist err
               then [Printf (WouldCreateDirectory destDir)] else [])
           ++ [Stat (DestPath fm); Now;
               Printf (CollisionRenaming (filepath.Base (DestPath fm))
                                         (filepath.Base finalDestPath))]
           ++ (if quiet then []
               else [Printf (WouldMove (SourcePath fm) finalDestPath)])
           ++ [Send moved1]))
  /\ (forall (sys : OS) (w : World sys) err e,
        sys_stat sys w destDir = Returns err ->
        sys_stat sys w (DestPath fm) = Returns (Some e) ->
        os.IsNotExist (Some e) = true ->
        exec sys (moveFile fm quiet) w
        = (Returns None, w,
           Stat destDir
           :: (if os.IsNotExist err
               then [Printf (WouldCreateDirectory destDir)] else [])
           ++ [Stat (DestPath fm)]
           ++ (if quiet then []
               else [Printf (WouldMove (SourcePath fm) (DestPath fm))])
           ++ [Send moved1])).
Proof.
  intros Hdry destDir.
  split; [|split; [|split]].
  - intros calls res H. apply moveFile_spec in H as (_ & _ & Hm). auto.
  - intros sys w.
    pose proof (exec_runs sys (moveFile fm quiet) w) as Hr.
    pose proof (exec_readonly sys (moveFile fm quiet) w) as Hw.
    destruct (exec sys (moveFile fm quiet) w) as [[res w'] calls]. simpl in *.
    apply moveFile_spec in Hr as (_ & _ & Hm). auto.
  - intros sys w err t Hdir Hstat Hnow final.
    rewrite moveFile_exec. cbv zeta. rewrite ensureDestDir_exec. fold destDir.
    rewrite Hdir, Hdry.
    destruct (os.IsNotExist err);
      rewrite resolveCollision_exec, Hstat, Hnow; cbv beta iota zeta;
      rewrite performMove_exec, Hdry; destruct quiet; reflexivity.
  - intros sys w err e Hdir Hstat Hne.
    rewrite moveFile_exec. cbv zeta. rewrite ensureDestDir_exec. fold destDir.
    rewrite Hdir, Hdry.
    destruct (os.IsNotExist err);
      rewrite resolveCollision_exec, Hstat, Hne; cbv beta iota zeta;
      rewrite performMove_exec, Hdry; destruct quiet; reflexivity.
Qed.

Lemma C8_dry_run_witness :
  FileMove_DryRun (report_move true) = true
  /\ let '(res, w', calls) :=
       exec disk (moveFile (report_move true) false) report_disk in
     w' = report_disk /\ mutations calls = [].
Proof.
  split; [reflexivity|].
  exact (proj1 (proj2 (C8_dry_run_changes_nothing (report_move true) false eq_refl))
           disk report_disk).
Defined.

(** C4. At the check of the target (the directory step has passed and left
    the state [w1]):
    - a target that exists is replaced by [<base>_<YYYYMMDD_HHMMSS><ext>] in
      the same directory, [<base>] and [<ext>] being those of the target
      and the stamp the time of the check; the move goes to that name, and
      it is the only call after the check that changes the file system;
    - a target that does not exist is kept as it is;
    - any other error of the check ends [moveFile] with [Errored: 1] and
      that error, before any rename.
    The new path lies in the directory of the target, its base name is the
    stamped name, and it is not the target; the stamp of a calendar time
    has fifteen bytes.  On a file system that obeys the laws of
    [target_untouched], what lay at the target lies there afterwards. *)
Theorem C4_collision_resolution (sys : OS) (w w1 : World sys) (fm : FileMove)
    (quiet : bool) (calls1 : list Call) :
  let destDir := filepath.Dir (DestPath fm) in
  exec sys (ensureDestDir fm destDir) w = (Returns (Next tt), w1, calls1) ->
  (forall t,
      sys_stat sys w1 (DestPath fm) = Returns None ->
      sys_now sys w1 = Returns t ->
      let ext := filepath.Ext (DestPath fm) in
      let base := strings.TrimSuffix (filepath.Base (DestPath fm)) ext in
      let finalDestPath :=
        filepath.Join
          [destDir; base +:+ "_" +:+ time.Format_20060102_150405 t +:+ ext] in
      exists res w2 calls2,
        exec sys (moveFile fm quiet) w
        = (res, w2, calls1 ++ [Stat (DestPath fm); Now] ++ calls2)
        /\ mutations calls2
           = (if FileMove_DryRun fm then []
              else [Rename (SourcePath fm) finalDestPath])
        /\ w2 = (if FileMove_DryRun fm then w1
                 else snd (sys_rename sys w1 (SourcePath fm) finalDestPath))
        /\ (sent calls2 = [moved1]
            <-> FileMove_DryRun fm = true
                \/ fst (sys_rename sys w1 (SourcePath fm) finalDestPath)
                   = Returns None))
  /\ (forall e,
        sys_stat sys w1 (DestPath fm) = Returns (Some e) ->
        os.IsNotExist (Some e) = true ->
        exists res w2 calls2,
          exec sys (moveFile fm quiet) w
          = (res, w2, calls1 ++ [Stat (DestPath fm)] ++ calls2)
          /\ mutations calls2
             = (if FileMove_DryRun fm then []
                else [Rename (SourcePath fm) (DestPath fm)])
          /\ w2 = (if FileMove_DryRun fm then w1
                   else snd (sys_rename sys w1 (SourcePath fm) (DestPath fm)))
          /\ (sent calls2 = [moved1]
              <-> FileMove_DryRun fm = true
                  \/ fst (sys_rename sys w1 (SourcePath fm) (DestPath fm))
                     = Returns None))
  /\ (forall e,
        sys_stat sys w1 (DestPath fm) = Returns (Some e) ->
        os.IsNotExist (Some e) = false ->
        exec sys (moveFile fm quiet) w
        = (Returns (Some (Errorf ("error checking existence of '"
                                   +:+ DestPath fm +:+ "'") e)),
           w1, calls1 ++ [Stat (DestPath fm); Send errored1]))
  /\ (forall t,
        filepath.Base (DestPath fm) <> "/" ->
        let ext := filepath.Ext (DestPath fm) in
        let base := strings.TrimSuffix (filepath.Base (DestPath fm)) ext in
        let stamped := base +:+ "_" +:+ time.Format_20060102_150405 t +:+ ext in
        let finalDestPath := filepath.Join [destDir; stamped] in
        filepath.Dir finalDestPath = destDir
        /\ filepath.Base finalDestPath = stamped
        /\ finalDestPath <> DestPath fm)
  /\ (forall t,
        time.Year t < 100 * 100 -> time.Month t < 100 -> time.Day t < 100 ->
        time.Hour t < 100 -> time.Minute t < 100 -> time.Second t < 100 ->
        String.length (time.Format_20060102_150405 t) = 15)
  /\ (forall (X : Type) (look : World sys -> string -> option X),
        (forall w p q perm x,
            look w p = Some x ->
            look (snd (sys_mkdirall sys w q perm)) p = Some x) ->
        (forall w a b p x,
            a <> p -> b <> p -> look w p = Some x ->
            look (snd (sys_rename sys w a b)) p = Some x) ->
        (forall w p x e,
            look w p = Some x -> sys_stat sys w p = Returns e ->
            os.IsNotExist e = false) ->
        forall x,
          look w (DestPath fm) = Some x ->
          SourcePath fm <> DestPath fm ->
          filepath.Base (DestPath fm) <> "/" ->
          look (snd (fst (exec sys (moveFile fm quiet) w))) (DestPath fm)
          = Some x).
Proof.
  intros destDir Hens.
  assert (Hmove : forall final,
    exists res w2 calls2,
      (let '(r, w', c) := exec sys (performMove fm quiet final) w1 in
       match r with
       | Panics => (Returns None, w', c ++ [Printf RecoveredFromPanic; Send errored1])
       | Returns err => (Returns err, w', c)
       end) = (res, w2, calls2)
      /\ mutations calls2
         = (if FileMove_DryRun fm then [] else [Rename (SourcePath fm) final])
      /\ w2 = (if FileMove_DryRun fm then w1
               else snd (sys_rename sys w1 (SourcePath fm) final))
      /\ (sent calls2 = [moved1]
          <-> FileMove_DryRun fm = true
              \/ fst (sys_rename sys w1 (SourcePath fm) final) = Returns None)).
  { intros final. rewrite performMove_exec.
    destruct (FileMove_DryRun fm).
    - do 3 eexists. split; [reflexivity|].
      destruct quiet; cbn; repeat split; auto.
    - destruct (sys_rename sys w1 (SourcePath fm) final) as [[[e|]|] w'];
        do 3 eexists; (split; [reflexivity|]); destruct quiet; cbn;
        repeat split; auto; try discriminate;
        intros [H|H]; discriminate H. }
  split; [|split; [|split; [|split; [|split]]]].
  - intros t Hstat Hnow. cbv zeta.
    change (filepath.Join
              [destDir;
               strings.TrimSuffix (filepath.Base (DestPath fm))
                                  (filepath.Ext (DestPath fm))
               +:+ "_" +:+ time.Format_20060102_150405 t
               +:+ filepath.Ext (DestPath fm)])
      with (timestamped (DestPath fm) destDir t).
    rewrite moveFile_exec. cbv zeta. fold destDir.
    rewrite Hens, resolveCollision_exec, Hstat, Hnow. cbv beta iota zeta.
    generalize (timestamped (DestPath fm) destDir t). intros final.
    destruct (Hmove final) as (res & w2 & calls2 & Heq & Hm & Hw & Hs).
    exists res, w2, (Printf (CollisionRenaming (filepath.Base (DestPath fm))
                                                (filepath.Base final)) :: calls2).
    split; [|split; [exact Hm | split; [exact Hw | exact Hs]]].
    destruct (exec sys (performMove fm quiet final) w1) as [[[err|] w'] c];
      injection Heq as <- <- <-; rewrite <- ?app_assoc; reflexivity.
  - intros e Hstat Hne.
    rewrite moveFile_exec. cbv zeta. fold destDir.
    rewrite Hens, resolveCollision_exec, Hstat, Hne. cbv beta iota zeta.
    destruct (Hmove (DestPath fm)) as (res & w2 & calls2 & Heq & Hm & Hw & Hs).
    exists res, w2, calls2.
    split; [|split; [exact Hm | split; [exact Hw | exact Hs]]].
    destruct (exec sys (performMove fm quiet (DestPath fm)) w1) as [[[err|] w'] c];
      injection Heq as <- <- <-; rewrite <- ?app_assoc; reflexivity.
  - intros e Hstat Hne.
    apply (moveFile_stat_failure sys w w1 fm quiet calls1 e Hens Hstat Hne).
  - intros t Hbase. exact (timestamped_parts (DestPath fm) t Hbase).
  - intros t. apply Format_length.
  - intros X look Hmk Hren Hst x Hx Hsrc Hbase.
    apply (target_untouched sys look Hmk Hren Hst); assumption.
Qed.

Lemma C4_collision_witness :
  exists res w2 calls2,
    exec disk (moveFile (report_move false) false) report_disk
    = (res, w2,
       [Stat "/dest/Documents"]
       ++ [Stat "/dest/Documents/report.pdf"; Now] ++ calls2)
    /\ mutations calls2
       = [Rename "/in/report.pdf" "/dest/Documents/report_20240309_070559.pdf"].
Proof.
  destruct (C4_collision_resolution disk report_disk report_disk
              (report_move false) false [Stat "/dest/Documents"] eq_refl)
    as [Hexists _].
  destruct (Hexists (clock report_disk) eq_refl eq_refl)
    as (res & w2 & calls2 & Hexec & Hmut & _).
  exists res, w2, calls2. split; [exact Hexec | exact Hmut].
Defined.

(** The example of the specification on the example file system: the new
    [report.pdf] arrives under the time-stamped name, the one that was
    there is untouched, and one [Moved: 1] is sent. *)
Example report_collision :
  let '(res, d, calls) :=
    exec disk (moveFile (report_move false) false) report_disk in
  res = Returns None
  /\ inodes d !! "/dest/Documents/report.pdf" = Some (Regular "the old report")
  /\ inodes d !! "/dest/Documents/report_20240309_070559.pdf"
     = Some (Regular "the new report")
  /\ inodes d !! "/in/report.pdf" = None
  /\ sent calls = [moved1]
  /\ mutations calls
     = [Rename "/in/report.pdf" "/dest/Documents/report_20240309_070559.pdf"].
Proof. vm_compute. repeat split; reflexivity. Qed.


(** ** main.go: custom mappings *)

(** A range loop visits each entry of the map once. *)
Definition range_ok (range : gmap string string -> list (string * string)) : Prop :=
  forall m, range m ≡ₚ map_to_list m.

Lemma HasPrefix_dot_lower (s : string) :
  strings.HasPrefix (strings.ToLower s) "." = strings.HasPrefix s ".".
Proof.
  destruct s as [|c s]; [reflexivity|].
  simpl. f_equal.
  destruct c as [[] [] [] [] [] [] [] []]; reflexivity.
Qed.

Lemma normalizedKey_spec (ext : string) :
  strings.HasPrefix (main.normalizedKey ext) "." = true
  /\ strings.ToLower (main.normalizedKey ext) = main.normalizedKey ext.
Proof.
  unfold main.normalizedKey. split; [|apply ToLower_idemp].
  rewrite HasPrefix_dot_lower.
  destruct (strings.HasPrefix ext ".") eqn:E; simpl; [exact E | reflexivity].
Qed.

(** A loop of map writes is the map of the entries written, the later
    entry winning, laid over the map it started from. *)
Lemma fold_insert_union (f : string -> string) (l : list (string * string))
    (m0 : gmap string string) :
  fold_left (fun m '(k, v) => <[f k := v]> m) l m0
  = list_to_map (rev (map (fun kv => (f kv.1, kv.2)) l)) ∪ m0.
Proof.
  revert m0. induction l as [|[k v] l IH]; intros m0; simpl.
  - rewrite (left_id_L ∅ (∪)). reflexivity.
  - rewrite IH. rewrite list_to_map_app. simpl.
    rewrite <- (assoc_L (∪)). f_equal.
    rewrite <- insert_union_l, (left_id_L ∅ (∪)). reflexivity.
Qed.

Lemma range_keys_distinct range (m : gmap string string) :
  range_ok range -> NoDup ((range m).*1).
Proof.
  intros H. rewrite (H m). apply NoDup_fst_map_to_list.
Qed.

Lemma range_elem range (m : gmap string string) (k v : string) :
  range_ok range -> (k, v) ∈ range m <-> m !! k = Some v.
Proof.
  intros H. rewrite (H m). apply elem_of_map_to_list.
Qed.

Lemma lookup_list_to_map_rev (l : list (string * string)) (k : string) :
  NoDup (l.*1) ->
  (list_to_map (rev l) : gmap string string) !! k = (list_to_map l : gmap string string) !! k.
Proof.
  intros Hnd. f_equal.
  assert (Hp : rev l ≡ₚ l) by (symmetry; apply Permutation_rev).
  apply list_to_map_proper; [|exact Hp].
  rewrite Hp. exact Hnd.
Qed.

Lemma normalizedMappings_spec (visited : list (string * string)) :
  main.normalizedMappings visited
  = list_to_map (rev (map (fun kv => (main.normalizedKey kv.1, kv.2)) visited)).
Proof.
  unfold main.normalizedMappings.
  rewrite (fold_insert_union main.normalizedKey).
  apply (right_id_L ∅ (∪)).
Qed.

Lemma mergedMappings_spec (m0 : gmap string string) (visited : list (string * string)) :
  main.mergedMappings m0 visited = list_to_map (rev visited) ∪ m0.
Proof.
  unfold main.mergedMappings.
  rewrite (fold_insert_union (fun k => k)).
  do 3 f_equal. induction visited as [|[k v] l IH]; simpl; [reflexivity|].
  f_equal. exact IH.
Qed.

(** X1.  [loadCustomMappings] fails exactly when the file cannot be read or
    is not a JSON object of strings, with the error wrapped.  Otherwise
    every key of the map it returns starts with a dot and is in lower
    case, and every entry it returns is an entry of the file under its
    normalised key: nothing is invented. *)
Theorem X1_loadCustomMappings_normalised
    (range : gmap string string -> list (string * string))
    (filePath : string) (file : main.ConfigFile) :
  range_ok range ->
  match main.loadCustomMappings range filePath file with
  | inl err =>
      exists cause context, err = Errorf context cause
        /\ (file = main.Unreadable cause \/ file = main.Malformed cause)
  | inr normalized =>
      exists mappings, file = main.Decoded mappings
        /\ forall k v, normalized !! k = Some v ->
             strings.HasPrefix k "." = true
             /\ strings.ToLower k = k
             /\ exists ext, mappings !! ext = Some v
                  /\ k = main.normalizedKey ext
  end.
Proof.
  intros Hr. destruct file as [e|e|mappings]; simpl.
  - eauto.
  - eauto.
  - exists mappings. split; [reflexivity|]. intros k v Hk.
    rewrite normalizedMappings_spec in Hk.
    apply elem_of_list_to_map_2 in Hk.
    apply list_elem_of_In, in_rev, in_map_iff in Hk.
    destruct Hk as [[ext c] [Heq Hin]]. simpl in Heq.
    injection Heq as <- <-.
    destruct (normalizedKey_spec ext) as [H1 H2].
    split; [exact H1|]. split; [exact H2|].
    exists ext. split; [|reflexivity].
    apply (range_elem range mappings ext c Hr), list_elem_of_In, Hin.
Qed.

Lemma X1_loadCustomMappings_witness :
  match main.loadCustomMappings map_to_list "mappings.json"
          (main.Decoded {[ "JPG" := "Pictures" ]}) with
  | inl err =>
      exists cause context, err = Errorf context cause
        /\ (main.Decoded {[ "JPG" := "Pictures" ]} = main.Unreadable cause
            \/ main.Decoded {[ "JPG" := "Pictures" ]} = main.Malformed cause)
  | inr normalized =>
      exists mappings, main.Decoded {[ "JPG" := "Pictures" ]} = main.Decoded mappings
        /\ forall k v, normalized !! k = Some v ->
             strings.HasPrefix k "." = true
             /\ strings.ToLower k = k
             /\ exists ext, mappings !! ext = Some v
                  /\ k = main.normalizedKey ext
  end.
Proof.
  apply (X1_loadCustomMappings_normalised map_to_list "mappings.json"
           (main.Decoded {[ "JPG" := "Pictures" ]})).
  intros m. reflexivity.
Defined.



(** X3.  A key without its leading dot and the same key with it are two
    keys of the file and one key after normalisation: the entry the loop
    visits last wins, so the category depends on the order in which Go
    ranges over the map. *)
Theorem X3_normalised_keys_collide (ext a b : string) :
  strings.HasPrefix ext "." = false ->
  ext <> "." +:+ ext
  /\ main.normalizedKey ext = main.normalizedKey ("." +:+ ext)
  /\ main.normalizedMappings [(ext, a); ("." +:+ ext, b)]
       !! main.normalizedKey ext = Some b
  /\ main.normalizedMappings [("." +:+ ext, b); (ext, a)]
       !! main.normalizedKey ext = Some a.
Proof.
  intros Hdot.
  assert (Hk : main.normalizedKey ext = main.normalizedKey ("." +:+ ext)).
  { unfold main.normalizedKey. rewrite Hdot. reflexivity. }
  split; [|split; [exact Hk|]].
  - intros E. rewrite E in Hdot. discriminate Hdot.
  - unfold main.normalizedMappings. simpl. rewrite <- Hk.
    split; [apply lookup_insert_eq|].
    apply lookup_insert_eq.
Qed.

Lemma X3_normalised_keys_collide_witness :
  "JPG" <> "." +:+ "JPG"
  /\ main.normalizedKey "JPG" = main.normalizedKey ("." +:+ "JPG")
  /\ main.normalizedMappings [("JPG", "Pictures"); ("." +:+ "JPG", "Photos")]
       !! main.normalizedKey "JPG" = Some "Photos"
  /\ main.normalizedMappings [("." +:+ "JPG", "Photos"); ("JPG", "Pictures")]
       !! main.normalizedKey "JPG" = Some "Pictures".
Proof.
  apply (X3_normalised_keys_collide "JPG" "Pictures" "Photos"). reflexivity.
Defined.

(** ** main.go: the configuration *)

Lemma IsAbs_rooted (path : string) : IsAbs path = true -> filepath.rooted path = true.
Proof.
  unfold IsAbs. destruct path as [|c path]; simpl; [discriminate|].
  rewrite andb_true_r. exact (fun H => H).
Qed.

Lemma Clean_rooted (path : string) :
  filepath.rooted path = true -> filepath.rooted (filepath.Clean path) = true.
Proof.
  intros H. unfold filepath.Clean. rewrite H. reflexivity.
Qed.

Lemma Abs_clean_rooted (getwd : error + string) (path p : string) :
  (forall wd, getwd = inr wd -> filepath.rooted wd = true) ->
  Abs getwd path = inr p ->
  filepath.rooted p = true /\ filepath.Clean p = p.
Proof.
  intros Hwd. unfold Abs. destruct (IsAbs path) eqn:E.
  - intros [= <-]. split; [apply Clean_rooted, IsAbs_rooted, E | apply Clean_idemp].
  - destruct getwd as [e|wd]; [discriminate|]. intros [= <-].
    specialize (Hwd wd eq_refl).
    destruct wd as [|c wd]; [discriminate Hwd|].
    unfold filepath.Join. cbn [String.eqb].
    split; [|apply Clean_idemp].
    apply Clean_rooted. exact Hwd.
Qed.

Lemma config_inr range (flags : main.Flags) getwd file cfg :
  main.config range flags getwd file = inr cfg ->
  main.sourceDir flags <> "" /\ main.destDir flags <> ""
  /\ Abs getwd (main.sourceDir flags) = inr (SourceDir cfg)
  /\ Abs getwd (main.destDir flags) = inr (DestDir cfg)
  /\ (if String.eqb (main.configPath flags) "" then
        CategoryMappings cfg = DefaultCategoryMappings
      else
        exists custom,
          main.loadCustomMappings range (main.configPath flags) file = inr custom
          /\ CategoryMappings cfg
             = main.mergedMappings DefaultCategoryMappings (range custom)).
Proof.
  unfold main.config.
  destruct (String.eqb_spec (main.sourceDir flags) "") as [|Hs]; [discriminate|].
  destruct (String.eqb_spec (main.destDir flags) "") as [|Hd]; [discriminate|].
  destruct (Abs getwd (main.sourceDir flags)) as [e|src]; [discriminate|].
  destruct (Abs getwd (main.destDir flags)) as [e|dst]; [discriminate|].
  cbv zeta.
  destruct (String.eqb (main.configPath flags) ""); cbn [negb].
  - intros [= <-]. simpl. auto.
  - destruct (main.loadCustomMappings range (main.configPath flags) file)
      as [e|custom]; [discriminate|].
    intros [= <-]. simpl. eauto 10.
Qed.

(** X4.  The mappings [main] hands to [OrganizeFiles]: without [--config]
    the defaults; with it, every extension of the normalised custom map
    has the custom category and every other extension keeps its default,
    in whatever order the merge loop visits the custom map. *)
Theorem X4_custom_mappings_override_defaults
    (range : gmap string string -> list (string * string))
    (flags : main.Flags) (getwd : error + string) (file : main.ConfigFile)
    (cfg : Config) :
  range_ok range ->
  main.config range flags getwd file = inr cfg ->
  if String.eqb (main.configPath flags) "" then
    CategoryMappings cfg = DefaultCategoryMappings
  else
    exists custom,
      main.loadCustomMappings range (main.configPath flags) file = inr custom
      /\ forall ext,
           CategoryMappings cfg !! ext
           = match custom !! ext with
             | Some c => Some c
             | None => DefaultCategoryMappings !! ext
             end.
Proof.
  intros Hr Hcfg. apply config_inr in Hcfg as (_ & _ & _ & _ & H).
  destruct (String.eqb (main.configPath flags) ""); [exact H|].
  destruct H as (custom & Hload & ->). exists custom. split; [exact Hload|].
  intros ext. rewrite mergedMappings_spec.
  assert (Hc : (list_to_map (rev (range custom)) : gmap string string) = custom).
  { rewrite <- (list_to_map_to_list custom) at 2.
    apply list_to_map_proper.
    - rewrite <- Permutation_rev. apply range_keys_distinct, Hr.
    - rewrite <- Permutation_rev. apply Hr. }
  rewrite Hc, lookup_union.
  destruct (custom !! ext) as [c|]; simpl.
  - destruct (DefaultCategoryMappings !! ext); reflexivity.
  - destruct (DefaultCategoryMappings !! ext); reflexivity.
Qed.

(** X5.  When [main] gets as far as a [Config], both directory flags were
    given, and with an absolute working directory [SourceDir] and
    [DestDir] are absolute and clean: [filepath.Clean] leaves them as they
    are. *)
Theorem X5_config_paths_absolute_and_clean
    (range : gmap string string -> list (string * string))
    (flags : main.Flags) (getwd : error + string) (file : main.ConfigFile)
    (cfg : Config) :
  (forall wd, getwd = inr wd -> filepath.rooted wd = true) ->
  main.config range flags getwd file = inr cfg ->
  main.sourceDir flags <> "" /\ main.destDir flags <> ""
  /\ filepath.rooted (SourceDir cfg) = true
  /\ filepath.Clean (SourceDir cfg) = SourceDir cfg
  /\ filepath.rooted (DestDir cfg) = true
  /\ filepath.Clean (DestDir cfg) = DestDir cfg.
Proof.
  intros Hwd Hcfg. apply config_inr in Hcfg as (Hs & Hd & Hsrc & Hdst & _).
  destruct (Abs_clean_rooted getwd _ _ Hwd Hsrc) as [H1 H2].
  destruct (Abs_clean_rooted getwd _ _ Hwd Hdst) as [H3 H4].
  auto 10.
Qed.

Example config_example :
  exists m,
    main.config map_to_list example_flags (inr "/home/u") example_file
    = inr (mkConfig "/home/u/downloads" "/home/u/sorted" true false 5 m false)
    /\ category m ".jpg" = "Pictures" /\ category m ".log" = "Logs"
    /\ category m ".png" = "Images" /\ category m ".xyz" = "Others".
Proof. eexists. split; [vm_compute; reflexivity|]. vm_compute. auto. Qed.

Lemma X4_custom_mappings_witness :
  exists custom,
    main.loadCustomMappings map_to_list (main.configPath example_flags) example_file
    = inr custom
    /\ forall ext,
         CategoryMappings example_config !! ext
         = match custom !! ext with
           | Some c => Some c
           | None => DefaultCategoryMappings !! ext
           end.
Proof.
  apply (X4_custom_mappings_override_defaults map_to_list example_flags
           (inr "/home/u") example_file example_config).
  - intros m. reflexivity.
  - vm_compute. reflexivity.
Defined.

Lemma X5_config_paths_witness :
  main.sourceDir example_flags <> "" /\ main.destDir example_flags <> ""
  /\ filepath.rooted (SourceDir example_config) = true
  /\ filepath.Clean (SourceDir example_config) = SourceDir example_config
  /\ filepath.rooted (DestDir example_config) = true
  /\ filepath.Clean (DestDir example_config) = DestDir example_config.
Proof.
  apply (X5_config_paths_absolute_and_clean map_to_list example_flags
           (inr "/home/u") example_file example_config).
  - intros wd [= <-]. reflexivity.
  - vm_compute. reflexivity.
Defined.

(** ** moveFile: what it changes, and what the quiet flag changes *)

Lemma ensureDestDir_changes fm destDir calls res :
  runs (ensureDestDir fm destDir) calls res ->
  mutations calls = [] \/ mutations calls = [MkdirAll destDir 493].
Proof.
  unfold ensureDestDir, os_Stat, os_MkdirAll, fmt_Printf, send,
    mbind, mret, Prog_bind, Prog_ret.
  intros H. run_cases; cbn; auto.
Qed.

Lemma resolveCollision_changes fm destDir calls res :
  runs (resolveCollision fm destDir) calls res ->
  mutations calls = []
  /\ forall final, res = Returns (Next final) ->
       final = DestPath fm
       \/ exists now, final = timestamped (DestPath fm) destDir now.
Proof.
  unfold resolveCollision, os_Stat, time_Now, fmt_Printf, send,
    mbind, mret, Prog_bind, Prog_ret.
  intros H. run_cases; cbn; (split; [reflexivity|]); intros final' E;
    simplify_eq; eauto.
Qed.

Lemma performMove_changes fm quiet final calls res :
  runs (performMove fm quiet final) calls res ->
  if FileMove_DryRun fm then mutations calls = []
  else mutations calls = [Rename (SourcePath fm) final].
Proof.
  unfold performMove, os_Rename, fmt_Printf, send,
    mbind, mret, Prog_bind, Prog_ret.
  intros H. destruct quiet, (FileMove_DryRun fm); run_cases; cbn; reflexivity.
Qed.

(** The calls of a run that change the file system: at most one
    [os.MkdirAll] of the directory of the target, then at most one
    [os.Rename] of the source, to the target or to its stamped name; the
    rename is there when a move that is not a dry run reports [Moved]. *)
Definition changes_spec (fm : FileMove) (calls : list Call) : Prop :=
  let destDir := filepath.Dir (DestPath fm) in
  exists mk mv,
    mutations calls = mk ++ mv
    /\ (mk = [] \/ mk = [MkdirAll destDir 493])
    /\ (mv = []
        \/ exists final,
             mv = [Rename (SourcePath fm) final]
             /\ FileMove_DryRun fm = false
             /\ (final = DestPath fm
                 \/ exists now, final = timestamped (DestPath fm) destDir now))
    /\ (FileMove_DryRun fm = false -> sent calls = [moved1] -> mv <> []).

Lemma moveFile_body_changes fm quiet calls res :
  runs (moveFile_body fm quiet) calls res -> changes_spec fm calls.
Proof.
  unfold moveFile_body, changes_spec. intros H.
  apply runs_bind in H as [(c1 & f1 & c2 & H1 & H2 & ->)|[H1 ->]];
    pose proof (ensureDestDir_changes _ _ _ _ H1) as Hm1;
    apply ensureDestDir_spec in H1 as [_ Hs1].
  2: { exists (mutations calls), []. rewrite app_nil_r.
       split; [reflexivity|]. split; [exact Hm1|]. split; [left; reflexivity|].
       intros _ Hsent. rewrite Hs1 in Hsent. discriminate Hsent. }
  destruct f1 as [[]|err1].
  2: { destruct H2 as [-> ->]. rewrite app_nil_r. destruct Hs1 as [Hs1 _].
       exists (mutations c1), []. rewrite app_nil_r.
       split; [reflexivity|]. split; [exact Hm1|]. split; [left; reflexivity|].
       intros _ Hsent. rewrite Hs1 in Hsent. discriminate Hsent. }
  apply runs_bind in H2 as [(c3 & f2 & c4 & H3 & H4 & ->)|[H3 ->]];
    pose proof (resolveCollision_changes _ _ _ _ H3) as [Hm3 Hfinal];
    apply resolveCollision_spec in H3 as [_ Hs3].
  2: { exists (mutations c1), []. rewrite mutations_app, Hm3.
       split; [reflexivity|]. split; [exact Hm1|]. split; [left; reflexivity|].
       intros _ Hsent. rewrite sent_app, Hs1, Hs3 in Hsent. discriminate Hsent. }
  destruct f2 as [final|err2].
  - pose proof (performMove_changes _ _ _ _ _ H4) as Hm4.
    exists (mutations c1), (mutations c4).
    rewrite !mutations_app, Hm3. split; [reflexivity|]. split; [exact Hm1|].
    destruct (FileMove_DryRun fm) eqn:Hdry.
    + split; [left; exact Hm4 | discriminate].
    + rewrite Hm4. split; [|discriminate].
      right. exists final. split; [reflexivity|]. split; [reflexivity|].
      apply Hfinal. reflexivity.
  - destruct H4 as [-> ->]. destruct Hs3 as [Hs3 _].
    exists (mutations c1), []. rewrite !mutations_app, Hm3.
    split; [reflexivity|]. split; [exact Hm1|]. split; [left; reflexivity|].
    intros _ Hsent. rewrite !sent_app, Hs1, Hs3 in Hsent. discriminate Hsent.
Qed.

(** X6.  Whatever the file system answers and wherever a call panics, the
    calls of [moveFile] that change the file system are at most one
    [os.MkdirAll] of the directory of [DestPath] (mode 0755) followed by
    at most one [os.Rename] of [SourcePath], in a move that is not a dry
    run, to [DestPath] or to its stamped name.  A move that is not a dry
    run and reports [Moved: 1] has made that rename. *)
Theorem X6_moveFile_changes (fm : FileMove) (quiet : bool)
    (calls : list Call) (res : Reply (option error)) :
  runs (moveFile fm quiet) calls res ->
  let destDir := filepath.Dir (DestPath fm) in
  exists mk mv,
    mutations calls = mk ++ mv
    /\ (mk = [] \/ mk = [MkdirAll destDir 493])
    /\ (mv = []
        \/ exists final,
             mv = [Rename (SourcePath fm) final]
             /\ FileMove_DryRun fm = false
             /\ (final = DestPath fm
                 \/ exists now, final = timestamped (DestPath fm) destDir now))
    /\ (FileMove_DryRun fm = false -> sent calls = [moved1] -> mv <> []).
Proof.
  unfold moveFile. intros H.
  apply runs_defer_recover in H as [(err & H & ->)|(c1 & c2 & H & Hh & ->)].
  - exact (moveFile_body_changes fm quiet calls _ H).
  - pose proof (moveFile_body_spec _ _ _ _ H) as [_ Hs].
    apply moveFile_body_changes in H as (mk & mv & Hmut & Hmk & Hmv & _).
    unfold recovered, fmt_Printf, send, mbind, mret, Prog_bind, Prog_ret in Hh.
    run_cases. cbv zeta.
    exists mk, mv. rewrite mutations_app, app_nil_r.
    split; [exact Hmut|]. split; [exact Hmk|]. split; [exact Hmv|].
    intros _ Hsent. rewrite sent_app, Hs in Hsent. discriminate Hsent.
Qed.

Lemma X6_moveFile_changes_witness :
  exists mk mv,
    mutations (snd (exec disk (moveFile (report_move false) false) report_disk))
    = mk ++ mv
    /\ (mk = []
        \/ mk = [MkdirAll (filepath.Dir (DestPath (report_move false))) 493])
    /\ (mv = []
        \/ exists final,
             mv = [Rename (SourcePath (report_move false)) final]
             /\ FileMove_DryRun (report_move false) = false
             /\ (final = DestPath (report_move false)
                 \/ exists now,
                      final = timestamped (DestPath (report_move false))
                                (filepath.Dir (DestPath (report_move false))) now))
    /\ (FileMove_DryRun (report_move false) = false ->
        sent (snd (exec disk (moveFile (report_move false) false) report_disk))
        = [moved1] ->
        mv <> []).
Proof.
  apply (X6_moveFile_changes (report_move false) false
           (snd (exec disk (moveFile (report_move false) false) report_disk))
           (fst (fst (exec disk (moveFile (report_move false) false) report_disk)))).
  apply exec_runs.
Defined.

(** X7.  The [quiet] flag takes the lines "Would move" and "Moved" out of
    the output and changes nothing else: on any operating system, from any
    state, the quiet run returns the same result and leaves the same
    state, and its calls are those of the verbose run without these two
    lines.  The lines about a created directory, a collision and a trapped
    panic are printed in both. *)
Theorem X7_quiet_only_drops_move_lines (sys : OS) (w : World sys) (fm : FileMove) :
  exec sys (moveFile fm true) w
  = let '(res, w', calls) := exec sys (moveFile fm false) w in
    (res, w', List.filter (fun c => negb (per_file_line c)) calls).
Proof.
  rewrite !moveFile_exec. cbv zeta.
  rewrite ensureDestDir_exec.
  destruct (sys_stat sys w (filepath.Dir (DestPath fm))) as [err|];
    [|reflexivity].
  assert (Hrest : forall (w1 : World sys) (c1 : list Call),
    List.filter (fun c => negb (per_file_line c)) c1 = c1 ->
    match exec sys (resolveCollision fm (filepath.Dir (DestPath fm))) w1 with
    | (Panics, w2, c2) =>
        (Returns None, w2, c1 ++ c2 ++ [Printf RecoveredFromPanic; Send errored1])
    | (Returns (Return err), w2, c2) => (Returns err, w2, c1 ++ c2)
    | (Returns (Next finalDestPath), w2, c2) =>
        match exec sys (performMove fm true finalDestPath) w2 with
        | (Panics, w3, c3) =>
            (Returns None, w3,
             c1 ++ c2 ++ c3 ++ [Printf RecoveredFromPanic; Send errored1])
        | (Returns err, w3, c3) => (Returns err, w3, c1 ++ c2 ++ c3)
        end
    end
    = let '(res, w', calls) :=
        match exec sys (resolveCollision fm (filepath.Dir (DestPath fm))) w1 with
        | (Panics, w2, c2) =>
            (Returns None, w2,
             c1 ++ c2 ++ [Printf RecoveredFromPanic; Send errored1])
        | (Returns (Return err), w2, c2) => (Returns err, w2, c1 ++ c2)
        | (Returns (Next finalDestPath), w2, c2) =>
            match exec sys (performMove fm false finalDestPath) w2 with
            | (Panics, w3, c3) =>
                (Returns None, w3,
                 c1 ++ c2 ++ c3 ++ [Printf RecoveredFromPanic; Send errored1])
            | (Returns err, w3, c3) => (Returns err, w3, c1 ++ c2 ++ c3)
            end
        end in
      (res, w', List.filter (fun c => negb (per_file_line c)) calls)).
  { intros w1 c1 Hc1. rewrite resolveCollision_exec.
    destruct (sys_stat sys w1 (DestPath fm)) as [[e|]|].
    - destruct (os.IsNotExist (Some e)); cbv beta iota zeta.
      + rewrite !performMove_exec.
        destruct (FileMove_DryRun fm).
        * rewrite !List.filter_app, Hc1. reflexivity.
        * destruct (sys_rename sys w1 (SourcePath fm) (DestPath fm))
            as [[[e'|]|] w3];
            rewrite !List.filter_app, Hc1; reflexivity.
      + rewrite !List.filter_app, Hc1. reflexivity.
    - destruct (sys_now sys w1) as [now|].
      + cbv beta iota zeta. rewrite !performMove_exec.
        generalize (timestamped (DestPath fm) (filepath.Dir (DestPath fm)) now).
        intros final.
        destruct (FileMove_DryRun fm).
        * rewrite !List.filter_app, Hc1. reflexivity.
        * destruct (sys_rename sys w1 (SourcePath fm) final) as [[[e'|]|] w3];
            rewrite !List.filter_app, Hc1; reflexivity.
      + rewrite !List.filter_app, Hc1. reflexivity.
    - rewrite !List.filter_app, Hc1. reflexivity. }
  destruct (os.IsNotExist err).
  - destruct (FileMove_DryRun fm).
    + apply Hrest. reflexivity.
    + destruct (sys_mkdirall sys w (filepath.Dir (DestPath fm)) 493)
        as [[[e|]|] w1]; [reflexivity| |reflexivity].
      apply Hrest. reflexivity.
  - apply Hrest. reflexivity.
Qed.

(** ** The work queue and the collector *)

(** X8.  In every state the pool can reach, the work queue holds at most
    twice as many moves as there are workers, and the moves waiting in the
    queue followed by those not yet dispatched are the rest of the plan,
    in plan order: a move is neither lost, nor repeated, nor overtaken on
    its way to the workers.  No more updates have arrived than moves were
    taken from the queue. *)
Theorem X8_work_queue_bounded_in_order (cfg : Config) (plan : list FileMove)
    (s : Pool) :
  rtc (step cfg) (pool_start cfg plan) s ->
  length (workQueue s) <= 2 * workerCount cfg
  /\ exists taken,
       plan = taken ++ workQueue s ++ todo s
       /\ length (progressChan s) <= length taken.
Proof.
  intros Hreach.
  assert (Hq : length (workQueue s) <= capacity cfg
               /\ exists taken, plan = taken ++ workQueue s ++ todo s).
  { revert s Hreach.
    apply (rtc_ind_r (R := step cfg)
             (fun s => length (workQueue s) <= capacity cfg
                       /\ exists taken, plan = taken ++ workQueue s ++ todo s)
             (pool_start cfg plan)).
    - simpl. split; [lia|]. exists []. reflexivity.
    - intros s1 s2 _ Hstep [Hlen (taken & Hplan)].
      destruct Hstep; simpl in *.
      + split; [rewrite length_app; simpl; lia|].
        exists taken. rewrite <- app_assoc. exact Hplan.
      + eauto.
      + split; [lia|]. exists (taken ++ [fm]). rewrite <- app_assoc. exact Hplan.
      + eauto.
      + eauto.
      + eauto. }
  destruct Hq as [Hlen (taken & Hplan)].
  split; [unfold capacity in Hlen; lia|].
  exists taken. split; [exact Hplan|].
  destruct (pool_inv_reachable cfg plan s Hreach) as [(k & _ & Hn) _ _ _ _].
  apply (f_equal length) in Hplan. rewrite !length_app in Hplan. lia.
Qed.

Lemma X8_work_queue_witness :
  length (workQueue (mkPool [] [report_move true] false
                       (repeat Receiving (workerCount (example_cfg false))) []))
  <= 2 * workerCount (example_cfg false)
  /\ exists taken,
       [report_move true]
       = taken
         ++ workQueue (mkPool [] [report_move true] false
                         (repeat Receiving (workerCount (example_cfg false))) [])
         ++ todo (mkPool [] [report_move true] false
                    (repeat Receiving (workerCount (example_cfg false))) [])
       /\ length (progressChan
                    (mkPool [] [report_move true] false
                       (repeat Receiving (workerCount (example_cfg false))) []))
          <= length taken.
Proof.
  apply (X8_work_queue_bounded_in_order (example_cfg false) [report_move true]).
  apply rtc_once.
  apply (step_dispatch (example_cfg false) (report_move true) [] []).
  vm_compute. lia.
Defined.

Lemma collect_sums (updates : list ProgressUpdate) :
  collect updates
  = (foldr Nat.add 0 (map Moved updates), foldr Nat.add 0 (map Errored updates)).
Proof.
  unfold collect.
  assert (H : forall acc : nat * nat,
             fold_left
               (fun '(totalProcessed, totalErrors) update =>
                  (totalProcessed + Moved update, totalErrors + Errored update))
               updates acc
             = (fst acc + foldr Nat.add 0 (map Moved updates),
                snd acc + foldr Nat.add 0 (map Errored updates))).
  { induction updates as [|u l IH]; intros [m e]; simpl.
    - f_equal; lia.
    - rewrite IH. simpl. f_equal; lia. }
  apply (H (0, 0)).
Qed.

(** X9.  The totals of the collector of [main] do not depend on the order
    in which the updates of the workers arrive on the progress channel. *)
Theorem X9_collect_order_independent (updates updates' : list ProgressUpdate) :
  updates ≡ₚ updates' -> collect updates = collect updates'.
Proof.
  intros Hp. rewrite !collect_sums.
  induction Hp as [|u l l' _ IH|u u' l|l l' l'' _ IH1 _ IH2]; simpl.
  - reflexivity.
  - injection IH as -> ->. reflexivity.
  - f_equal; lia.
  - rewrite IH1. exact IH2.
Qed.

Lemma X9_collect_witness :
  collect [moved1; errored1; moved1] = collect [errored1; moved1; moved1].
Proof.
  apply (X9_collect_order_independent [moved1; errored1; moved1]
           [errored1; moved1; moved1]).
  apply perm_swap.
Defined.

(** ** The planned moves *)

(** What the callback writes into [filesToMove] (lines 229-236). *)
Definition planned_shape (cfg : Config) (fm : FileMove) : Prop :=
  FileMove_DryRun fm = DryRun cfg
  /\ strings.HasPrefix (SourcePath fm) (DestDir cfg) = false
  /\ DestPath fm
     = filepath.Join
         [filepath.Join
            [DestDir cfg;
             category (CategoryMappings cfg)
               (strings.ToLower (filepath.Ext (SourcePath fm)))];
          filepath.Base (SourcePath fm)].

Lemma scan_planned_shape (cfg : Config) (lstat : error + Node) :
  Forall (planned_shape cfg) (filesToMove (snd (scan cfg lstat))).
Proof.
  unfold scan.
  apply (WalkDir_keeps (scanFn cfg)
           (fun s => Forall (planned_shape cfg) (filesToMove s))).
  - intros path d err s _ Hs. unfold scanFn.
    destruct err as [e|]; [exact Hs|].
    destruct d as [d|]; [|exact Hs].
    destruct (IsDir d).
    + destruct (negb (Recursive cfg) && negb (String.eqb path (SourceDir cfg)));
        exact Hs.
    + destruct (strings.HasPrefix path (DestDir cfg)) eqn:Hp; [exact Hs|].
      cbn [snd filesToMove]. apply Forall_app. split; [exact Hs|].
      apply List.Forall_cons; [|apply List.Forall_nil].
      unfold planned_shape. cbn [SourcePath DestPath FileMove_DryRun]. auto.
  - apply List.Forall_nil.
Qed.

(** A path the walk hands to the callback for an entry of a directory. *)
Definition entry_path (p : string) : Prop :=
  exists dir name, p = filepath.Join [dir; name] /\ entry_name name = true.

Lemma files_of_entry_path (n : Node) :
  entry_names n = true ->
  forall path p, p ∈ files_of path n ->
    match n with
    | File => p = path
    | Directory _ _ => entry_path p
    end.
Proof.
  induction n as [|entries readErr IH] using Node_nested_ind;
    intros Hnames path p Hp.
  - simpl in Hp. apply list_elem_of_In in Hp. destruct Hp as [<-|[]]. reflexivity.
  - cbn [files_of] in Hp. cbn [entry_names] in Hnames.
    apply list_elem_of_In, in_flat_map in Hp as ([name1 n1] & Hin & Hp).
    rewrite forallb_forall in Hnames.
    pose proof (Hnames _ Hin) as Hn. cbn [fst snd] in Hn, Hp.
    apply andb_true_iff in Hn as [Hname1 Hn1].
    rewrite List.Forall_forall in IH. specialize (IH _ Hin). cbn [snd] in IH.
    apply list_elem_of_In in Hp. specialize (IH Hn1 _ _ Hp).
    destruct n1 as [|entries1 readErr1]; [|exact IH].
    subst p. exists path, name1. auto.
Qed.

Lemma top_files_entry_path (entries : list (string * Node)) readErr path p :
  entry_names (Directory entries readErr) = true ->
  p ∈ top_files path (Directory entries readErr) -> entry_path p.
Proof.
  intros Hnames Hp. cbn [top_files] in Hp. cbn [entry_names] in Hnames.
  apply list_elem_of_In, in_flat_map in Hp as ([name1 n1] & Hin & Hp).
  rewrite forallb_forall in Hnames.
  pose proof (Hnames _ Hin) as Hn. cbn [fst snd] in Hn, Hp.
  apply andb_true_iff in Hn as [Hname1 _].
  destruct n1; [|destruct Hp]. destruct Hp as [<-|[]].
  exists path, name1. auto.
Qed.

(** The planned sources of a scan of a directory are paths of entries. *)
Lemma planned_entry_path (cfg : Config) entries readErr (fm : FileMove) :
  entry_names (Directory entries readErr) = true ->
  fm ∈ filesToMove (snd (scan cfg (inr (Directory entries readErr)))) ->
  entry_path (SourcePath fm).
Proof.
  intros Hnames Hfm.
  assert (Hsrc : SourcePath fm
                 ∈ map SourcePath
                     (filesToMove (snd (scan cfg (inr (Directory entries readErr)))))).
  { apply list_elem_of_In, in_map, list_elem_of_In, Hfm. }
  rewrite scan_inr in Hsrc.
  destruct (Recursive cfg) eqn:Hrec.
  - rewrite (walkDir_recursive cfg _ Hrec) in Hsrc. simpl app in Hsrc.
    apply list_elem_of_In, filter_In in Hsrc as [Hsrc _].
    apply list_elem_of_In in Hsrc.
    exact (files_of_entry_path _ Hnames _ _ Hsrc).
  - rewrite (walkDir_nonrecursive cfg _ _ Hrec Hnames) in Hsrc.
    apply list_elem_of_In, filter_In in Hsrc as [Hsrc _].
    apply list_elem_of_In in Hsrc.
    exact (top_files_entry_path _ _ _ _ Hnames Hsrc).
Qed.

Lemma Base_Join_entry (dir name : string) :
  entry_name name = true -> filepath.Base (filepath.Join [dir; name]) = name.
Proof.
  intros Hname. destruct (String.eqb_spec dir "") as [->|Hdir].
  - rewrite (Join_entry_empty name Hname).
    destruct (entry_name_spec name Hname) as (Hn & Hs & _).
    exact (Base_prefix_name "" name (or_introl eq_refl) Hn Hs).
  - apply Join_entry_parts; assumption.
Qed.

Lemma HasPrefix_empty (s : string) : strings.HasPrefix s "" = true.
Proof. destruct s; reflexivity. Qed.

(** Every move planned by the scan of a directory carries the dry-run
    flag of the configuration and a source whose path does not start with
    [DestDir]; its target keeps the base name of the source and lies in the
    directory [Join(DestDir, category)] of the category of the source's
    lower-cased extension. *)
Lemma planned_move_parts (cfg : Config) (entries : list (string * Node))
    (readErr : option error) (fm : FileMove) :
  entry_names (Directory entries readErr) = true ->
  fm ∈ filesToMove (snd (scan cfg (inr (Directory entries readErr)))) ->
  let category :=
    category (CategoryMappings cfg)
      (strings.ToLower (filepath.Ext (SourcePath fm))) in
  FileMove_DryRun fm = DryRun cfg
  /\ strings.HasPrefix (SourcePath fm) (DestDir cfg) = false
  /\ filepath.Base (DestPath fm) = filepath.Base (SourcePath fm)
  /\ filepath.Dir (DestPath fm) = filepath.Join [DestDir cfg; category].
Proof.
  intros Hnames Hfm cat.
  pose proof (scan_planned_shape cfg (inr (Directory entries readErr))) as Hall.
  rewrite List.Forall_forall in Hall.
  destruct (Hall fm (proj1 (list_elem_of_In _ _) Hfm)) as (Hdry & Hpre & Hdest).
  fold cat in Hdest.
  destruct (planned_entry_path cfg entries readErr fm Hnames Hfm)
    as (dir & name & Hsrc & Hname).
  assert (Hbase : filepath.Base (SourcePath fm) = name)
    by (rewrite Hsrc; apply Base_Join_entry, Hname).
  assert (HD : DestDir cfg <> "").
  { intros H0. rewrite H0, HasPrefix_empty in Hpre. discriminate Hpre. }
  assert (HT : filepath.Join [DestDir cfg; cat]
               = filepath.Clean (strings.Join [DestDir cfg; cat] "/")).
  { unfold filepath.Join.
    destruct (String.eqb_spec (DestDir cfg) ""); [contradiction | reflexivity]. }
  assert (HTne : filepath.Join [DestDir cfg; cat] <> "")
    by (rewrite HT; apply Clean_nonempty).
  rewrite Hbase in Hdest.
  destruct (Join_entry_parts _ name Hname HTne) as [HB HDir].
  rewrite <- Hdest in HB, HDir.
  assert (HDir' : filepath.Dir (DestPath fm) = filepath.Join [DestDir cfg; cat]).
  { rewrite HDir, HT. apply Clean_idemp. }
  split; [exact Hdry|]. split; [exact Hpre|]. split; [congruence|].
  exact HDir'.
Qed.

(** X10.  Every move planned by the scan of a directory carries the dry-run
    flag of the configuration and a source whose path does not start with
    [DestDir]; its target keeps the base name of the source and lies in the
    directory [Join(DestDir, category)] of the category of the source's
    lower-cased extension. *)
Theorem X10_planned_move_shape (cfg : Config) (entries : list (string * Node))
    (readErr : option error) (fm : FileMove) :
  entry_names (Directory entries readErr) = true ->
  fm ∈ filesToMove (snd (scan cfg (inr (Directory entries readErr)))) ->
  let category :=
    category (CategoryMappings cfg)
      (strings.ToLower (filepath.Ext (SourcePath fm))) in
  FileMove_DryRun fm = DryRun cfg
  /\ strings.HasPrefix (SourcePath fm) (DestDir cfg) = false
  /\ filepath.Base (DestPath fm) = filepath.Base (SourcePath fm)
  /\ filepath.Dir (DestPath fm) = filepath.Join [DestDir cfg; category].
Proof. apply planned_move_parts. Qed.

Lemma X10_planned_move_witness :
  FileMove_DryRun (mkFileMove "/source/a.txt" "/dest/Documents/a.txt" false)
  = DryRun (example_cfg true)
  /\ strings.HasPrefix
       (SourcePath (mkFileMove "/source/a.txt" "/dest/Documents/a.txt" false))
       (DestDir (example_cfg true)) = false
  /\ filepath.Base
       (DestPath (mkFileMove "/source/a.txt" "/dest/Documents/a.txt" false))
     = filepath.Base
         (SourcePath (mkFileMove "/source/a.txt" "/dest/Documents/a.txt" false))
  /\ filepath.Dir
       (DestPath (mkFileMove "/source/a.txt" "/dest/Documents/a.txt" false))
     = filepath.Join
         [DestDir (example_cfg true);
          category (CategoryMappings (example_cfg true))
            (strings.ToLower
               (filepath.Ext
                  (SourcePath
                     (mkFileMove "/source/a.txt" "/dest/Documents/a.txt" false))))].
Proof.
  apply (X10_planned_move_shape (example_cfg true)
           [("a.txt", File); ("sub", Directory [("b.txt", File)] None)] None
           (mkFileMove "/source/a.txt" "/dest/Documents/a.txt" false)).
  - reflexivity.
  - vm_compute. left.
Defined.

(** The target of a move into a category directory of a clean absolute
    destination starts with the destination. *)
Lemma Join_category_prefix (destDir category name : string) :
  filepath.rooted destDir = true -> filepath.Clean destDir = destDir ->
  entry_name category = true -> entry_name name = true ->
  strings.HasPrefix (filepath.Join [filepath.Join [destDir; category]; name])
                    destDir = true.
Proof.
  intros Hroot Hclean Hcat Hname.
  assert (HD : destDir <> "") by (intros ->; discriminate Hroot).
  set (out := fold_left (filepath.clean_step true)
                        (strings.SplitSlash destDir) []).
  assert (Hout : clean_out true out).
  { pose proof (Clean_out destDir) as H. rewrite Hroot in H. exact H. }
  assert (HDr : destDir = render true out).
  { rewrite <- Hclean at 1. rewrite Clean_render, Hroot. reflexivity. }
  destruct (entry_name_spec category Hcat) as (Hc1 & Hc2 & Hc3 & Hc4).
  destruct (entry_name_spec name Hname) as (Hn1 & Hn2 & Hn3 & Hn4).
  assert (Hout1 : clean_out true (category :: out)).
  { simpl. repeat split; try assumption; contradiction. }
  assert (Hout2 : clean_out true (name :: category :: out)).
  { cbn [clean_out]. cbn [clean_out] in Hout1.
    repeat split; try tauto; contradiction. }
  assert (HT : filepath.Join [destDir; category] = render true (category :: out)).
  { rewrite (Join_entry destDir category Hcat HD), Hroot. reflexivity. }
  destruct (render_clean true (category :: out) Hout1) as [Hr1 Hf1].
  rewrite HT.
  rewrite (Join_entry _ name Hname (render_nonempty _ _)), Hr1, Hf1.
  rewrite (render_cons true name _ Hout2). unfold before_last at 1.
  rewrite (render_cons true category _ Hout1).
  apply HasPrefix_spec.
  destruct out as [|e out'].
  - cbn [before_last]. rewrite HDr. unfold render. simpl rev.
    exists (category +:+ "/" +:+ name).
    unfold strings.Join. simpl String.concat.
    rewrite !app_assoc_string. reflexivity.
  - cbn [before_last]. rewrite <- HDr.
    exists ("/" +:+ category +:+ "/" +:+ name).
    rewrite !app_assoc_string. reflexivity.
Qed.

Lemma category_entry_name (mappings : gmap string string) (ext : string) :
  (forall e c, mappings !! e = Some c -> entry_name c = true) ->
  entry_name (category mappings ext) = true.
Proof.
  intros H. unfold category. destruct (mappings !! ext) as [c|] eqn:E.
  - exact (H ext c E).
  - reflexivity.
Qed.

Lemma default_categories_entry_names (ext c : string) :
  DefaultCategoryMappings !! ext = Some c -> entry_name c = true.
Proof.
  intros H. apply default_lookup_inv in H.
  assert (Hall : forallb (fun kv => entry_name kv.2) default_entries = true)
    by (vm_compute; reflexivity).
  rewrite forallb_forall in Hall.
  exact (Hall (ext, c) (proj1 (list_elem_of_In _ _) H)).
Qed.

(** X11.  With a destination that is absolute and clean (as [main] passes
    it) and categories that are plain directory names, a planned move never
    has its source as target, and the path [moveFile] moves the file to,
    the target or its stamped name, starts with [DestDir]: a later scan
    with the same destination that meets the file there counts it as
    skipped and plans nothing for it. *)
Theorem X11_moved_files_are_skipped (cfg : Config)
    (entries : list (string * Node)) (readErr : option error) (fm : FileMove) :
  entry_names (Directory entries readErr) = true ->
  filepath.rooted (DestDir cfg) = true ->
  filepath.Clean (DestDir cfg) = DestDir cfg ->
  (forall ext c, CategoryMappings cfg !! ext = Some c -> entry_name c = true) ->
  fm ∈ filesToMove (snd (scan cfg (inr (Directory entries readErr)))) ->
  DestPath fm <> SourcePath fm
  /\ forall final,
       final = DestPath fm
       \/ (exists now,
             final = timestamped (DestPath fm) (filepath.Dir (DestPath fm)) now) ->
       strings.HasPrefix final (DestDir cfg) = true
       /\ forall name s,
            scanFn cfg final (Some (mkDirEntry name false)) None s
            = (None, mkScanState (S (totalScanned s)) (S (totalSkipped s))
                       (scanErr s) (filesToMove s)).
Proof.
  intros Hnames Hroot Hclean Hcats Hfm.
  destruct (planned_move_parts cfg entries readErr fm Hnames Hfm)
    as (_ & Hpre & Hbase & Hdir).
  pose proof (scan_planned_shape cfg (inr (Directory entries readErr))) as Hall.
  rewrite List.Forall_forall in Hall.
  destruct (Hall fm (proj1 (list_elem_of_In _ _) Hfm)) as (_ & _ & Hdest).
  destruct (planned_entry_path cfg entries readErr fm Hnames Hfm)
    as (dir & name & Hsrc & Hname).
  assert (Hb : filepath.Base (SourcePath fm) = name)
    by (rewrite Hsrc; apply Base_Join_entry, Hname).
  rewrite Hb in Hdest, Hbase.
  set (cat := category (CategoryMappings cfg)
                (strings.ToLower (filepath.Ext (SourcePath fm)))) in *.
  assert (Hcat : entry_name cat = true) by apply category_entry_name, Hcats.
  assert (Hp : strings.HasPrefix (DestPath fm) (DestDir cfg) = true).
  { rewrite Hdest. apply Join_category_prefix; assumption. }
  assert (Hfinal : forall final,
             final = DestPath fm
             \/ (exists now,
                   final = timestamped (DestPath fm) (filepath.Dir (DestPath fm)) now) ->
             strings.HasPrefix final (DestDir cfg) = true).
  { intros final [->|[now ->]]; [exact Hp|].
    assert (Hne : filepath.Base (DestPath fm) <> "/").
    { rewrite Hbase. intros ->. discriminate Hname. }
    destruct (stamped_name_entry (DestPath fm) now Hne) as [Hstamp _].
    change (timestamped (DestPath fm) (filepath.Dir (DestPath fm)) now)
      with (filepath.Join [filepath.Dir (DestPath fm);
                           stamped_name (DestPath fm) now]).
    rewrite Hdir. apply Join_category_prefix; assumption. }
  split.
  - intros Heq. rewrite Heq in Hp. rewrite Hp in Hpre. discriminate Hpre.
  - intros final Hf. pose proof (Hfinal final Hf) as Hpf.
    split; [exact Hpf|]. intros name' s. rewrite scanFn_file, Hpf. reflexivity.
Qed.

Lemma X11_moved_files_witness :
  DestPath (mkFileMove "/source/a.txt" "/dest/Documents/a.txt" false)
  <> SourcePath (mkFileMove "/source/a.txt" "/dest/Documents/a.txt" false)
  /\ forall final,
       final = DestPath (mkFileMove "/source/a.txt" "/dest/Documents/a.txt" false)
       \/ (exists now,
             final
             = timestamped
                 (DestPath (mkFileMove "/source/a.txt" "/dest/Documents/a.txt" false))
                 (filepath.Dir
                    (DestPath
                       (mkFileMove "/source/a.txt" "/dest/Documents/a.txt" false)))
                 now) ->
       strings.HasPrefix final (DestDir (example_cfg true)) = true
       /\ forall name s,
            scanFn (example_cfg true) final (Some (mkDirEntry name false)) None s
            = (None, mkScanState (S (totalScanned s)) (S (totalSkipped s))
                       (scanErr s) (filesToMove s)).
Proof.
  apply (X11_moved_files_are_skipped (example_cfg true)
           [("a.txt", File); ("sub", Directory [("b.txt", File)] None)] None
           (mkFileMove "/source/a.txt" "/dest/Documents/a.txt" false)).
  - reflexivity.
  - reflexivity.
  - reflexivity.
  - exact default_categories_entry_names.
  - vm_compute. left.
Defined.

(** ** The scan-only version: the walk stops at the first error *)

Definition is_error_line (o : oragnizer.Output) : bool :=
  match o with
  | oragnizer.ErrorAccessing _ _ => true
  | _ => false
  end.

Definition is_proposal (o : oragnizer.Output) : bool :=
  match o with
  | oragnizer.ProposedMove _ _ => true
  | _ => false
  end.

Definition no_error_line (out : list oragnizer.Output) : Prop :=
  Forall (fun o => is_error_line o = false) out.

(** What a part of the walk adds to the state: lines without an error line
    and one more file per proposal when it returns [nil]; lines that end
    with the one error line when it returns an error, which is then an
    error of the operating system. *)
Definition walked (r : option error) (s s' : oragnizer.ScanState) : Prop :=
  exists new,
    oragnizer.stdout s' = oragnizer.stdout s ++ new
    /\ match r with
       | None =>
           no_error_line new
           /\ oragnizer.fileCount s'
              = oragnizer.fileCount s + length (List.filter is_proposal new)
       | Some e =>
           is_sentinel e = false
           /\ exists path before,
                new = before ++ [oragnizer.ErrorAccessing path e]
                /\ no_error_line before
       end.

Lemma walked_refl (s : oragnizer.ScanState) : walked None s s.
Proof.
  exists []. rewrite app_nil_r. split; [reflexivity|].
  split; [apply List.Forall_nil | simpl; lia].
Qed.

Lemma walked_trans (r : option error) (s s1 s2 : oragnizer.ScanState) :
  walked None s s1 -> walked r s1 s2 -> walked r s s2.
Proof.
  intros (new1 & H1 & Hn1 & Hc1) (new2 & H2 & Hr).
  exists (new1 ++ new2). rewrite H2, H1, app_assoc. split; [reflexivity|].
  destruct r as [e|].
  - destruct Hr as (He & path & before & -> & Hb). split; [exact He|].
    exists path, (new1 ++ before). rewrite app_assoc. split; [reflexivity|].
    apply Forall_app. split; assumption.
  - destruct Hr as [Hn2 Hc2]. split; [apply Forall_app; split; assumption|].
    rewrite List.filter_app, length_app. lia.
Qed.

Lemma walked_error (cfg : oragnizer.Config) path d e s :
  is_sentinel e = false ->
  oragnizer.scanFn cfg path d (Some e) s
  = (Some e, oragnizer.mkScanState (oragnizer.fileCount s)
               (oragnizer.stdout s ++ [oragnizer.ErrorAccessing path e]))
  /\ walked (Some e) s
       (oragnizer.mkScanState (oragnizer.fileCount s)
          (oragnizer.stdout s ++ [oragnizer.ErrorAccessing path e])).
Proof.
  intros He. split; [reflexivity|].
  exists [oragnizer.ErrorAccessing path e]. split; [reflexivity|].
  split; [exact He|]. exists path, []. split; [reflexivity | apply List.Forall_nil].
Qed.

Lemma walkDir_walked (cfg : oragnizer.Config) (n : Node) :
  os_errors n = true ->
  forall path name s,
    walked (fst (walkDir (oragnizer.scanFn cfg) path name n s)) s
           (snd (walkDir (oragnizer.scanFn cfg) path name n s)).
Proof.
  induction n as [|entries readErr IH] using Node_nested_ind;
    intros Hos path name s.
  - rewrite walkDir_File. unfold oragnizer.scanFn. cbn [IsDir fst snd].
    eexists. cbn [oragnizer.stdout oragnizer.fileCount].
    split; [reflexivity|]. split.
    + repeat constructor.
    + simpl. lia.
  - cbn [os_errors] in Hos. apply andb_true_iff in Hos as [Hread Hentries].
    assert (Hloop : forall s0,
      walked (fst (walkEntries (oragnizer.scanFn cfg) path entries s0)) s0
             (snd (walkEntries (oragnizer.scanFn cfg) path entries s0))).
    { clear Hread. induction IH as [|[name1 n1] l Hn1 _ IHl]; intros s0.
      - rewrite walkEntries_nil. apply walked_refl.
      - cbn [forallb snd] in Hentries.
        apply andb_true_iff in Hentries as [Hos1 Hl].
        rewrite walkEntries_cons. cbn [snd] in Hn1.
        specialize (Hn1 Hos1 (filepath.Join [path; name1]) name1 s0).
        destruct (walkDir (oragnizer.scanFn cfg) (filepath.Join [path; name1])
                          name1 n1 s0) as [[e|] s'] eqn:E; cbn [fst snd] in Hn1.
        + assert (He : is_sentinel e = false) by (destruct Hn1 as (? & _ & ? & _); assumption).
          destruct e; try discriminate He; exact Hn1.
        + eapply walked_trans; [exact Hn1 | apply IHl, Hl]. }
    rewrite walkDir_Directory.
    assert (Hdir : oragnizer.scanFn cfg path (Some (mkDirEntry name true)) None s
                   = if negb (oragnizer.Recursive cfg)
                        && negb (String.eqb path (oragnizer.SourceDir cfg))
                     then (Some SkipDir, s) else (None, s)) by reflexivity.
    rewrite Hdir. clear Hdir.
    destruct (negb (oragnizer.Recursive cfg)
              && negb (String.eqb path (oragnizer.SourceDir cfg)));
      cbv beta iota.
    + apply walked_refl.
    + destruct readErr as [rerr|]; [|apply Hloop].
      apply negb_true_iff in Hread.
      destruct (walked_error cfg path (Some (mkDirEntry name true)) rerr s Hread)
        as [-> Hw].
      destruct rerr; try discriminate Hread; exact Hw.
Qed.

(** X12.  The scan-only [OrganizeFiles] of the first version stops at the
    first entry the walk cannot access: the line about that entry is the
    last it prints, no summary follows, and it returns that error wrapped
    in "error walking directory".  When it returns [nil] it has printed no
    such line, and the number of files in its summary is the number of
    moves it proposed.  (The errors are those of the operating system,
    not the sentinels of [io/fs].) *)
Theorem X12_scan_only_stops_at_first_error (cfg : oragnizer.Config)
    (lstat : error + Node) :
  os_lstat lstat = true ->
  match oragnizer.OrganizeFiles cfg lstat with
  | (Some err, out) =>
      exists path e body,
        err = Errorf ("error walking directory '"
                      +:+ oragnizer.SourceDir cfg +:+ "'") e
        /\ is_sentinel e = false
        /\ out = oragnizer.Starting (oragnizer.SourceDir cfg) (oragnizer.DestDir cfg)
                 :: (if oragnizer.DryRun cfg then [oragnizer.DryRunMode] else [])
                 ++ body ++ [oragnizer.ErrorAccessing path e]
        /\ no_error_line body
  | (None, out) =>
      exists body,
        out = oragnizer.Starting (oragnizer.SourceDir cfg) (oragnizer.DestDir cfg)
              :: (if oragnizer.DryRun cfg then [oragnizer.DryRunMode] else [])
              ++ body
              ++ [oragnizer.Scanned (length (List.filter is_proposal body));
                  oragnizer.Completed]
        /\ no_error_line body
  end.
Proof.
  intros Hos. unfold oragnizer.OrganizeFiles.
  set (start := oragnizer.mkScanState 0
                  (oragnizer.Starting (oragnizer.SourceDir cfg) (oragnizer.DestDir cfg)
                   :: (if oragnizer.DryRun cfg then [oragnizer.DryRunMode] else []))).
  assert (Hw : walked (fst (WalkDir (oragnizer.scanFn cfg) (oragnizer.SourceDir cfg)
                              lstat start)) start
                      (snd (WalkDir (oragnizer.scanFn cfg) (oragnizer.SourceDir cfg)
                              lstat start))).
  { unfold WalkDir. destruct lstat as [e|n]; simpl in Hos.
    - apply negb_true_iff in Hos.
      destruct (walked_error cfg (oragnizer.SourceDir cfg) None e start Hos)
        as [-> Hw].
      destruct e; try discriminate Hos; exact Hw.
    - pose proof (walkDir_walked cfg n Hos (oragnizer.SourceDir cfg)
                    (filepath.Base (oragnizer.SourceDir cfg)) start) as Hw.
      destruct (walkDir (oragnizer.scanFn cfg) (oragnizer.SourceDir cfg)
                        (filepath.Base (oragnizer.SourceDir cfg)) n start)
        as [[e|] s']; cbn [fst snd] in Hw; [|exact Hw].
      assert (He : is_sentinel e = false)
        by (destruct Hw as (? & _ & ? & _); assumption).
      destruct e; try discriminate He; exact Hw. }
  destruct (WalkDir (oragnizer.scanFn cfg) (oragnizer.SourceDir cfg) lstat start)
    as [[e|] s']; cbn [fst snd] in Hw;
    destruct Hw as (new & Hout & Hr); rewrite Hout; subst start;
    cbn [oragnizer.stdout oragnizer.fileCount] in *.
  - destruct Hr as (He & path & before & -> & Hb).
    exists path, e, before. auto.
  - destruct Hr as [Hn Hc]. exists new. rewrite Hc.
    rewrite <- app_assoc. auto.
Qed.

Lemma X12_scan_only_witness :
  match oragnizer.OrganizeFiles (oragnizer.mkConfig "/src" "/out" false true 2)
          (inr unreadable_tree) with
  | (Some err, out) =>
      exists path e body,
        err = Errorf ("error walking directory '"
                      +:+ oragnizer.SourceDir
                            (oragnizer.mkConfig "/src" "/out" false true 2)
                      +:+ "'") e
        /\ is_sentinel e = false
        /\ out = oragnizer.Starting
                   (oragnizer.SourceDir (oragnizer.mkConfig "/src" "/out" false true 2))
                   (oragnizer.DestDir (oragnizer.mkConfig "/src" "/out" false true 2))
                 :: (if oragnizer.DryRun (oragnizer.mkConfig "/src" "/out" false true 2)
                     then [oragnizer.DryRunMode] else [])
                 ++ body ++ [oragnizer.ErrorAccessing path e]
        /\ no_error_line body
  | (None, out) =>
      exists body,
        out = oragnizer.Starting
                (oragnizer.SourceDir (oragnizer.mkConfig "/src" "/out" false true 2))
                (oragnizer.DestDir (oragnizer.mkConfig "/src" "/out" false true 2))
              :: (if oragnizer.DryRun (oragnizer.mkConfig "/src" "/out" false true 2)
                  then [oragnizer.DryRunMode] else [])
              ++ body
              ++ [oragnizer.Scanned (length (List.filter is_proposal body));
                  oragnizer.Completed]
        /\ no_error_line body
  end.
Proof.
  apply (X12_scan_only_stops_at_first_error
           (oragnizer.mkConfig "/src" "/out" false true 2) (inr unreadable_tree)).
  reflexivity.
Defined.

Example scan_only_unreadable :
  oragnizer.OrganizeFiles (oragnizer.mkConfig "/src" "/out" false true 2)
    (inr unreadable_tree)
  = (Some (Errorf "error walking directory '/src'" denied_a),
     [oragnizer.Starting "/src" "/out"; oragnizer.ErrorAccessing "/src/a" denied_a]).
Proof. vm_compute. reflexivity. Qed.

(** ** The first [moveFile] and the one that reports progress *)






(** A program that makes no reporting call. *)
Fixpoint unreported {A : Type} (p : Prog A) : Prop :=
  match p with
  | Ret _ | Panic => True
  | Vis c k => reporting c = false /\ forall r, unreported (k r)
  end.

Lemma unreported_bind {A B : Type} (p : Prog A) (f : A -> Prog B) :
  unreported p -> (forall a, unreported (f a)) -> unreported (bind p f).
Proof.
  intros Hp Hf. induction p as [a| |c k IH]; simpl.
  - apply Hf.
  - exact I.
  - destruct Hp as [Hc Hk]. split; [exact Hc|]. intros r. apply IH, Hk.
Qed.















(** ** A source inside the destination *)

Lemma HasPrefix_refl (s : string) : strings.HasPrefix s s = true.
Proof. apply HasPrefix_spec. exists "". symmetry. apply app_empty_r. Qed.

Lemma HasPrefix_trans (a b c : string) :
  strings.HasPrefix a b = true -> strings.HasPrefix b c = true ->
  strings.HasPrefix a c = true.
Proof.
  rewrite !HasPrefix_spec. intros [x ->] [y ->]. exists (y +:+ x).
  apply app_assoc_string.
Qed.

Lemma Join_rooted_clean (dir name : string) :
  filepath.rooted dir = true ->
  filepath.rooted (filepath.Join [dir; name]) = true
  /\ filepath.Clean (filepath.Join [dir; name]) = filepath.Join [dir; name].
Proof.
  intros Hroot. destruct dir as [|c dir]; [discriminate Hroot|].
  unfold filepath.Join. cbn [String.eqb].
  split; [apply Clean_rooted; exact Hroot | apply Clean_idemp].
Qed.

(** The path of an entry of a clean absolute directory starts with the
    path of the directory. *)
Lemma Join_entry_prefix (dir name : string) :
  filepath.rooted dir = true -> filepath.Clean dir = dir ->
  entry_name name = true ->
  strings.HasPrefix (filepath.Join [dir; name]) dir = true.
Proof.
  intros Hroot Hclean Hname.
  assert (HD : dir <> "") by (intros ->; discriminate Hroot).
  set (out := fold_left (filepath.clean_step true) (strings.SplitSlash dir) []).
  assert (Hout : clean_out true out).
  { pose proof (Clean_out dir) as H. rewrite Hroot in H. exact H. }
  assert (HDr : dir = render true out).
  { rewrite <- Hclean at 1. rewrite Clean_render, Hroot. reflexivity. }
  destruct (entry_name_spec name Hname) as (Hn1 & Hn2 & Hn3 & Hn4).
  assert (Hout1 : clean_out true (name :: out)).
  { simpl. repeat split; try assumption; contradiction. }
  rewrite (Join_entry dir name Hname HD), Hroot. fold out.
  rewrite (render_cons true name _ Hout1).
  apply HasPrefix_spec.
  destruct out as [|e out'].
  - cbn [before_last]. rewrite HDr. exists name. reflexivity.
  - cbn [before_last]. rewrite <- HDr. exists ("/" +:+ name).
    rewrite !app_assoc_string. reflexivity.
Qed.

Lemma files_of_prefix (n : Node) :
  entry_names n = true ->
  forall path p,
    filepath.rooted path = true -> filepath.Clean path = path ->
    p ∈ files_of path n -> strings.HasPrefix p path = true.
Proof.
  induction n as [|entries readErr IH] using Node_nested_ind;
    intros Hnames path p Hroot Hclean Hp.
  - simpl in Hp. apply list_elem_of_In in Hp. destruct Hp as [<-|[]].
    apply HasPrefix_refl.
  - cbn [files_of] in Hp. cbn [entry_names] in Hnames.
    apply list_elem_of_In, in_flat_map in Hp as ([name1 n1] & Hin & Hp).
    rewrite forallb_forall in Hnames.
    pose proof (Hnames _ Hin) as Hn. cbn [fst snd] in Hn, Hp.
    apply andb_true_iff in Hn as [Hname1 Hn1].
    rewrite List.Forall_forall in IH. specialize (IH _ Hin). cbn [snd] in IH.
    destruct (Join_rooted_clean path name1 Hroot) as [Hr1 Hc1].
    apply list_elem_of_In in Hp.
    apply (HasPrefix_trans _ (filepath.Join [path; name1])).
    + exact (IH Hn1 _ _ Hr1 Hc1 Hp).
    + apply Join_entry_prefix; assumption.
Qed.

Lemma top_files_files_of (n : Node) (path p : string) :
  p ∈ top_files path n -> p ∈ files_of path n.
Proof.
  destruct n as [|entries readErr]; [exact (fun H => H)|].
  cbn [top_files files_of]. intros Hp.
  apply list_elem_of_In, in_flat_map in Hp as ([name1 n1] & Hin & Hp).
  apply list_elem_of_In, in_flat_map. exists (name1, n1). split; [exact Hin|].
  cbn [fst snd] in *. destruct n1; [exact Hp | destruct Hp].
Qed.

Lemma filter_none {A : Type} (f : A -> bool) (l : list A) :
  (forall x, x ∈ l -> f x = false) -> List.filter f l = [].
Proof.
  induction l as [|x l IH]; intros H; simpl; [reflexivity|].
  rewrite (H x) by left. apply IH. intros y Hy. apply H. right. exact Hy.
Qed.

(** X14.  When the source directory (absolute and clean, as [main] passes
    it) lies in the destination, or is the destination, or the destination
    is empty, every path of the walk starts with [DestDir]: nothing is
    planned, nothing is handed to the workers, and every file visited is
    counted as skipped. *)
Theorem X14_source_inside_destination (cfg : Config) (n : Node) :
  filepath.rooted (SourceDir cfg) = true ->
  filepath.Clean (SourceDir cfg) = SourceDir cfg ->
  entry_names n = true ->
  strings.HasPrefix (SourceDir cfg) (DestDir cfg) = true ->
  let out := OrganizeFiles cfg (inr n) in
  dispatched out = []
  /\ ret_totalToProcess out = 0
  /\ ret_totalSkipped out = length (filesVisited cfg (inr n)).
Proof.
  intros Hroot Hclean Hnames Hin out. subst out.
  rewrite OrganizeFiles_unfold. cbv zeta.
  cbn [dispatched ret_totalToProcess ret_totalSkipped].
  assert (Hplanned : planned cfg (inr n) = []).
  { unfold planned. rewrite scan_inr.
    assert (Hsub : forall p, p ∈ files_of (SourceDir cfg) n ->
                             not_in_dest cfg p = false).
    { intros p Hp. unfold not_in_dest. apply negb_false_iff.
      apply (HasPrefix_trans _ (SourceDir cfg)); [|exact Hin].
      exact (files_of_prefix n Hnames _ _ Hroot Hclean Hp). }
    destruct (Recursive cfg) eqn:Hrec.
    - rewrite (walkDir_recursive cfg n Hrec). simpl app.
      apply filter_none, Hsub.
    - rewrite (walkDir_nonrecursive cfg n _ Hrec Hnames).
      apply filter_none. intros p Hp. apply Hsub, top_files_files_of, Hp. }
  assert (Hnil : filesToMove (snd (scan cfg (inr n))) = []).
  { unfold planned in Hplanned.
    destruct (filesToMove (snd (scan cfg (inr n)))); [reflexivity | discriminate]. }
  rewrite Hnil. split; [reflexivity|]. split; [reflexivity|].
  destruct (scan_inv_holds cfg (inr n)) as (_ & Hskip & Hplan & _).
  unfold planned in Hplanned. rewrite Hplanned in Hplan.
  rewrite Hskip. unfold filesVisited.
  pose proof (filter_split_length
                (fun p => strings.HasPrefix p (DestDir cfg))
                (map visit_path (List.filter is_file_visit (visits cfg (inr n)))))
    as H.
  cbv beta in H. rewrite <- Hplan in H. simpl in H. lia.
Qed.

Lemma X14_source_inside_destination_witness :
  dispatched (OrganizeFiles
                (mkConfig "/home/u/downloads" "/home/u" false true 2
                   DefaultCategoryMappings false) (inr example_tree)) = []
  /\ ret_totalToProcess
       (OrganizeFiles
          (mkConfig "/home/u/downloads" "/home/u" false true 2
             DefaultCategoryMappings false) (inr example_tree)) = 0
  /\ ret_totalSkipped
       (OrganizeFiles
          (mkConfig "/home/u/downloads" "/home/u" false true 2
             DefaultCategoryMappings false) (inr example_tree))
     = length (filesVisited
                 (mkConfig "/home/u/downloads" "/home/u" false true 2
                    DefaultCategoryMappings false) (inr example_tree)).
Proof.
  apply (X14_source_inside_destination
           (mkConfig "/home/u/downloads" "/home/u" false true 2
              DefaultCategoryMappings false) example_tree);
    reflexivity.
Defined.

(** ** The extension of a moved file *)

(** A byte that is neither a separator nor a dot, and strings of them. *)
Definition plain (c : ascii) : bool :=
  negb (filepath.IsPathSeparator c) && negb (Ascii.eqb c ".").

Definition plain_string (s : string) : Prop :=
  Forall (fun c => plain c = true) (list_ascii_of_string s).

Lemma plain_string_app (a b : string) :
  plain_string a -> plain_string b -> plain_string (a +:+ b).
Proof.
  unfold plain_string. rewrite chars_app. intros Ha Hb.
  apply Forall_app. split; assumption.
Qed.

Lemma ext_loop_plain (l more : list ascii) (suffix : string) :
  Forall (fun c => plain c = true) l ->
  filepath.ext_loop (l ++ more) suffix
  = filepath.ext_loop more (string_of_list_ascii (rev l) +:+ suffix).
Proof.
  revert suffix. induction l as [|c l IH]; intros suffix Hl; simpl; [reflexivity|].
  apply Forall_cons in Hl as [Hc Hl].
  unfold plain in Hc. apply andb_true_iff in Hc as [Hs Hd].
  apply negb_true_iff in Hs, Hd. rewrite Hs, Hd, (IH _ Hl).
  f_equal. rewrite string_of_chars_app, app_assoc_string. reflexivity.
Qed.

(** The extension is read off a name without separator. *)
Lemma ext_loop_name (l more : list ascii) (suffix : string) :
  more = [] \/ (exists more', more = "/"%char :: more') ->
  Forall (fun c => filepath.IsPathSeparator c = false) l ->
  filepath.ext_loop (l ++ more) suffix = filepath.ext_loop l suffix.
Proof.
  intros Hmore. revert suffix.
  induction l as [|c l IH]; intros suffix Hl; simpl.
  - destruct Hmore as [->|[more' ->]]; reflexivity.
  - apply Forall_cons in Hl as [Hc Hl]. rewrite Hc.
    destruct (Ascii.eqb c "."); [reflexivity | apply IH, Hl].
Qed.

Lemma Ext_prefix_name (p e : string) :
  dir_prefix p -> has_separator e = false ->
  filepath.Ext (p +:+ e) = filepath.Ext e.
Proof.
  intros Hp Hs. unfold filepath.Ext. rewrite chars_app, rev_app_distr.
  apply ext_loop_name.
  - destruct (dir_prefix_chars p Hp) as [->|[l ->]]; eauto.
  - apply List.Forall_rev, has_separator_chars, Hs.
Qed.

(** The extension of a string that ends with a dot and plain bytes. *)
Lemma Ext_dot_plain (x rest : string) :
  plain_string rest ->
  filepath.Ext (x +:+ String "." rest) = String "." rest.
Proof.
  intros Hrest. unfold filepath.Ext.
  rewrite chars_app, rev_app_distr. simpl list_ascii_of_string. simpl rev.
  rewrite <- app_assoc.
  rewrite (ext_loop_plain _ _ _ (List.Forall_rev Hrest)).
  rewrite rev_involutive, string_of_list_ascii_of_string, app_empty_r.
  reflexivity.
Qed.

Lemma Ext_plain (s : string) : plain_string s -> filepath.Ext s = "".
Proof.
  intros Hs. unfold filepath.Ext.
  rewrite <- (app_nil_r (rev (list_ascii_of_string s))).
  rewrite (ext_loop_plain _ _ _ (List.Forall_rev Hs)). reflexivity.
Qed.

(** What [Ext] returns: nothing, or a dot and plain bytes. *)
Lemma ext_loop_form (before : list ascii) (suffix : string) :
  plain_string suffix ->
  filepath.ext_loop before suffix = ""
  \/ exists rest,
       filepath.ext_loop before suffix = String "." rest /\ plain_string rest.
Proof.
  revert suffix. induction before as [|c before IH]; intros suffix Hs; simpl;
    [left; reflexivity|].
  destruct (filepath.IsPathSeparator c) eqn:Hc; [left; reflexivity|].
  destruct (Ascii.eqb_spec c ".") as [->|Hd].
  - right. exists suffix. auto.
  - apply IH. unfold plain_string. simpl. apply List.Forall_cons; [|exact Hs].
    unfold plain. rewrite Hc. simpl. apply negb_true_iff, Ascii.eqb_neq, Hd.
Qed.

Lemma Ext_form (path : string) :
  filepath.Ext path = ""
  \/ exists rest, filepath.Ext path = String "." rest /\ plain_string rest.
Proof. apply ext_loop_form. constructor. Qed.

(** A name without separator and without extension is plain. *)
Lemma ext_loop_empty (l : list ascii) (suffix : string) :
  Forall (fun c => filepath.IsPathSeparator c = false) l ->
  filepath.ext_loop l suffix = "" -> Forall (fun c => plain c = true) l.
Proof.
  revert suffix. induction l as [|c l IH]; intros suffix Hl; simpl;
    [constructor|].
  apply Forall_cons in Hl as [Hc Hl]. rewrite Hc.
  destruct (Ascii.eqb c ".") eqn:Hd; [discriminate|].
  intros H. apply List.Forall_cons; [|exact (IH _ Hl H)].
  unfold plain. rewrite Hc, Hd. reflexivity.
Qed.

Lemma Ext_empty_plain (name : string) :
  has_separator name = false -> filepath.Ext name = "" -> plain_string name.
Proof.
  intros Hs He. unfold plain_string.
  rewrite <- (rev_involutive (list_ascii_of_string name)).
  apply List.Forall_rev.
  apply (ext_loop_empty _ ""); [|exact He].
  apply List.Forall_rev, has_separator_chars, Hs.
Qed.

Lemma digit_plain (n : nat) : plain (time.digit n) = true.
Proof.
  unfold time.digit.
  assert (Hlt : n mod 10 < 10) by (apply Nat.mod_upper_bound; discriminate).
  generalize dependent (n mod 10). intros m Hlt.
  do 10 (destruct m as [|m]; [reflexivity|]). lia.
Qed.

Lemma digits_plain (fuel n : nat) (acc : string) :
  plain_string acc -> plain_string (time.digits fuel n acc).
Proof.
  revert n acc. induction fuel as [|fuel IH]; intros n acc Hacc;
    cbn [time.digits]; [exact Hacc|].
  assert (Hd : plain_string (String (time.digit n) acc)).
  { unfold plain_string. cbn [list_ascii_of_string].
    apply List.Forall_cons; [apply digit_plain | exact Hacc]. }
  destruct (n / 10 =? 0)%nat; [exact Hd | apply IH, Hd].
Qed.

Lemma zeros_plain (k : nat) (s : string) :
  plain_string s -> plain_string (time.zeros k s).
Proof.
  intros Hs. induction k as [|k IH]; [exact Hs|].
  cbn [time.zeros]. unfold plain_string. cbn [list_ascii_of_string].
  apply List.Forall_cons; [reflexivity | exact IH].
Qed.

Lemma appendInt_plain (x width : nat) : plain_string (time.appendInt x width).
Proof.
  unfold time.appendInt. apply zeros_plain, digits_plain. constructor.
Qed.

Lemma Format_plain (t : time.Time) :
  plain_string (time.Format_20060102_150405 t).
Proof.
  unfold time.Format_20060102_150405.
  repeat (apply plain_string_app; [apply appendInt_plain|]).
  apply plain_string_app; [repeat constructor|].
  repeat (apply plain_string_app; [apply appendInt_plain|]).
  apply appendInt_plain.
Qed.

Lemma substring_full (s : string) : substring 0 (String.length s) s = s.
Proof. induction s as [|c s IH]; simpl; [reflexivity | rewrite IH; reflexivity]. Qed.

Lemma TrimSuffix_empty (s : string) : strings.TrimSuffix s "" = s.
Proof.
  unfold strings.TrimSuffix. destruct (strings.HasSuffix s ""); [|reflexivity].
  simpl String.length. rewrite Nat.sub_0_r. apply substring_full.
Qed.

(** The path of an entry ends with the name of the entry, after a
    directory prefix. *)
Lemma Join_entry_split (dir name : string) :
  entry_name name = true ->
  exists prefix,
    filepath.Join [dir; name] = prefix +:+ name /\ dir_prefix prefix.
Proof.
  intros Hname. destruct (String.eqb_spec dir "") as [->|Hdir].
  - exists "". rewrite (Join_entry_empty name Hname).
    split; [reflexivity | left; reflexivity].
  - rewrite (Join_entry dir name Hname Hdir).
    destruct (entry_name_spec name Hname) as (Hn & Hs & Hdot & Hdd).
    set (r := filepath.rooted dir).
    set (out := fold_left (filepath.clean_step r) (strings.SplitSlash dir) []).
    assert (Hout : clean_out r out) by apply Clean_out.
    assert (Hout' : clean_out r (name :: out)).
    { simpl. repeat split; try assumption; contradiction. }
    exists (before_last r out).
    split; [apply render_cons, Hout' | apply before_last_prefix].
Qed.

Lemma Ext_Join_entry (dir name : string) :
  entry_name name = true ->
  filepath.Ext (filepath.Join [dir; name]) = filepath.Ext name.
Proof.
  intros Hname. destruct (Join_entry_split dir name Hname) as (p & -> & Hp).
  apply Ext_prefix_name; [exact Hp|].
  apply entry_name_spec in Hname. tauto.
Qed.

(** The stamped name ends with the extension of the name. *)
Lemma Ext_stamped (name stamp : string) :
  has_separator name = false -> plain_string stamp ->
  filepath.Ext (strings.TrimSuffix name (filepath.Ext name)
                +:+ "_" +:+ stamp +:+ filepath.Ext name)
  = filepath.Ext name.
Proof.
  intros Hs Hstamp. destruct (Ext_form name) as [He|(rest & He & Hrest)].
  - rewrite He, TrimSuffix_empty. apply Ext_plain.
    apply plain_string_app; [exact (Ext_empty_plain name Hs He)|].
    apply plain_string_app; [repeat constructor|].
    apply plain_string_app; [exact Hstamp | constructor].
  - rewrite He. rewrite <- !app_assoc_string. apply Ext_dot_plain, Hrest.
Qed.

(** X15.  A planned move keeps the extension of the file: the target has
    the extension of the source, and so has the stamped name used when the
    target exists already.  (So a later scan puts the moved file into the
    same category.) *)
Theorem X15_moved_file_keeps_extension (cfg : Config)
    (entries : list (string * Node)) (readErr : option error) (fm : FileMove) :
  entry_names (Directory entries readErr) = true ->
  fm ∈ filesToMove (snd (scan cfg (inr (Directory entries readErr)))) ->
  filepath.Ext (DestPath fm) = filepath.Ext (SourcePath fm)
  /\ forall now,
       filepath.Ext (timestamped (DestPath fm) (filepath.Dir (DestPath fm)) now)
       = filepath.Ext (SourcePath fm).
Proof.
  intros Hnames Hfm.
  destruct (planned_move_parts cfg entries readErr fm Hnames Hfm)
    as (_ & _ & Hbase & _).
  pose proof (scan_planned_shape cfg (inr (Directory entries readErr))) as Hall.
  rewrite List.Forall_forall in Hall.
  destruct (Hall fm (proj1 (list_elem_of_In _ _) Hfm)) as (_ & _ & Hdest).
  destruct (planned_entry_path cfg entries readErr fm Hnames Hfm)
    as (dir & name & Hsrc & Hname).
  assert (Hb : filepath.Base (SourcePath fm) = name)
    by (rewrite Hsrc; apply Base_Join_entry, Hname).
  rewrite Hb in Hdest, Hbase.
  assert (Hes : filepath.Ext (SourcePath fm) = filepath.Ext name)
    by (rewrite Hsrc; apply Ext_Join_entry, Hname).
  assert (Hed : filepath.Ext (DestPath fm) = filepath.Ext name)
    by (rewrite Hdest; apply Ext_Join_entry, Hname).
  destruct (entry_name_spec name Hname) as (Hn & Hs & _).
  split; [congruence|]. intros now.
  assert (Hne : filepath.Base (DestPath fm) <> "/").
  { rewrite Hbase. intros ->. discriminate Hname. }
  destruct (stamped_name_entry (DestPath fm) now Hne) as [Hstamp _].
  change (timestamped (DestPath fm) (filepath.Dir (DestPath fm)) now)
    with (filepath.Join [filepath.Dir (DestPath fm);
                         stamped_name (DestPath fm) now]).
  rewrite (Ext_Join_entry _ _ Hstamp), Hes.
  unfold stamped_name. rewrite Hbase, Hed.
  apply Ext_stamped; [exact Hs | apply Format_plain].
Qed.

Lemma X15_moved_file_witness :
  filepath.Ext (DestPath (mkFileMove "/source/a.txt" "/dest/Documents/a.txt" false))
  = filepath.Ext (SourcePath (mkFileMove "/source/a.txt" "/dest/Documents/a.txt" false))
  /\ forall now,
       filepath.Ext
         (timestamped
            (DestPath (mkFileMove "/source/a.txt" "/dest/Documents/a.txt" false))
            (filepath.Dir
               (DestPath (mkFileMove "/source/a.txt" "/dest/Documents/a.txt" false)))
            now)
       = filepath.Ext
           (SourcePath (mkFileMove "/source/a.txt" "/dest/Documents/a.txt" false)).
Proof.
  apply (X15_moved_file_keeps_extension (example_cfg true)
           [("a.txt", File); ("sub", Directory [("b.txt", File)] None)] None
           (mkFileMove "/source/a.txt" "/dest/Documents/a.txt" false)).
  - reflexivity.
  - vm_compute. left.
Defined.

(** ** No file is planned twice *)

Lemma string_app_inv_head (p x y : string) : p +:+ x = p +:+ y -> x = y.
Proof.
  induction p as [|c p IH]; [exact (fun H => H)|].
  rewrite !app_cons. intros [= H]. exact (IH H).
Qed.

(** What follows a name in a path: nothing, or a separator and more. *)
Definition name_end (r : string) : Prop := r = "" \/ exists x, r = "/" +:+ x.

Lemma name_segment_eq (a b r1 r2 : string) :
  has_separator a = false -> has_separator b = false ->
  name_end r1 -> name_end r2 ->
  a +:+ r1 = b +:+ r2 -> a = b.
Proof.
  revert b. induction a as [|c a IH]; intros b Ha Hb H1 H2 Heq.
  - destruct b as [|c' b]; [reflexivity|].
    rewrite app_cons in Heq. change ("" +:+ r1) with r1 in Heq.
    destruct H1 as [->|[x ->]]; [discriminate Heq|].
    change ("/" +:+ x) with (String "/" x) in Heq. injection Heq as <- _.
    discriminate Hb.
  - destruct b as [|c' b].
    + rewrite app_cons in Heq. change ("" +:+ r2) with r2 in Heq.
      destruct H2 as [->|[x ->]]; [discriminate Heq|].
      change ("/" +:+ x) with (String "/" x) in Heq. injection Heq as -> _.
      discriminate Ha.
    + rewrite !app_cons in Heq. injection Heq as -> Heq.
      simpl in Ha, Hb. apply orb_false_iff in Ha as [_ Ha].
      apply orb_false_iff in Hb as [_ Hb].
      f_equal. exact (IH b Ha Hb H1 H2 Heq).
Qed.

(** The path of an entry of the directory with the stack [out]. *)
Lemma Join_render (out : list string) (name : string) :
  clean_out true out -> entry_name name = true ->
  filepath.Join [render true out; name] = render true (name :: out)
  /\ clean_out true (name :: out).
Proof.
  intros Hout Hname.
  destruct (entry_name_spec name Hname) as (Hn & Hs & Hdot & Hdd).
  assert (Hout' : clean_out true (name :: out)).
  { simpl. repeat split; try assumption; contradiction. }
  split; [|exact Hout'].
  rewrite (Join_entry _ name Hname (render_nonempty _ _)).
  destruct (render_clean true out Hout) as [-> ->]. reflexivity.
Qed.

(** The files below a directory that is not the root have its path, a
    separator and more as their path; a file has its own path. *)
Lemma files_of_under (n : Node) :
  entry_names n = true ->
  forall e out p,
    clean_out true (e :: out) ->
    p ∈ files_of (render true (e :: out)) n ->
    exists r, p = render true (e :: out) +:+ r /\ name_end r.
Proof.
  induction n as [|entries readErr IH] using Node_nested_ind;
    intros Hnames e out p Hout Hp.
  - simpl in Hp. apply list_elem_of_In in Hp. destruct Hp as [<-|[]].
    exists "". rewrite app_empty_r. split; [reflexivity | left; reflexivity].
  - cbn [files_of] in Hp. cbn [entry_names] in Hnames.
    apply list_elem_of_In, in_flat_map in Hp as ([name1 n1] & Hin & Hp).
    rewrite forallb_forall in Hnames.
    pose proof (Hnames _ Hin) as Hn. cbn [fst snd] in Hn, Hp.
    apply andb_true_iff in Hn as [Hname1 Hn1].
    rewrite List.Forall_forall in IH. specialize (IH _ Hin). cbn [snd] in IH.
    destruct (Join_render (e :: out) name1 Hout Hname1) as [HJ Hout1].
    rewrite HJ in Hp. apply list_elem_of_In in Hp.
    destruct (IH Hn1 name1 (e :: out) p Hout1 Hp) as (r & -> & Hr).
    rewrite (render_cons true name1 (e :: out) Hout1). cbn [before_last].
    exists ("/" +:+ name1 +:+ r).
    split; [rewrite !app_assoc_string; reflexivity | right; eauto].
Qed.

Lemma files_of_entries_NoDup (out : list string) (entries : list (string * Node)) :
  clean_out true out ->
  forallb (fun e => entry_name (fst e) && entry_names (snd e)) entries = true ->
  NoDup (map fst entries) ->
  Forall (fun e => forall name, entry_name name = true ->
                     NoDup (files_of (render true (name :: out)) (snd e))) entries ->
  NoDup (flat_map (fun e => files_of (filepath.Join [render true out; fst e]) (snd e))
                  entries).
Proof.
  intros Hout. induction entries as [|[name1 n1] l IHl]; intros Hnames Hnd Hall.
  - constructor.
  - cbn [forallb fst snd] in Hnames.
    apply andb_true_iff in Hnames as [Hn Hl].
    apply andb_true_iff in Hn as [Hname1 Hn1].
    cbn [map fst] in Hnd. apply NoDup_cons in Hnd as [Hnotin Hnd].
    apply Forall_cons in Hall as [H1 Hall]. cbn [snd] in H1.
    cbn [flat_map fst snd].
    destruct (Join_render out name1 Hout Hname1) as [HJ Hout1].
    apply NoDup_app. split; [rewrite HJ; apply H1, Hname1|].
    split; [|apply IHl; assumption].
    intros p Hp Hp'. rewrite HJ in Hp.
    destruct (files_of_under n1 Hn1 name1 out p Hout1 Hp) as (r1 & Hp1 & Hr1).
    apply list_elem_of_In, in_flat_map in Hp' as ([name2 n2] & Hin2 & Hp2).
    cbn [fst snd] in Hp2.
    rewrite forallb_forall in Hl. pose proof (Hl _ Hin2) as Hn2'.
    cbn [fst snd] in Hn2'. apply andb_true_iff in Hn2' as [Hname2 Hn2].
    destruct (Join_render out name2 Hout Hname2) as [HJ2 Hout2].
    rewrite HJ2 in Hp2. apply list_elem_of_In in Hp2.
    destruct (files_of_under n2 Hn2 name2 out p Hout2 Hp2) as (r2 & Hp2' & Hr2).
    rewrite (render_cons true name1 out Hout1) in Hp1.
    rewrite (render_cons true name2 out Hout2) in Hp2'.
    rewrite Hp1, !app_assoc_string in Hp2'.
    apply string_app_inv_head in Hp2'.
    destruct (entry_name_spec name1 Hname1) as (_ & Hs1 & _).
    destruct (entry_name_spec name2 Hname2) as (_ & Hs2 & _).
    pose proof (name_segment_eq name1 name2 r1 r2 Hs1 Hs2 Hr1 Hr2 Hp2') as Heq.
    apply Hnotin. rewrite Heq.
    apply list_elem_of_In, in_map_iff. exists (name2, n2). auto.
Qed.

Lemma files_of_NoDup (n : Node) :
  entry_names n = true -> distinct_names n = true ->
  forall out, clean_out true out -> NoDup (files_of (render true out) n).
Proof.
  induction n as [|entries readErr IH] using Node_nested_ind;
    intros Hnames Hdist out Hout.
  - simpl. apply NoDup_singleton.
  - cbn [files_of]. cbn [entry_names] in Hnames. cbn [distinct_names] in Hdist.
    apply andb_true_iff in Hdist as [Hnd Hdist].
    apply bool_decide_eq_true in Hnd.
    apply files_of_entries_NoDup; try assumption.
    rewrite List.Forall_forall in IH. apply List.Forall_forall.
    intros [name1 n1] Hin name Hname. cbn [snd].
    rewrite forallb_forall in Hnames, Hdist.
    pose proof (Hnames _ Hin) as Hn. pose proof (Hdist _ Hin) as Hd.
    cbn [fst snd] in Hn, Hd. apply andb_true_iff in Hn as [_ Hn1].
    specialize (IH _ Hin). cbn [snd] in IH.
    apply (IH Hn1 Hd).
    destruct (entry_name_spec name Hname) as (Hn & Hs & Hdot & Hdd).
    simpl. repeat split; try assumption; contradiction.
Qed.

Lemma top_files_sublist (n : Node) (path : string) :
  top_files path n `sublist_of` files_of path n.
Proof.
  destruct n as [|entries readErr]; [reflexivity|].
  cbn [top_files files_of].
  induction entries as [|[name1 n1] l IH]; [constructor|].
  cbn [flat_map fst snd]. apply sublist_app; [|exact IH].
  destruct n1; [reflexivity | apply sublist_nil_l].
Qed.

(** X16.  In a tree whose directories hold each name once, below a source
    directory that is absolute and clean, no file is planned twice: the
    sources of the planned moves differ pair by pair, and so do the moves
    handed to the workers. *)
Theorem X16_no_file_planned_twice (cfg : Config) (n : Node) :
  filepath.rooted (SourceDir cfg) = true ->
  filepath.Clean (SourceDir cfg) = SourceDir cfg ->
  entry_names n = true -> distinct_names n = true ->
  NoDup (planned cfg (inr n))
  /\ NoDup (dispatched (OrganizeFiles cfg (inr n))).
Proof.
  intros Hroot Hclean Hnames Hdist.
  set (out := fold_left (filepath.clean_step true)
                        (strings.SplitSlash (SourceDir cfg)) []).
  assert (Hout : clean_out true out).
  { pose proof (Clean_out (SourceDir cfg)) as H. rewrite Hroot in H. exact H. }
  assert (Hsrc : SourceDir cfg = render true out).
  { rewrite <- Hclean at 1. rewrite Clean_render, Hroot. reflexivity. }
  assert (Hfiles : NoDup (files_of (SourceDir cfg) n)).
  { rewrite Hsrc. apply files_of_NoDup; assumption. }
  assert (Hplanned : NoDup (planned cfg (inr n))).
  { unfold planned. rewrite scan_inr.
    destruct (Recursive cfg) eqn:Hrec.
    - rewrite (walkDir_recursive cfg n Hrec). simpl app.
      apply NoDup_ListNoDup, List.NoDup_filter, NoDup_ListNoDup, Hfiles.
    - rewrite (walkDir_nonrecursive cfg n _ Hrec Hnames).
      apply NoDup_ListNoDup, List.NoDup_filter, NoDup_ListNoDup.
      exact (sublist_NoDup _ _ Hfiles (top_files_sublist n _)). }
  split; [exact Hplanned|].
  rewrite OrganizeFiles_unfold. cbv zeta. cbn [dispatched].
  unfold planned in Hplanned.
  exact (NoDup_fmap_1 SourcePath _ Hplanned).
Qed.

Lemma X16_no_file_planned_twice_witness :
  NoDup (planned (example_cfg true) (inr example_tree))
  /\ NoDup (dispatched (OrganizeFiles (example_cfg true) (inr example_tree))).
Proof.
  apply (X16_no_file_planned_twice (example_cfg true) example_tree);
    reflexivity.
Defined.
